(** * The transfer core of the TOS Go SDK ([tos/type_internal.go])

    A shallow embedding of the checkpoint records, the retry policy, the
    one-shot canceler and the parallel progress decorator, followed by the
    properties proved about them. *)

From Stdlib Require Import ZArith Bool Lia String Floats.
From stdpp Require Import base list strings.

Local Open Scope Z_scope.

(** ** Go's fixed-width integers *)

Module GoInt.

(** [int64] (and [int] on 64-bit targets): arithmetic wraps around. *)
Definition min_int64 : Z := - 2 ^ 63.
Definition max_int64 : Z := 2 ^ 63 - 1.

Definition wrap64 (z : Z) : Z := (z + 2 ^ 63) mod 2 ^ 64 - 2 ^ 63.

Definition in_int64 (z : Z) : Prop := min_int64 <= z <= max_int64.

Definition add64 (a b : Z) : Z := wrap64 (a + b).
Definition sub64 (a b : Z) : Z := wrap64 (a - b).
Definition mul64 (a b : Z) : Z := wrap64 (a * b).

End GoInt.

(** ** [time.Time] of Go's standard library

    The repository compares [time.Time] values with [!=], which on a Go
    struct compares the fields one by one, and reads [Unix()] of a file's
    modification time.  The record has the three fields of the runtime
    representation; [Unix] follows [time.Time.Unix]. *)

Module GoTime.

Record Time : Type := mkTime {
  wall : Z;          (* uint64 *)
  ext  : Z;          (* int64 *)
  loc  : option Z    (* *Location: the address, [None] for nil *)
}.

Definition loc_eqb (a b : option Z) : bool :=
  match a, b with
  | None, None => true
  | Some x, Some y => x =? y
  | _, _ => false
  end.

(** [a == b] on the struct. *)
Definition eqb (a b : Time) : bool :=
  (wall a =? wall b) && (ext a =? ext b) && loc_eqb (loc a) (loc b).

Definition secondsPerDay : Z := 86400.
Definition unixToInternal : Z :=
  (1969 * 365 + 1969 / 4 - 1969 / 100 + 1969 / 400) * secondsPerDay.
Definition internalToUnix : Z := - unixToInternal.
Definition wallToInternal : Z :=
  (1884 * 365 + 1884 / 4 - 1884 / 100 + 1884 / 400) * secondsPerDay.
Definition nsecShift : Z := 30.

(** [t.sec()]: seconds since January 1 of year 1. *)
Definition sec (t : Time) : Z :=
  if Z.testbit (wall t) 63
  then GoInt.add64 wallToInternal
         (Z.shiftr (Z.shiftl (wall t) 1 mod 2 ^ 64) (nsecShift + 1))
  else ext t.

Definition Unix (t : Time) : Z := GoInt.add64 (sec t) internalToUnix.

End GoTime.

(** ** Comparison operators of the source *)

Definition str_ne (a b : string) : bool := negb (String.eqb a b).
Definition int_ne (a b : Z) : bool := negb (a =? b).
Definition time_ne (a b : GoTime.Time) : bool := negb (GoTime.eqb a b).

(** ** Records the checkpoints are validated against

    [DownloadFileInput], [HeadObjectV2Output] and [os.FileInfo] are declared
    outside this file of the repository; the records below carry the fields
    that [Valid] reads. *)

Module DownloadFileInput.
Record t : Type := mk {
  Bucket : string;
  Key : string;
  VersionID : string;
  PartSize : Z;
  IfMatch : string;
  IfModifiedSince : GoTime.Time;
  IfNoneMatch : string;
  IfUnmodifiedSince : GoTime.Time;
  SSECAlgorithm : string;
  SSECKeyMD5 : string;
  FilePath : string
}.
End DownloadFileInput.

Module HeadObjectV2Output.
Record t : Type := mk {
  ETag : string;
  HashCrc64ecma : Z;          (* uint64 *)
  LastModified : GoTime.Time;
  ContentLength : Z           (* int64 *)
}.
End HeadObjectV2Output.

(** [os.FileInfo], through the two methods [Valid] calls. *)
Module FileStat.
Record t : Type := mk {
  Size : Z;
  ModTime : GoTime.Time
}.
End FileStat.

(** ** Download checkpoint *)

Module downloadObjectInfo.
Record t : Type := mk {
  Etag : string;
  HashCrc64ecma : Z;
  LastModified : GoTime.Time;
  ObjectSize : Z
}.
End downloadObjectInfo.

Module downloadFileInfo.
Record t : Type := mk {
  FilePath : string;
  TempFilePath : string
}.
End downloadFileInfo.

Module downloadPartInfo.
Record t : Type := mk {
  PartNumber : Z;
  RangeStart : Z;
  RangeEnd : Z;
  HashCrc64ecma : Z;
  IsCompleted : bool
}.
End downloadPartInfo.

Module downloadCheckpoint.

Record t : Type := mk {
  checkpointPath : string;
  Bucket : string;
  Key : string;
  VersionID : string;
  PartSize : Z;
  IfMatch : string;
  IfModifiedSince : GoTime.Time;
  IfNoneMatch : string;
  IfUnmodifiedSince : GoTime.Time;
  SSECAlgorithm : string;
  SSECKeyMD5 : string;
  ObjectInfo : downloadObjectInfo.t;
  FileInfo : downloadFileInfo.t;
  PartsInfo : list downloadPartInfo.t
}.

Definition Valid (c : t) (input : DownloadFileInput.t)
    (head : HeadObjectV2Output.t) : bool :=
  if str_ne (Bucket c) (DownloadFileInput.Bucket input)
     || str_ne (Key c) (DownloadFileInput.Key input)
     || str_ne (VersionID c) (DownloadFileInput.VersionID input)
     || int_ne (PartSize c) (DownloadFileInput.PartSize input)
     || str_ne (IfMatch c) (DownloadFileInput.IfMatch input)
     || time_ne (IfModifiedSince c) (DownloadFileInput.IfModifiedSince input)
     || str_ne (IfNoneMatch c) (DownloadFileInput.IfNoneMatch input)
     || time_ne (IfUnmodifiedSince c)
          (DownloadFileInput.IfUnmodifiedSince input)
     || str_ne (SSECAlgorithm c) (DownloadFileInput.SSECAlgorithm input)
     || str_ne (SSECKeyMD5 c) (DownloadFileInput.SSECKeyMD5 input)
  then false
  else if str_ne (downloadObjectInfo.Etag (ObjectInfo c))
            (HeadObjectV2Output.ETag head)
          || int_ne (downloadObjectInfo.HashCrc64ecma (ObjectInfo c))
               (HeadObjectV2Output.HashCrc64ecma head)
          || time_ne (downloadObjectInfo.LastModified (ObjectInfo c))
               (HeadObjectV2Output.LastModified head)
          || int_ne (downloadObjectInfo.ObjectSize (ObjectInfo c))
               (HeadObjectV2Output.ContentLength head)
  then false
  else if str_ne (downloadFileInfo.FilePath (FileInfo c))
            (DownloadFileInput.FilePath input)
  then false
  else true.

Definition with_PartsInfo (c : t) (ps : list downloadPartInfo.t) : t :=
  mk (checkpointPath c) (Bucket c) (Key c) (VersionID c) (PartSize c)
     (IfMatch c) (IfModifiedSince c) (IfNoneMatch c) (IfUnmodifiedSince c)
     (SSECAlgorithm c) (SSECKeyMD5 c) (ObjectInfo c) (FileInfo c) ps.

(** [c.PartsInfo[part.PartNumber-1] = part]; an index outside the slice
    is a run-time panic, rendered as [None]. *)
Definition UpdatePartsInfo (c : t) (part : downloadPartInfo.t) : option t :=
  let idx := GoInt.sub64 (downloadPartInfo.PartNumber part) 1 in
  if (0 <=? idx) && (idx <? Z.of_nat (length (PartsInfo c)))
  then Some (with_PartsInfo c (<[Z.to_nat idx := part]> (PartsInfo c)))
  else None.

(** [json.Marshal], [ioutil.WriteFile] and [newTosClientError] live
    outside this file; [WriteToFile] is written over them.  [FS] is the
    state of the file system, [GoError] the dynamic type behind Go's
    [error], [None] its nil. *)
Section Persist.
Context {FS GoError Bytes : Type}.
Variable Marshal : t -> Bytes + GoError.
Variable WriteFile : string -> Bytes -> FS -> FS * option GoError.
Variable ErrorString : GoError -> string.
Variable newTosClientError : string -> GoError -> GoError.

Definition WriteToFile (c : t) (fs : FS) : FS * option GoError :=
  match Marshal c with
  | inr err => (fs, Some (newTosClientError (ErrorString err) err))
  | inl buffer =>
      match WriteFile (checkpointPath c) buffer fs with
      | (fs', Some err) =>
          (fs', Some (newTosClientError (ErrorString err) err))
      | (fs', None) => (fs', None)
      end
  end.
End Persist.

End downloadCheckpoint.

(** ** Upload checkpoint *)

Module fileInfo.
Record t : Type := mk {
  LastModified : Z;
  Size : Z
}.
End fileInfo.

Module uploadPartInfo.
Record t : Type := mk {
  uploadID : option string;   (* *string *)
  PartNumber : Z;
  PartSize : Z;
  Offset : Z;
  ETag : string;
  HashCrc64ecma : Z;
  IsCompleted : bool
}.
End uploadPartInfo.

Module UploadedPartV2.
Record t : Type := mk {
  PartNumber : Z;
  ETag : string
}.
End UploadedPartV2.

Module uploadCheckpoint.

Record t : Type := mk {
  checkpointPath : string;
  Bucket : string;
  Key : string;
  UploadID : string;
  PartSize : Z;
  SSECAlgorithm : string;
  SSECKeyMD5 : string;
  EncodingType : string;
  FilePath : string;
  FileInfo : fileInfo.t;
  PartsInfo : list uploadPartInfo.t
}.

Definition Valid (u : t) (uploadFileStat : FileStat.t)
    (bucketName key uploadFile : string) : bool :=
  if String.eqb (UploadID u) EmptyString
     || str_ne (Bucket u) bucketName
     || str_ne (Key u) key
     || str_ne (FilePath u) uploadFile
  then false
  else if int_ne (fileInfo.Size (FileInfo u)) (FileStat.Size uploadFileStat)
          || int_ne (fileInfo.LastModified (FileInfo u))
               (GoTime.Unix (FileStat.ModTime uploadFileStat))
  then false
  else true.

(** The loop of [GetParts]: one [append] per element of the range. *)
Fixpoint GetParts_loop (ps : list uploadPartInfo.t)
    (parts : list UploadedPartV2.t) : list UploadedPartV2.t :=
  match ps with
  | [] => parts
  | p :: rest =>
      GetParts_loop rest
        (parts ++ [UploadedPartV2.mk (uploadPartInfo.PartNumber p)
                     (uploadPartInfo.ETag p)])
  end.

Definition GetParts (u : t) : list UploadedPartV2.t :=
  GetParts_loop (PartsInfo u) [].

Definition with_PartsInfo (u : t) (ps : list uploadPartInfo.t) : t :=
  mk (checkpointPath u) (Bucket u) (Key u) (UploadID u) (PartSize u)
     (SSECAlgorithm u) (SSECKeyMD5 u) (EncodingType u) (FilePath u)
     (FileInfo u) ps.

Definition with_PartSize (u : t) (sz : Z) : t :=
  mk (checkpointPath u) (Bucket u) (Key u) (UploadID u) sz
     (SSECAlgorithm u) (SSECKeyMD5 u) (EncodingType u) (FilePath u)
     (FileInfo u) (PartsInfo u).

Definition UpdatePartsInfo (u : t) (part : uploadPartInfo.t) : option t :=
  let idx := GoInt.sub64 (uploadPartInfo.PartNumber part) 1 in
  if (0 <=? idx) && (idx <? Z.of_nat (length (PartsInfo u)))
  then Some (with_PartsInfo u (<[Z.to_nat idx := part]> (PartsInfo u)))
  else None.

Section Persist.
Context {FS GoError Bytes : Type}.
Variable Marshal : t -> Bytes + GoError.
Variable WriteFile : string -> Bytes -> FS -> FS * option GoError.
Variable ErrorString : GoError -> string.
Variable newTosClientError : string -> GoError -> GoError.

Definition WriteToFile (u : t) (fs : FS) : FS * option GoError :=
  match Marshal u with
  | inr err => (fs, Some (newTosClientError (ErrorString err) err))
  | inl result =>
      match WriteFile (checkpointPath u) result fs with
      | (fs', Some err) =>
          (fs', Some (newTosClientError (ErrorString err) err))
      | (fs', None) => (fs', None)
      end
  end.
End Persist.

End uploadCheckpoint.

(** ** Retry policy *)

Module retry.

Inductive retryAction : Type := NoRetry | Retry.

Definition retryAction_eqb (a b : retryAction) : bool :=
  match a, b with
  | NoRetry, NoRetry | Retry, Retry => true
  | _, _ => false
  end.

(** [time.Duration] is an [int64] count of nanoseconds. *)
Definition Millisecond : Z := 1000000.
Definition DefaultRetryBackoffBase : Z := 100 * Millisecond.

(** [make([]time.Duration, n)]: a negative length is a run-time panic. *)
Definition make_durations (n : Z) : option (list Z) :=
  if n <? 0 then None else Some (replicate (Z.to_nat n) 0).

(** The [for] loop of [exponentialBackoff], from index [i] on; [steps]
    bounds the iterations left and is the slice length at the call. *)
Fixpoint exponentialBackoff_loop (steps : nat) (i : nat)
    (backoffs : list Z) (base : Z) : list Z :=
  if (i <? length backoffs)%nat then
    match steps with
    | O => backoffs
    | S steps' =>
        exponentialBackoff_loop steps' (S i) (<[i := base]> backoffs)
          (GoInt.mul64 base 1)
    end
  else backoffs.

Definition exponentialBackoff (n : Z) (base : Z) : option (list Z) :=
  match make_durations n with
  | None => None
  | Some backoffs =>
      Some (exponentialBackoff_loop (length backoffs) 0 backoffs base)
  end.

Record retryer : Type := mkRetryer {
  backoff : list Z;
  jitter : float      (* float64 *)
}.

Definition SetBackoff (r : retryer) (b : list Z) : retryer :=
  mkRetryer b (jitter r).

Definition newRetryer (b : list Z) : retryer := mkRetryer b 0%float.

(** [r.backoff[i]]; an index outside the slice is a run-time panic. *)
Definition calcSleep (r : retryer) (i : nat) : option Z := backoff r !! i.

Definition SetJitter (r : retryer) (jit : float) : retryer :=
  if (PrimFloat.ltb jit 0 || PrimFloat.ltb 1 jit)%bool then r
  else mkRetryer (backoff r) jit.

(** [Run] and [worthToRetry] act on the world outside the retryer: the
    clock, the context and whatever [work] touches.  [W] is the state of
    that world, [E] the dynamic type behind [error] ([None] is nil). *)
Section Run.

Context {W E : Type}.

(** [time.Now().UnixNano()] and [time.Sleep]. *)
Variable Now : W -> Z.
Variable Sleep : Z -> W -> W.

(** The two methods of [context.Context] that are called;
    [Deadline] yields [deadline.UnixNano()] when a deadline is set. *)
Record Context_ : Type := mkContext {
  Err : W -> option E;
  Deadline : W -> option Z
}.

(** A nil [ctx] is [None]. *)
Definition worthToRetry (ctx : option Context_) (waitTime : Z) (w : W)
  : bool :=
  match ctx with
  | None => true
  | Some c =>
      match Err c w with
      | Some _ => false
      | None =>
          match Deadline c w with
          | None => true
          | Some deadline => GoInt.add64 (Now w) waitTime <=? deadline
          end
      end
  end.

(** What [Run] does to the world, in order: a call of [work] with the
    error it returned, or a sleep with its duration and the state in
    which it was decided. *)
Inductive event : Type :=
| EvWork (ferr : option E)
| EvSleep (sleepTime : Z) (w : W).

Definition outcome : Type := option E * W * list event.

Variable r : retryer.
Variable ctx : option Context_.
Variable work : W -> option E * W.
Variable Classify : option E -> retryAction.

(** The [for] loop of [Run], entered with counter [i], last error [ferr]
    and world [w].  [None] is a panic or exhausted fuel. *)
Fixpoint Run_loop (fuel : nat) (i : nat) (ferr : option E) (w : W)
  : option outcome :=
  if ((i <? length (backoff r))%nat
      && retryAction_eqb (Classify ferr) Retry)%bool
  then
    match fuel with
    | O => None
    | S fuel' =>
        match calcSleep r i with
        | None => None
        | Some sleepTime =>
            if negb (worthToRetry ctx sleepTime w) then Some (ferr, w, [])
            else
              let w1 := Sleep sleepTime w in
              let '(ferr', w2) := work w1 in
              match Run_loop fuel' (S i) ferr' w2 with
              | None => None
              | Some (res, w3, tr) =>
                  Some (res, w3, EvSleep sleepTime w :: EvWork ferr' :: tr)
              end
        end
    end
  else Some (ferr, w, []).

Definition Run (w : W) : option outcome :=
  let '(ferr, w0) := work w in
  match Run_loop (length (backoff r)) 0 ferr w0 with
  | None => None
  | Some (res, w1, tr) => Some (res, w1, EvWork ferr :: tr)
  end.

End Run.

End retry.

(** ** Cancellation *)

Module canceler.

(** What a call of [Cancel] does to the world outside the struct. *)
Inductive effect : Type :=
| Swapped      (* the compare-and-swap on [called] succeeded *)
| Cleaned      (* [c.cleaner()] ran *)
| Aborted      (* [c.aborter()] ran *)
| Closed.      (* [close(c.cancelHandle)] *)

(** [cancelHandle] is [None] when nil, else [Some closed];
    [cleaner] and [aborter] record whether the function value is non-nil. *)
Record t : Type := mk {
  called : Z;                    (* int32 *)
  cancelHandle : option bool;
  cleaner : bool;
  aborter : bool
}.

Definition with_called (c : t) (v : Z) : t :=
  mk v (cancelHandle c) (cleaner c) (aborter c).
Definition with_closed (c : t) : t :=
  mk (called c) (Some true) (cleaner c) (aborter c).

(** One call of [Cancel] run to its end without interference.
    [None] is the panic of closing a closed channel. *)
Definition Cancel (c : t) (isAbort : bool) : option (t * list effect) :=
  match cancelHandle c with
  | None => Some (c, [])
  | Some closed =>
      if called c =? 0 then
        let c1 := with_called c 1 in
        let e1 := if isAbort && cleaner c then [Cleaned] else [] in
        let e2 := if isAbort && aborter c then [Aborted] else [] in
        if closed then None
        else Some (with_closed c1, Swapped :: e1 ++ e2 ++ [Closed])
      else Some (c, [])
  end.

(** *** Concurrent calls

    Each call is a thread that advances one program point at a time; the
    compare-and-swap is one atomic step.  A schedule names the thread that
    moves next. *)

Inductive pc : Type :=
| AtEntry      (* before the nil test *)
| AtCAS        (* before [atomic.CompareAndSwapInt32] *)
| AtCleaner    (* inside [if isAbort], before the cleaner *)
| AtAborter    (* before the aborter *)
| AtClose      (* before [close] *)
| Done
| Panicked.

Record system : Type := mkSystem {
  shared : t;
  threads : list (bool * pc);        (* isAbort, program point *)
  log : list (nat * effect)          (* thread, effect; oldest first *)
}.

Definition move (s : system) (tid : nat) (isAbort : bool) (p : pc)
    (c : t) (es : list effect) : system :=
  mkSystem c (<[tid := (isAbort, p)]> (threads s))
    (log s ++ (pair tid <$> es)).

Definition step (s : system) (tid : nat) : system :=
  match threads s !! tid with
  | None => s
  | Some (isAbort, p) =>
      let c := shared s in
      match p with
      | AtEntry =>
          match cancelHandle c with
          | None => move s tid isAbort Done c []
          | Some _ => move s tid isAbort AtCAS c []
          end
      | AtCAS =>
          if called c =? 0
          then move s tid isAbort (if isAbort then AtCleaner else AtClose)
                 (with_called c 1) [Swapped]
          else move s tid isAbort Done c []
      | AtCleaner =>
          move s tid isAbort AtAborter c
            (if cleaner c then [Cleaned] else [])
      | AtAborter =>
          move s tid isAbort AtClose c
            (if aborter c then [Aborted] else [])
      | AtClose =>
          match cancelHandle c with
          | Some false => move s tid isAbort Done (with_closed c) [Closed]
          | _ => move s tid isAbort Panicked c []
          end
      | Done | Panicked => s
      end
  end.

Definition run (schedule : list nat) (s : system) : system :=
  fold_left step schedule s.

(** The calls [Cancel(b)] for [b] in [calls], all about to start. *)
Definition start (c : t) (calls : list bool) : system :=
  mkSystem c ((fun b => (b, AtEntry)) <$> calls) [].

End canceler.

(** ** Progress reporting for parts read in parallel *)

Module parallelReadCloserWithListener.

(** [enum.DataTransferType] and [DataTransferStatus] are declared outside
    this file; the record has the fields the decorator sets, the others
    keep Go's zero value. *)
Inductive DataTransferType : Type :=
| DataTransferStarted
| DataTransferRW
| DataTransferSucceed
| DataTransferFailed.

Record DataTransferStatus : Type := mkStatus {
  Type_ : DataTransferType;
  RWOnceBytes : Z;
  ConsumedBytes : Z;
  TotalBytes : Z
}.

(** The [error] a [Read] returns: nil, [io.EOF], or anything else. *)
Inductive read_error : Type :=
| ErrNil
| ErrEOF
| ErrOther (msg : string).

(** The two [int64] cells shared by all part streams of a transfer. *)
Record counters : Type := mkCounters {
  consumed : Z;
  subtotal : Z
}.

Definition threshold : Z := 4 * 1024 * 1024.

(** One [Read]: [base] is what [r.base.Read(p)] returned, [s] the shared
    cells before the call.  The result is the cells after it, the statuses
    posted to the listener in order, and the values returned. *)
Definition Read (total : Z) (base : Z * read_error) (s : counters)
  : counters * list DataTransferStatus * (Z * read_error) :=
  let '(n, err) := base in
  match err with
  | ErrOther _ => (s, [mkStatus DataTransferFailed 0 0 0], (n, err))
  | _ =>
      if n <=? 0 then (s, [], (n, err))
      else
        let consumed' := GoInt.add64 (consumed s) n in
        let subtotal' := GoInt.add64 (subtotal s) n in
        let flush := threshold <=? subtotal' in
        let ev1 :=
          if flush
          then [mkStatus DataTransferRW subtotal' consumed' total]
          else [] in
        let s' := mkCounters consumed' (if flush then 0 else subtotal') in
        let ev2 :=
          if consumed' =? total then
            (if subtotal' <? threshold
             then [mkStatus DataTransferRW subtotal' consumed' total]
             else [])
            ++ [mkStatus DataTransferSucceed 0 consumed' total]
          else [] in
        (s', ev1 ++ ev2, (n, err))
  end.

(** A sequence of reads, by any of the part streams, one after the other:
    the statuses each read posted. *)
Fixpoint Reads (total : Z) (bases : list (Z * read_error)) (s : counters)
  : counters * list (list DataTransferStatus) :=
  match bases with
  | [] => (s, [])
  | base :: rest =>
      let '(s1, evs, _) := Read total base s in
      let '(s2, evss) := Reads total rest s1 in
      (s2, evs :: evss)
  end.

End parallelReadCloserWithListener.

(** ** The part list sent to complete an upload, as a [sort.Interface] *)

Module uploadedPart.
Record t : Type := mk {
  PartNumber : Z;
  ETag : string
}.
End uploadedPart.

Module uploadedParts.

(** A Go index expression [p[i]]: an index outside the slice is a run-time
    panic, rendered as [None]. *)
Definition at_index (p : list uploadedPart.t) (i : Z)
  : option uploadedPart.t :=
  if (0 <=? i) && (i <? Z.of_nat (length p))
  then p !! Z.to_nat i
  else None.

Definition Less (p : list uploadedPart.t) (i j : Z) : option bool :=
  match at_index p i with
  | None => None
  | Some a =>
      match at_index p j with
      | None => None
      | Some b => Some (uploadedPart.PartNumber a <? uploadedPart.PartNumber b)
      end
  end.

(** [p[i], p[j] = p[j], p[i]]: both operands are read, then both slots are
    written. *)
Definition Swap (p : list uploadedPart.t) (i j : Z)
  : option (list uploadedPart.t) :=
  match at_index p j with
  | None => None
  | Some b =>
      match at_index p i with
      | None => None
      | Some a => Some (<[Z.to_nat j := a]> (<[Z.to_nat i := b]> p))
      end
  end.

Definition Len (p : list uploadedPart.t) : Z := Z.of_nat (length p).

End uploadedParts.

(** ** Progress reporting for a single stream *)

Module readCloserWithListener.

(** One [Read]: [base] is what [r.base.Read(p)] returned, [consumed] the
    field [r.consumed] before the call.  The result is the field after the
    call, the statuses posted in order, and the values returned. *)
Definition Read (total : Z)
    (base : Z * parallelReadCloserWithListener.read_error) (consumed : Z)
  : Z * list parallelReadCloserWithListener.DataTransferStatus
    * (Z * parallelReadCloserWithListener.read_error) :=
  let started :=
    if consumed =? 0
    then [parallelReadCloserWithListener.mkStatus
            parallelReadCloserWithListener.DataTransferStarted 0 0 0]
    else [] in
  let '(n, err) := base in
  match err with
  | parallelReadCloserWithListener.ErrOther _ =>
      (consumed,
       started ++ [parallelReadCloserWithListener.mkStatus
                     parallelReadCloserWithListener.DataTransferFailed 0 0 0],
       (n, err))
  | _ =>
      if n <=? 0 then (consumed, started, (n, err))
      else
        let consumed' := GoInt.add64 consumed n in
        (consumed',
         started
         ++ [parallelReadCloserWithListener.mkStatus
               parallelReadCloserWithListener.DataTransferRW n consumed'
               total]
         ++ (if consumed' =? total
             then [parallelReadCloserWithListener.mkStatus
                     parallelReadCloserWithListener.DataTransferSucceed 0
                     consumed' total]
             else []),
         (n, err))
  end.

(** Reads one after the other: the statuses each read posted. *)
Fixpoint Reads (total : Z)
    (bases : list (Z * parallelReadCloserWithListener.read_error))
    (consumed : Z)
  : Z * list (list parallelReadCloserWithListener.DataTransferStatus) :=
  match bases with
  | [] => (consumed, [])
  | base :: rest =>
      let '(c1, evs, _) := Read total base consumed in
      let '(c2, evss) := Reads total rest c1 in
      (c2, evs :: evss)
  end.

End readCloserWithListener.

(** ** The checksum decorator *)

Module readCloserWithCRC.

Section Read.

(** [H] is the state of the [hash.Hash64] checker, [E] the dynamic type
    behind [error].  [Write] is [r.checker.Write]. *)
Context {H E : Type}.
Variable Write : list Byte.byte -> H -> (Z * option E) * H.

(** [base] is what [r.base.Read(p)] did: the bytes it stored at the start of
    [p] (so [n] is their number and [p[:n]] is [data]) and its error. *)
Definition Read (base : list Byte.byte * option E) (h : H)
  : (Z * option E) * H :=
  let '(data, err) := base in
  let n := Z.of_nat (length data) in
  if 0 <? n then
    let '((n', err'), h') := Write data h in
    match err' with
    | Some _ => ((n', err'), h')
    | None => ((n', err'), h')
    end
  else ((n, err), h).

Fixpoint Reads (bases : list (list Byte.byte * option E)) (h : H)
  : list (Z * option E) * H :=
  match bases with
  | [] => ([], h)
  | base :: rest =>
      let '(ret, h1) := Read base h in
      let '(rets, h2) := Reads rest h1 in
      (ret :: rets, h2)
  end.

End Read.

End readCloserWithCRC.

(** ** The rate-limiting decorator *)

Module ReadCloserWithLimiter.

(** What [Read] does to the world outside, in order: a request to the
    limiter with its answer, a sleep, the read of the wrapped stream. *)
Inductive event : Type :=
| EvAcquire (want : Z) (ok : bool) (timeToWait : Z)
| EvSleep (d : Z)
| EvBaseRead (p_len : Z).

Section Read.

(** [W] is the state of the world outside the decorator: the limiter, the
    clock and the wrapped stream; [R] is what a [Read] returns.  [Acquire]
    is [r.limiter.Acquire], [Sleep] is [time.Sleep] and [baseRead] is
    [r.base.Read(p)] for a buffer of the given length. *)
Context {W R : Type}.
Variable Acquire : Z -> W -> (bool * Z) * W.
Variable Sleep : Z -> W -> W.
Variable baseRead : Z -> W -> R * W.

(** The [for] loop, run for at most [fuel] turns: what it has done, the
    world it has reached, and whether it has left the loop by [break]. *)
Fixpoint acquire_loop (fuel : nat) (want : Z) (w : W)
  : list event * W * bool :=
  match fuel with
  | O => ([], w, false)
  | S fuel' =>
      let '((ok, timeToWait), w1) := Acquire want w in
      if ok then ([EvAcquire want true timeToWait], w1, true)
      else
        let '(tr, w2, granted) :=
          acquire_loop fuel' want (Sleep timeToWait w1) in
        (EvAcquire want false timeToWait :: EvSleep timeToWait :: tr,
         w2, granted)
  end.

(** [p_len] is [len(p)].  The result is what [Read] has done within [fuel]
    turns of its loop, the world it has reached and, once it has returned,
    the values it returned. *)
Definition Read (fuel : nat) (p_len : Z) (w : W)
  : list event * W * option R :=
  let want := p_len in
  let '(tr, w1, granted) := acquire_loop fuel want w in
  if granted then
    let '(ret, w2) := baseRead p_len w1 in
    (tr ++ [EvBaseRead p_len], w2, Some ret)
  else (tr, w1, None).

End Read.

End ReadCloserWithLimiter.

(** ** Building a client ([tos/client.go]) *)

Module client.

(** [urlMode], [TransportConfig] and [Config] are declared outside this
    file; the records carry the fields that the options and [initClient]
    read or write. *)
Inductive urlMode : Type := urlModeDefault | urlModePath.

Record TransportConfig : Type := mkTransportConfig {
  InsecureSkipVerify : bool;
  ResponseHeaderTimeout : Z;
  DialTimeout : Z;
  MaxIdleConns : Z;
  IdleConnTimeout : Z;
  ReadTimeout : Z;
  WriteTimeout : Z
}.

Record Config : Type := mkConfig {
  Endpoint : string;
  Region : string;
  TransportConfig_ : TransportConfig
}.

(** [endpoint[n:]] for [n] within the string. *)
Fixpoint string_drop (n : nat) (s : string) : string :=
  match n with
  | O => s
  | S n' =>
      match s with
      | EmptyString => EmptyString
      | String _ s' => string_drop n' s'
      end
  end.

(** [isIP host] is [net.ParseIP(host) != nil]. *)
Definition schemeHost (isIP : string -> bool) (endpoint : string)
  : string * string * urlMode :=
  let '(scheme, host) :=
    if String.prefix "https://" endpoint
    then ("https"%string,
          string_drop (String.length "https://") endpoint)
    else if String.prefix "http://" endpoint
    then ("http"%string, string_drop (String.length "http://") endpoint)
    else ("http"%string, endpoint) in
  let mode := if isIP host then urlModePath else urlModeDefault in
  (scheme, host, mode).

(** The error [newTosClientError(msg, nil)] builds. *)
Inductive TosClientError : Type := newTosClientError (msg : string).

Section Client.

(** The interfaces a client holds, and the values and functions of the
    package that this file uses but does not define. *)
Context {Credentials Signer Transport Recognizer Proxy : Type}.
Variable ExtensionBasedContentTypeRecognizer : Recognizer.
Variable EmptyContentTypeRecognizer : Recognizer.
Variable SupportedRegion : string -> option string.
Variable isIP : string -> bool.
Variable NewDefaultTransport : TransportConfig -> Transport.
Variable NewSignV4 : Credentials -> string -> Signer.
Variable defaultConfig : Config.
Variable defaultUserAgent : string.

Record Client : Type := mkClient {
  scheme : string;
  host : string;
  urlMode_ : urlMode;
  userAgent : string;
  credentials : option Credentials;
  signer : option Signer;
  transport : option Transport;
  recognizer : option Recognizer;
  config : Config;
  retry : option retry.retryer;
  dnsCacheTime : Z;
  enableCRC : bool;
  proxy : option Proxy
}.

Definition ClientOption : Type := Client -> Client.

Definition with_config (c : Client) (cfg : Config) : Client :=
  mkClient (scheme c) (host c) (urlMode_ c) (userAgent c) (credentials c)
    (signer c) (transport c) (recognizer c) cfg (retry c) (dnsCacheTime c)
    (enableCRC c) (proxy c).

Definition with_transport_config (c : Client) (tc : TransportConfig)
  : Client :=
  with_config c (mkConfig (Endpoint (config c)) (Region (config c)) tc).

Definition WithCredentials (cred : option Credentials) : ClientOption :=
  fun c =>
    mkClient (scheme c) (host c) (urlMode_ c) (userAgent c) cred
      (signer c) (transport c) (recognizer c) (config c) (retry c)
      (dnsCacheTime c) (enableCRC c) (proxy c).

Definition WithEnableVerifySSL (enable : bool) : ClientOption :=
  let skip := negb enable in
  fun c =>
    let tc := TransportConfig_ (config c) in
    with_transport_config c
      (mkTransportConfig skip (ResponseHeaderTimeout tc) (DialTimeout tc)
         (MaxIdleConns tc) (IdleConnTimeout tc) (ReadTimeout tc)
         (WriteTimeout tc)).

Definition WithRequestTimeout (timeout : Z) : ClientOption :=
  fun c =>
    let tc := TransportConfig_ (config c) in
    with_transport_config c
      (mkTransportConfig (InsecureSkipVerify tc) timeout (DialTimeout tc)
         (MaxIdleConns tc) (IdleConnTimeout tc) (ReadTimeout tc)
         (WriteTimeout tc)).

Definition WithConnectionTimeout (timeout : Z) : ClientOption :=
  fun c =>
    let tc := TransportConfig_ (config c) in
    with_transport_config c
      (mkTransportConfig (InsecureSkipVerify tc) (ResponseHeaderTimeout tc)
         timeout (MaxIdleConns tc) (IdleConnTimeout tc) (ReadTimeout tc)
         (WriteTimeout tc)).

Definition WithMaxConnections (max : Z) : ClientOption :=
  fun c =>
    let tc := TransportConfig_ (config c) in
    with_transport_config c
      (mkTransportConfig (InsecureSkipVerify tc) (ResponseHeaderTimeout tc)
         (DialTimeout tc) max (IdleConnTimeout tc) (ReadTimeout tc)
         (WriteTimeout tc)).

Definition WithIdleConnTimeout (timeout : Z) : ClientOption :=
  fun c =>
    let tc := TransportConfig_ (config c) in
    with_transport_config c
      (mkTransportConfig (InsecureSkipVerify tc) (ResponseHeaderTimeout tc)
         (DialTimeout tc) (MaxIdleConns tc) timeout (ReadTimeout tc)
         (WriteTimeout tc)).

(** [strings.Join([]string{client.userAgent, suffix}, " ")]. *)
Definition WithUserAgentSuffix (suffix : string) : ClientOption :=
  fun c =>
    mkClient (scheme c) (host c) (urlMode_ c)
      (String.append (userAgent c) (String.append " " suffix))
      (credentials c) (signer c) (transport c) (recognizer c) (config c)
      (retry c) (dnsCacheTime c) (enableCRC c) (proxy c).

Definition WithTransport (t : option Transport) : ClientOption :=
  fun c =>
    mkClient (scheme c) (host c) (urlMode_ c) (userAgent c) (credentials c)
      (signer c) t (recognizer c) (config c) (retry c) (dnsCacheTime c)
      (enableCRC c) (proxy c).

Definition WithTransportConfig (tc : TransportConfig) : ClientOption :=
  fun c => with_transport_config c tc.

Definition WithSocketTimeout (readTimeout writeTimeout : Z) : ClientOption :=
  fun c =>
    let tc := TransportConfig_ (config c) in
    with_transport_config c
      (mkTransportConfig (InsecureSkipVerify tc) (ResponseHeaderTimeout tc)
         (DialTimeout tc) (MaxIdleConns tc) (IdleConnTimeout tc) readTimeout
         writeTimeout).

Definition WithRegion (region : string) : ClientOption :=
  fun c =>
    let c1 :=
      with_config c
        (mkConfig (Endpoint (config c)) region (TransportConfig_ (config c)))
    in
    match SupportedRegion region with
    | Some endpoint =>
        with_config c1
          (mkConfig endpoint (Region (config c1))
             (TransportConfig_ (config c1)))
    | None => c1
    end.

Definition WithSigner (s : option Signer) : ClientOption :=
  fun c =>
    mkClient (scheme c) (host c) (urlMode_ c) (userAgent c) (credentials c)
      s (transport c) (recognizer c) (config c) (retry c) (dnsCacheTime c)
      (enableCRC c) (proxy c).

Definition WithPathAccessMode (pathAccessMode : bool) : ClientOption :=
  fun c => c.

Definition with_recognizer (c : Client) (r : option Recognizer) : Client :=
  mkClient (scheme c) (host c) (urlMode_ c) (userAgent c) (credentials c)
    (signer c) (transport c) r (config c) (retry c) (dnsCacheTime c)
    (enableCRC c) (proxy c).

Definition WithAutoRecognizeContentType (enable : bool) : ClientOption :=
  fun c =>
    if enable
    then with_recognizer c (Some ExtensionBasedContentTypeRecognizer)
    else with_recognizer c (Some EmptyContentTypeRecognizer).

Definition WithContentTypeRecognizer (r : option Recognizer)
  : ClientOption :=
  fun c => with_recognizer c r.

(** The client after [initClient], and the error returned ([None] is nil). *)
Definition initClient (client : Client) (endpoint : string)
    (options : list ClientOption) : Client * option TosClientError :=
  let c1 := fold_left (fun c option => option c) options client in
  let c2 :=
    if (String.length (Endpoint (config c1)) =? 0)%nat
    then with_config c1
           (mkConfig endpoint (Region (config c1))
              (TransportConfig_ (config c1)))
    else c1 in
  let '(sch, hst, mode) := schemeHost isIP (Endpoint (config c2)) in
  let c3 :=
    mkClient sch hst mode (userAgent c2) (credentials c2) (signer c2)
      (transport c2) (recognizer c2) (config c2) (retry c2)
      (dnsCacheTime c2) (enableCRC c2) (proxy c2) in
  let c4 :=
    match transport c3 with
    | None =>
        WithTransport
          (Some (NewDefaultTransport (TransportConfig_ (config c3)))) c3
    | Some _ => c3
    end in
  match credentials c4, signer c4 with
  | Some cred, None =>
      if (String.length (Region (config c4)) =? 0)%nat
      then (c4, Some (newTosClientError "tos: missing Region option"))
      else (WithSigner (Some (NewSignV4 cred (Region (config c4)))) c4, None)
  | _, _ => (c4, None)
  end.

Definition NewClient (endpoint : string) (options : list ClientOption)
  : Client + TosClientError :=
  let client :=
    mkClient EmptyString EmptyString urlModeDefault defaultUserAgent None
      None None (Some ExtensionBasedContentTypeRecognizer) defaultConfig
      None 0 false None in
  match initClient client endpoint options with
  | (_, Some err) => inr err
  | (client', None) => inl client'
  end.

Definition NewClientV2 (endpoint : string) (options : list ClientOption)
  : Client + TosClientError :=
  let client :=
    mkClient EmptyString EmptyString urlModeDefault defaultUserAgent None
      None None (Some ExtensionBasedContentTypeRecognizer) defaultConfig
      (Some (retry.newRetryer [])) 0 false None in
  let client :=
    mkClient (scheme client) (host client) (urlMode_ client)
      (userAgent client) (credentials client) (signer client)
      (transport client) (recognizer client) (config client)
      (match retry client with
       | Some r => Some (retry.SetJitter r 0.25%float)
       | None => None
       end)
      (dnsCacheTime client) (enableCRC client) (proxy client) in
  match initClient client endpoint options with
  | (_, Some err) => inr err
  | (client', None) => inl client'
  end.

End Client.

End client.

(** ** Statements used by the properties *)

(** Everything the download variant compares, as one proposition. *)
Definition download_matches (c : downloadCheckpoint.t)
    (input : DownloadFileInput.t) (head : HeadObjectV2Output.t) : Prop :=
  downloadCheckpoint.Bucket c = DownloadFileInput.Bucket input
  /\ downloadCheckpoint.Key c = DownloadFileInput.Key input
  /\ downloadCheckpoint.VersionID c = DownloadFileInput.VersionID input
  /\ downloadCheckpoint.PartSize c = DownloadFileInput.PartSize input
  /\ downloadCheckpoint.IfMatch c = DownloadFileInput.IfMatch input
  /\ downloadCheckpoint.IfModifiedSince c
     = DownloadFileInput.IfModifiedSince input
  /\ downloadCheckpoint.IfNoneMatch c = DownloadFileInput.IfNoneMatch input
  /\ downloadCheckpoint.IfUnmodifiedSince c
     = DownloadFileInput.IfUnmodifiedSince input
  /\ downloadCheckpoint.SSECAlgorithm c
     = DownloadFileInput.SSECAlgorithm input
  /\ downloadCheckpoint.SSECKeyMD5 c = DownloadFileInput.SSECKeyMD5 input
  /\ downloadObjectInfo.Etag (downloadCheckpoint.ObjectInfo c)
     = HeadObjectV2Output.ETag head
  /\ downloadObjectInfo.HashCrc64ecma (downloadCheckpoint.ObjectInfo c)
     = HeadObjectV2Output.HashCrc64ecma head
  /\ downloadObjectInfo.LastModified (downloadCheckpoint.ObjectInfo c)
     = HeadObjectV2Output.LastModified head
  /\ downloadObjectInfo.ObjectSize (downloadCheckpoint.ObjectInfo c)
     = HeadObjectV2Output.ContentLength head
  /\ downloadFileInfo.FilePath (downloadCheckpoint.FileInfo c)
     = DownloadFileInput.FilePath input.

(** Everything the upload variant compares. *)
Definition upload_matches (u : uploadCheckpoint.t) (st : FileStat.t)
    (bucketName key uploadFile : string) : Prop :=
  uploadCheckpoint.UploadID u <> EmptyString
  /\ uploadCheckpoint.Bucket u = bucketName
  /\ uploadCheckpoint.Key u = key
  /\ uploadCheckpoint.FilePath u = uploadFile
  /\ fileInfo.Size (uploadCheckpoint.FileInfo u) = FileStat.Size st
  /\ fileInfo.LastModified (uploadCheckpoint.FileInfo u)
     = GoTime.Unix (FileStat.ModTime st).

(** The record at index [i] is the record of part number [i+1]. *)
Definition index_identity {A : Type} (num : A -> Z) (ps : list A) : Prop :=
  forall (i : nat) (p : A), ps !! i = Some p -> num p = Z.of_nat i + 1.

(** Two download checkpoints that differ at most in their part list. *)
Definition download_same_fields (c c' : downloadCheckpoint.t) : Prop :=
  downloadCheckpoint.checkpointPath c' = downloadCheckpoint.checkpointPath c
  /\ downloadCheckpoint.Bucket c' = downloadCheckpoint.Bucket c
  /\ downloadCheckpoint.Key c' = downloadCheckpoint.Key c
  /\ downloadCheckpoint.VersionID c' = downloadCheckpoint.VersionID c
  /\ downloadCheckpoint.PartSize c' = downloadCheckpoint.PartSize c
  /\ downloadCheckpoint.IfMatch c' = downloadCheckpoint.IfMatch c
  /\ downloadCheckpoint.IfModifiedSince c'
     = downloadCheckpoint.IfModifiedSince c
  /\ downloadCheckpoint.IfNoneMatch c' = downloadCheckpoint.IfNoneMatch c
  /\ downloadCheckpoint.IfUnmodifiedSince c'
     = downloadCheckpoint.IfUnmodifiedSince c
  /\ downloadCheckpoint.SSECAlgorithm c' = downloadCheckpoint.SSECAlgorithm c
  /\ downloadCheckpoint.SSECKeyMD5 c' = downloadCheckpoint.SSECKeyMD5 c
  /\ downloadCheckpoint.ObjectInfo c' = downloadCheckpoint.ObjectInfo c
  /\ downloadCheckpoint.FileInfo c' = downloadCheckpoint.FileInfo c.

(** Two upload checkpoints that differ at most in their part list. *)
Definition upload_same_fields (u u' : uploadCheckpoint.t) : Prop :=
  uploadCheckpoint.checkpointPath u' = uploadCheckpoint.checkpointPath u
  /\ uploadCheckpoint.Bucket u' = uploadCheckpoint.Bucket u
  /\ uploadCheckpoint.Key u' = uploadCheckpoint.Key u
  /\ uploadCheckpoint.UploadID u' = uploadCheckpoint.UploadID u
  /\ uploadCheckpoint.PartSize u' = uploadCheckpoint.PartSize u
  /\ uploadCheckpoint.SSECAlgorithm u' = uploadCheckpoint.SSECAlgorithm u
  /\ uploadCheckpoint.SSECKeyMD5 u' = uploadCheckpoint.SSECKeyMD5 u
  /\ uploadCheckpoint.EncodingType u' = uploadCheckpoint.EncodingType u
  /\ uploadCheckpoint.FilePath u' = uploadCheckpoint.FilePath u
  /\ uploadCheckpoint.FileInfo u' = uploadCheckpoint.FileInfo u.

(** What [UpdatePartsInfo] does to a part list: slot [k] now holds [p],
    every other slot and the length are as before. *)
Definition slot_written {A : Type} (old new : list A) (k : nat) (p : A)
  : Prop :=
  new !! k = Some p
  /\ (forall j : nat, j <> k -> new !! j = old !! j)
  /\ length new = length old.

(** What [GetParts] copies out of a part record. *)
Definition uploaded_part_of (p : uploadPartInfo.t) : UploadedPartV2.t :=
  UploadedPartV2.mk (uploadPartInfo.PartNumber p) (uploadPartInfo.ETag p).

(** The outcome [r] of persisting checkpoint [c] to [path] from file-system
    state [fs]: nil exactly when serialization and the write of the
    serialized bytes both succeed (and then the file system is the one the
    write left), an error exactly when one of the two fails, and every error
    is the client error wrapping the failure. *)
Definition write_outcome {Ckpt FS GoError Bytes : Type}
    (Marshal : Ckpt -> Bytes + GoError)
    (WriteFile : string -> Bytes -> FS -> FS * option GoError)
    (ErrorString : GoError -> string)
    (newTosClientError : string -> GoError -> GoError)
    (path : string) (c : Ckpt) (fs : FS) (r : FS * option GoError) : Prop :=
  (snd r = None
   <-> exists buf, Marshal c = inl buf
                   /\ WriteFile path buf fs = (fst r, None))
  /\ (snd r <> None
      <-> (exists e, Marshal c = inr e)
          \/ (exists buf fs' e, Marshal c = inl buf
                                /\ WriteFile path buf fs = (fs', Some e)))
  /\ (forall e', snd r = Some e' ->
        (exists e, Marshal c = inr e
                   /\ e' = newTosClientError (ErrorString e) e /\ fst r = fs)
        \/ (exists buf e, Marshal c = inl buf
                          /\ WriteFile path buf fs = (fst r, Some e)
                          /\ e' = newTosClientError (ErrorString e) e)).

(** *** Retry policy *)

Section RetrySpec.

Context {W E : Type}.

(** The errors returned by the calls of [work], in order. *)
Fixpoint work_errors (tr : list (@retry.event W E)) : list (option E) :=
  match tr with
  | [] => []
  | retry.EvWork e :: tr' => e :: work_errors tr'
  | retry.EvSleep _ _ :: tr' => work_errors tr'
  end.

(** The durations slept, in order. *)
Fixpoint sleep_times (tr : list (@retry.event W E)) : list Z :=
  match tr with
  | [] => []
  | retry.EvWork _ :: tr' => sleep_times tr'
  | retry.EvSleep d _ :: tr' => d :: sleep_times tr'
  end.

(** A context that is nil, or is never cancelled and has no deadline. *)
Definition ctx_quiet (ctx : option (@retry.Context_ W E)) : Prop :=
  match ctx with
  | None => True
  | Some c =>
      forall w, retry.Err c w = None /\ retry.Deadline c w = None
  end.

(** In world [w] the context is already done, or it has a deadline that
    the 64-bit sum of the current time and the wait [d] exceeds. *)
Definition check_fails (Now : W -> Z) (ctx : option (@retry.Context_ W E))
    (d : Z) (w : W) : Prop :=
  exists c, ctx = Some c
    /\ (retry.Err c w <> None
        \/ exists deadline, retry.Deadline c w = Some deadline
                            /\ deadline < GoInt.add64 (Now w) d).

(** The same with the exact sum. *)
Definition past_deadline (Now : W -> Z) (ctx : option (@retry.Context_ W E))
    (d : Z) (w : W) : Prop :=
  exists c, ctx = Some c
    /\ (retry.Err c w <> None
        \/ exists deadline, retry.Deadline c w = Some deadline
                            /\ deadline < Now w + d).

(** [replays Sleep work w tr w']: performing the events of [tr] one after
    the other from world [w] ends in world [w']; every call of [work] in the
    trace returned what [work] returns in the world reached at that point,
    and every sleep was decided in the world reached at that point. *)
Fixpoint replays (Sleep : Z -> W -> W) (work : W -> option E * W) (w : W)
    (tr : list (@retry.event W E)) (w' : W) : Prop :=
  match tr with
  | [] => w' = w
  | retry.EvWork ferr :: tr' =>
      ferr = fst (work w) /\ replays Sleep work (snd (work w)) tr' w'
  | retry.EvSleep d w0 :: tr' =>
      w0 = w /\ replays Sleep work (Sleep d w) tr' w'
  end.

End RetrySpec.

(** *** Cancellation *)

(** Everything the call of thread [tid] with argument [isAbort] does when it
    wins the flag of canceler [c]. *)
Definition winner_script (c : canceler.t) (tid : nat) (isAbort : bool)
  : list (nat * canceler.effect) :=
  pair tid <$>
    (canceler.Swapped
       :: (if isAbort && canceler.cleaner c then [canceler.Cleaned] else [])
       ++ (if isAbort && canceler.aborter c then [canceler.Aborted] else [])
       ++ [canceler.Closed]).

Definition effect_eqb (a b : canceler.effect) : bool :=
  match a, b with
  | canceler.Swapped, canceler.Swapped
  | canceler.Cleaned, canceler.Cleaned
  | canceler.Aborted, canceler.Aborted
  | canceler.Closed, canceler.Closed => true
  | _, _ => false
  end.

(** How many times effect [e] occurs in a log. *)
Definition count_effect (e : canceler.effect)
    (l : list (nat * canceler.effect)) : nat :=
  length (List.filter (fun x => effect_eqb (snd x) e) l).

(** A thread that has not won the flag: about to start, about to try the
    compare-and-swap, or returned. *)
Definition idle (th : bool * canceler.pc) : Prop :=
  match snd th with
  | canceler.AtEntry | canceler.AtCAS | canceler.Done => True
  | _ => False
  end.

(** The effects a winner with argument [b] has produced when at point [p];
    [cl] and [ab] tell whether cleaner and aborter are non-nil. *)
Definition winner_log (cl ab : bool) (b : bool) (p : canceler.pc)
  : option (list canceler.effect) :=
  let e1 := if b && cl then [canceler.Cleaned] else [] in
  let e2 := if b && ab then [canceler.Aborted] else [] in
  match p with
  | canceler.AtCleaner =>
      if b then Some [canceler.Swapped] else None
  | canceler.AtAborter =>
      if b then Some (canceler.Swapped :: e1) else None
  | canceler.AtClose => Some (canceler.Swapped :: e1 ++ e2)
  | canceler.Panicked => Some (canceler.Swapped :: e1 ++ e2)
  | canceler.Done => Some (canceler.Swapped :: e1 ++ e2 ++ [canceler.Closed])
  | _ => None
  end.

(** The invariant of every interleaving of the calls [calls] on [c0]:
    either nothing has happened to the canceler, or exactly one thread has
    won the flag and the log is what that thread has done so far. *)
Definition cancel_inv (c0 : canceler.t) (calls : list bool)
    (s : canceler.system) : Prop :=
  fst <$> canceler.threads s = calls
  /\ canceler.cleaner (canceler.shared s) = canceler.cleaner c0
  /\ canceler.aborter (canceler.shared s) = canceler.aborter c0
  /\ ((canceler.log s = [] /\ canceler.shared s = c0
       /\ Forall idle (canceler.threads s))
      \/ (canceler.called (canceler.shared s) <> 0
          /\ canceler.called c0 = 0
          /\ exists tid b p es,
              canceler.threads s !! tid = Some (b, p)
              /\ winner_log (canceler.cleaner c0) (canceler.aborter c0) b p
                 = Some es
              /\ canceler.log s = (pair tid <$> es)
              /\ forall j th, j <> tid ->
                              canceler.threads s !! j = Some th -> idle th)).

(** *** Progress reporting *)

(** The bytes a read contributes to the transfer: those of a read that did
    not fail with an error other than end-of-stream. *)
Definition counted (base : Z * parallelReadCloserWithListener.read_error)
  : Z :=
  match snd base with
  | parallelReadCloserWithListener.ErrOther _ => 0
  | _ => fst base
  end.

Fixpoint counted_sum
    (bases : list (Z * parallelReadCloserWithListener.read_error)) : Z :=
  match bases with
  | [] => 0
  | base :: rest => counted base + counted_sum rest
  end.

Definition is_succeed
    (st : parallelReadCloserWithListener.DataTransferStatus) : bool :=
  match parallelReadCloserWithListener.Type_ st with
  | parallelReadCloserWithListener.DataTransferSucceed => true
  | _ => false
  end.

(** How many Succeeded statuses a list of statuses holds. *)
Definition count_succeed
    (evs : list parallelReadCloserWithListener.DataTransferStatus) : nat :=
  length (List.filter is_succeed evs).

(** Fresh counters of a transfer. *)
Definition fresh_counters : parallelReadCloserWithListener.counters :=
  parallelReadCloserWithListener.mkCounters 0 0.

(** Sample values. *)

Definition sample_stat : FileStat.t :=
  FileStat.mk 10485760 (GoTime.mkTime 0 63800000000 None).

Definition sample_upload : uploadCheckpoint.t :=
  uploadCheckpoint.mk "/tmp/a.ckpt" "bkt" "obj" "upload-1" 5242880
    "AES256" "md5" "url" "/data/a.bin"
    (fileInfo.mk (GoTime.Unix (GoTime.mkTime 0 63800000000 None)) 10485760)
    [].


Definition sample_download : downloadCheckpoint.t :=
  downloadCheckpoint.mk "/tmp/d.ckpt" "bkt" "obj" "v1" 10485760
    "etag-a" (GoTime.mkTime 0 0 None) "etag-b" (GoTime.mkTime 0 0 None)
    "AES256" "md5"
    (downloadObjectInfo.mk "etag-a" 77 (GoTime.mkTime 0 63800000000 None)
       26214400)
    (downloadFileInfo.mk "/data/out.bin" "/data/out.bin.temp")
    [downloadPartInfo.mk 1 0 10485759 0 false;
     downloadPartInfo.mk 2 10485760 20971519 0 false;
     downloadPartInfo.mk 3 20971520 26214399 0 false].

Definition sample_download_part : downloadPartInfo.t :=
  downloadPartInfo.mk 2 10485760 20971519 4242 true.

Definition sample_upload3 : uploadCheckpoint.t :=
  uploadCheckpoint.with_PartsInfo sample_upload
    [uploadPartInfo.mk None 1 10485760 0 "e1" 11 true;
     uploadPartInfo.mk None 2 10485760 10485760 EmptyString 0 false;
     uploadPartInfo.mk None 3 5242880 20971520 "e3" 33 true].

Definition sample_upload_part : uploadPartInfo.t :=
  uploadPartInfo.mk (Some "upload-1") 2 10485760 10485760 "e2" 22 true.

(** A world that is a clock in nanoseconds: [work] takes one millisecond and
    fails, the classifier retries every error. *)
Definition clock_now (w : Z) : Z := w.
Definition clock_sleep (d : Z) (w : Z) : Z := w + Z.max d 0.
Definition failing_work (w : Z) : option string * Z :=
  (Some (if w <? 1700000000000000000 + 150000000 then "first" else "later"),
   w + 1000000).
Definition always_retry (e : option string) : retry.retryAction :=
  retry.Retry.
Definition clock_start : Z := 1700000000000000000.

Definition two_retries : retry.retryer :=
  retry.SetJitter (retry.newRetryer [100000000; 100000000]) 0.25%float.

(** One retry after a wait close to the longest [time.Duration]. *)
Definition long_wait : retry.retryer :=
  retry.newRetryer [9000000000000000000].

(** A context that is done once its deadline has passed. *)
Definition deadline_ctx (deadline : Z) : @retry.Context_ Z string :=
  retry.mkContext
    (fun w => if deadline <=? w then Some "context deadline exceeded"
              else None)
    (fun _ => Some deadline).

(** Cancellation: a canceler with both actions set, three calls and a
    schedule that interleaves them. *)
Definition sample_canceler : canceler.t :=
  canceler.mk 0 (Some false) true true.
Definition sample_calls : list bool := [true; false; true].
Definition sample_schedule : list nat :=
  [0; 2; 1; 2; 0; 1; 2; 0; 2; 2; 1; 0; 0]%nat.

(** Progress: a transfer of 9 MiB read as 3 MiB, a failed read, 2 MiB,
    an empty read and 4 MiB. *)
Definition sample_reads
  : list (Z * parallelReadCloserWithListener.read_error) :=
  [(3145728, parallelReadCloserWithListener.ErrNil);
   (1024, parallelReadCloserWithListener.ErrOther "reset");
   (2097152, parallelReadCloserWithListener.ErrNil);
   (0, parallelReadCloserWithListener.ErrNil);
   (4194304, parallelReadCloserWithListener.ErrEOF)].

(** Persisting: a file system that is a list of files, a serializer that
    fails on an empty key, and a write that fails on an empty path. *)
Definition sample_Marshal (c : downloadCheckpoint.t) : string + string :=
  if String.eqb (downloadCheckpoint.Key c) EmptyString
  then inr "json: unsupported value"%string
  else inl (String.append (downloadCheckpoint.Bucket c)
              (String.append "/" (downloadCheckpoint.Key c))).
Definition sample_WriteFile (path : string) (data : string)
    (fs : list (string * string))
  : list (string * string) * option string :=
  if String.eqb path EmptyString
  then (fs, Some "open : no such file or directory"%string)
  else ((path, data) :: fs, None).
Definition sample_newTosClientError (msg : string) (cause : string)
  : string :=
  String.append "tos: client error: " msg.
(** ** Further statements and sample values *)

(** Go's [int] holds the length of every slice. *)
Definition slice_length_ok {A : Type} (l : list A) : Prop :=
  Z.of_nat (length l) <= GoInt.max_int64.

Definition sample_parts : list uploadedPart.t :=
  [uploadedPart.mk 3 "e3"; uploadedPart.mk 1 "e1"; uploadedPart.mk 2 "e2"].

(** The slice update both [UpdatePartsInfo] methods perform, on the part
    list alone; [num] reads the part number of a record. *)
Definition update_slot {A : Type} (num : A -> Z) (l : list A) (p : A)
  : option (list A) :=
  let idx := GoInt.sub64 (num p) 1 in
  if (0 <=? idx) && (idx <? Z.of_nat (length l))
  then Some (<[Z.to_nat idx := p]> l)
  else None.

(** *** Cancellation *)

(** Calls of [Cancel] one after the other, each run to its end; the effects
    in order.  [None] is a panic. *)
Fixpoint Cancel_all (c : canceler.t) (calls : list bool)
  : option (canceler.t * list canceler.effect) :=
  match calls with
  | [] => Some (c, [])
  | b :: rest =>
      match canceler.Cancel c b with
      | None => None
      | Some (c1, es) =>
          match Cancel_all c1 rest with
          | None => None
          | Some (c2, es') => Some (c2, es ++ es')
          end
      end
  end.

(** A thread that has not yet tried the compare-and-swap. *)
Definition waiting (th : bool * canceler.pc) : Prop :=
  snd th = canceler.AtEntry \/ snd th = canceler.AtCAS.

(** The program points between a successful swap and the return. *)
Definition in_section (p : canceler.pc) : Prop :=
  p = canceler.AtCleaner \/ p = canceler.AtAborter \/ p = canceler.AtClose.

(** What holds besides [cancel_inv] when the calls start on a canceler with
    a clear flag and an open channel. *)
Definition fresh_inv (c0 : canceler.t) (s : canceler.system) : Prop :=
  (canceler.called (canceler.shared s) = 0 ->
   canceler.shared s = c0 /\ Forall waiting (canceler.threads s))
  /\ Forall (fun th => snd th <> canceler.Panicked) (canceler.threads s)
  /\ (forall j b p,
         canceler.threads s !! j = Some (b, p) -> in_section p ->
         canceler.cancelHandle (canceler.shared s) = Some false)
  /\ canceler.cancelHandle (canceler.shared s) <> None.

(** *** Progress reporting *)

(** The bytes reported by the RW statuses of a list. *)
Fixpoint rw_bytes
    (evs : list parallelReadCloserWithListener.DataTransferStatus) : Z :=
  match evs with
  | [] => 0
  | st :: rest =>
      match parallelReadCloserWithListener.Type_ st with
      | parallelReadCloserWithListener.DataTransferRW =>
          parallelReadCloserWithListener.RWOnceBytes st + rw_bytes rest
      | _ => rw_bytes rest
      end
  end.

Definition is_started
    (st : parallelReadCloserWithListener.DataTransferStatus) : bool :=
  match parallelReadCloserWithListener.Type_ st with
  | parallelReadCloserWithListener.DataTransferStarted => true
  | _ => false
  end.

Definition count_started
    (evs : list parallelReadCloserWithListener.DataTransferStatus) : nat :=
  length (List.filter is_started evs).

(** The number of reads at the head of a sequence that contribute no byte. *)
Fixpoint leading_uncounted
    (bases : list (Z * parallelReadCloserWithListener.read_error)) : nat :=
  match bases with
  | [] => O
  | base :: rest =>
      if counted base =? 0 then S (leading_uncounted rest) else O
  end.

(** Every read returns a count [n >= 0]. *)
Definition reads_ok
    (bases : list (Z * parallelReadCloserWithListener.read_error)) : Prop :=
  Forall (fun base => 0 <= fst base) bases.

(** *** The checksum and rate-limiting decorators *)

(** What the checksum decorator returns for a read of [data] with error
    [err]: the count, and the error only when no byte was delivered. *)
Definition crc_return {E : Type} (base : list Byte.byte * option E)
  : Z * option E :=
  (Z.of_nat (length (fst base)),
   match fst base with
   | [] => snd base
   | _ :: _ => None
   end).

(** The limiter refuses the next [k] requests for [want] bytes and the
    decorator sleeps after each: what has been done, a request and a sleep
    per turn, and the world after it.  [None] when one of the [k] requests
    is granted. *)
Fixpoint refused_waits {W : Type} (Acquire : Z -> W -> (bool * Z) * W)
    (Sleep : Z -> W -> W) (k : nat) (want : Z) (w : W)
  : option (list ReadCloserWithLimiter.event * W) :=
  match k with
  | O => Some ([], w)
  | S k' =>
      let '((ok, timeToWait), w1) := Acquire want w in
      if ok then None
      else
        match refused_waits Acquire Sleep k' want (Sleep timeToWait w1) with
        | None => None
        | Some (tr, w2) =>
            Some (ReadCloserWithLimiter.EvAcquire want false timeToWait
                    :: ReadCloserWithLimiter.EvSleep timeToWait :: tr, w2)
        end
  end.

(** How often the wrapped stream has been read. *)
Definition base_reads (tr : list ReadCloserWithLimiter.event) : nat :=
  length (List.filter
            (fun e => match e with
                      | ReadCloserWithLimiter.EvBaseRead _ => true
                      | _ => false
                      end) tr).

(** A checker whose state is the bytes written so far, and a limiter that
    refuses, asking for 5 ms, until it has been asked three times. *)
Definition sample_Write (data : list Byte.byte) (h : list Byte.byte)
  : (Z * option string) * list Byte.byte :=
  ((Z.of_nat (length data), None), h ++ data).

(** The world of the samples: how often the limiter has been asked, the
    time slept in all, and the bytes the wrapped stream has left. *)
Record sample_world : Type := mkSampleWorld {
  asked : nat;
  slept : Z;
  unread : Z
}.

Definition sample_Acquire (want : Z) (w : sample_world)
  : (bool * Z) * sample_world :=
  ((3 <=? asked w)%nat, if (3 <=? asked w)%nat then 0 else 5000000,
   mkSampleWorld (S (asked w)) (slept w) (unread w)).

Definition sample_Sleep (d : Z) (w : sample_world) : sample_world :=
  mkSampleWorld (asked w) (slept w + d) (unread w).

(** The wrapped stream delivers as much as fits in the buffer. *)
Definition sample_baseRead (p_len : Z) (w : sample_world)
  : (Z * bool) * sample_world :=
  (Z.min p_len (unread w), unread w <=? p_len,
   mkSampleWorld (asked w) (slept w) (unread w - Z.min p_len (unread w))).

(** *** Building a client *)

(** The client with every option applied, in order. *)
Definition apply_options {C : Type} (options : list (C -> C)) (c : C) : C :=
  fold_left (fun c option => option c) options c.

(** Sample surroundings of a client: one supported region, and a host that
    is an IP address when it is the loopback address. *)
Definition sample_SupportedRegion (region : string) : option string :=
  if String.eqb region "cn-beijing"
  then Some "https://tos-cn-beijing.volces.com"%string
  else None.
Definition sample_isIP (h : string) : bool := String.eqb h "127.0.0.1".
Definition sample_NewDefaultTransport (tc : client.TransportConfig)
  : string := "default transport"%string.
Definition sample_NewSignV4 (cred : string) (region : string) : string :=
  String.append "v4:" (String.append cred (String.append "@" region)).
Definition sample_defaultConfig : client.Config :=
  client.mkConfig EmptyString EmptyString
    (client.mkTransportConfig false 0 0 1024 0 0 0).

Definition sample_client : @client.Client string string string string unit :=
  client.mkClient EmptyString EmptyString client.urlModeDefault
    "tos-go-sdk/v2" None None None (Some "by extension"%string)
    sample_defaultConfig None 0 false None.

(** The endpoint [initClient] settles on: its argument, unless the options
    have left one in the configuration. *)
Definition effective_endpoint
    {Credentials Signer Transport Recognizer Proxy : Type}
    (c1 : @client.Client Credentials Signer Transport Recognizer Proxy)
    (endpoint : string) : string :=
  if (String.length (client.Endpoint (client.config c1)) =? 0)%nat
  then endpoint else client.Endpoint (client.config c1).

(** An option that leaves the retryer of the client alone. *)
Definition keeps_retry
    {Credentials Signer Transport Recognizer Proxy : Type}
    (option : @client.Client Credentials Signer Transport Recognizer Proxy
              -> @client.Client Credentials Signer Transport Recognizer
                   Proxy) : Prop :=
  forall c, client.retry (option c) = client.retry c.

(* ================================================================== *)
(** * Properties *)
(* ================================================================== *)

Section GoIntFacts.
Import GoInt.

Lemma wrap64_id z : in_int64 z -> wrap64 z = z.
Proof.
  unfold in_int64, min_int64, max_int64, wrap64. intros H.
  rewrite Z.mod_small; lia.
Qed.

Lemma wrap64_range z : in_int64 (wrap64 z).
Proof.
  unfold in_int64, min_int64, max_int64, wrap64.
  pose proof (Z.mod_pos_bound (z + 2 ^ 63) (2 ^ 64) ltac:(lia)). lia.
Qed.

End GoIntFacts.

(** ** Checkpoint validation *)

Section Comparisons.

Lemma str_ne_false a b : str_ne a b = false <-> a = b.
Proof.
  unfold str_ne. rewrite negb_false_iff. apply String.eqb_eq.
Qed.

Lemma int_ne_false a b : int_ne a b = false <-> a = b.
Proof.
  unfold int_ne. rewrite negb_false_iff. apply Z.eqb_eq.
Qed.

Lemma loc_eqb_eq a b : GoTime.loc_eqb a b = true <-> a = b.
Proof.
  destruct a as [x|], b as [y|]; simpl; try (split; congruence).
  rewrite Z.eqb_eq. split; congruence.
Qed.

Lemma time_eqb_eq a b : GoTime.eqb a b = true <-> a = b.
Proof.
  destruct a as [w1 e1 l1], b as [w2 e2 l2]. unfold GoTime.eqb. simpl.
  rewrite !andb_true_iff, !Z.eqb_eq, loc_eqb_eq.
  split; [intros [[-> ->] ->]; reflexivity | intros H; inversion H; auto].
Qed.

Lemma time_ne_false a b : time_ne a b = false <-> a = b.
Proof.
  unfold time_ne. rewrite negb_false_iff. apply time_eqb_eq.
Qed.

End Comparisons.

Ltac split_ors :=
  repeat match goal with
         | H : (_ || _)%bool = false |- _ =>
             apply orb_false_iff in H; destruct H
         end.

Lemma download_Valid_iff c input head :
  downloadCheckpoint.Valid c input head = true
  <-> download_matches c input head.
Proof.
  unfold downloadCheckpoint.Valid, download_matches. split.
  - intros H.
    repeat match type of H with
           | (if ?b then _ else _) = _ =>
               let E := fresh "E" in destruct b eqn:E; [discriminate |]
           end.
    split_ors.
    repeat match goal with
           | H : str_ne _ _ = false |- _ => apply str_ne_false in H
           | H : int_ne _ _ = false |- _ => apply int_ne_false in H
           | H : time_ne _ _ = false |- _ => apply time_ne_false in H
           end.
    repeat split; assumption.
  - intros (H1 & H2 & H3 & H4 & H5 & H6 & H7 & H8 & H9 & H10 & H11 & H12
            & H13 & H14 & H15).
    apply str_ne_false in H1, H2, H3, H5, H7, H9, H10, H11, H15.
    apply int_ne_false in H4, H12, H14.
    apply time_ne_false in H6, H8, H13.
    rewrite H1, H2, H3, H4, H5, H6, H7, H8, H9, H10, H11, H12, H13, H14, H15.
    reflexivity.
Qed.

Lemma upload_Valid_iff u st bucketName key uploadFile :
  uploadCheckpoint.Valid u st bucketName key uploadFile = true
  <-> upload_matches u st bucketName key uploadFile.
Proof.
  unfold uploadCheckpoint.Valid, upload_matches. split.
  - intros H.
    repeat match type of H with
           | (if ?b then _ else _) = _ =>
               let E := fresh "E" in destruct b eqn:E; [discriminate |]
           end.
    split_ors.
    repeat match goal with
           | H : str_ne _ _ = false |- _ => apply str_ne_false in H
           | H : int_ne _ _ = false |- _ => apply int_ne_false in H
           | H : String.eqb _ _ = false |- _ => apply String.eqb_neq in H
           end.
    repeat split; assumption.
  - intros (H0 & H1 & H2 & H3 & H4 & H5).
    apply String.eqb_neq in H0.
    apply str_ne_false in H1, H2, H3.
    apply int_ne_false in H4, H5.
    rewrite H0, H1, H2, H3, H4, H5. reflexivity.
Qed.

Example upload_Valid_sample :
  uploadCheckpoint.Valid sample_upload sample_stat "bkt" "obj" "/data/a.bin"
  = true
  /\ uploadCheckpoint.Valid sample_upload sample_stat "bkt" "other"
       "/data/a.bin" = false
  /\ uploadCheckpoint.Valid sample_upload
       (FileStat.mk 10485761 (GoTime.mkTime 0 63800000000 None))
       "bkt" "obj" "/data/a.bin" = false.
Proof. repeat split; vm_compute; reflexivity. Qed.

(** C1 (as amended).  The download checkpoint is valid exactly when bucket,
    key, version id, part size, the four conditional-request headers, the two
    SSE-C parameters, the four live metadata fields (entity tag, checksum,
    last-modified, size) and the local file path all match; the upload
    checkpoint is valid exactly when its upload id is non-empty and bucket,
    key, file path, file size and modification time (in Unix seconds) match.
    The upload variant compares nothing else. *)
Theorem Valid_all_or_nothing :
  (forall c input head,
      downloadCheckpoint.Valid c input head = true
      <-> download_matches c input head)
  /\ (forall u st bucketName key uploadFile,
         uploadCheckpoint.Valid u st bucketName key uploadFile = true
         <-> upload_matches u st bucketName key uploadFile).
Proof.
  split.
  - exact download_Valid_iff.
  - exact upload_Valid_iff.
Qed.

(** C1 (as stated) fails for the upload variant: a stored part size of 5 MiB
    changed to 8 MiB, every other field alike, leaves the checkpoint valid. *)
Lemma upload_Valid_ignores_PartSize :
  uploadCheckpoint.PartSize sample_upload
  <> uploadCheckpoint.PartSize
       (uploadCheckpoint.with_PartSize sample_upload 8388608)
  /\ uploadCheckpoint.Valid sample_upload sample_stat "bkt" "obj"
       "/data/a.bin" = true
  /\ uploadCheckpoint.Valid
       (uploadCheckpoint.with_PartSize sample_upload 8388608)
       sample_stat "bkt" "obj" "/data/a.bin" = true.
Proof.
  split; [simpl; lia | split; vm_compute; reflexivity].
Qed.

(** ** Recording a part's completion *)

Lemma part_index_in_range (n : Z) (len : nat) :
  GoInt.in_int64 n ->
  1 <= n <= Z.of_nat len ->
  GoInt.sub64 n 1 = n - 1
  /\ (0 <=? n - 1) && (n - 1 <? Z.of_nat len) = true
  /\ (Z.to_nat (n - 1) < len)%nat.
Proof.
  intros Hn H. split; [| split].
  - apply wrap64_id. revert Hn.
    unfold GoInt.in_int64, GoInt.min_int64, GoInt.max_int64. lia.
  - apply andb_true_iff. split; [apply Z.leb_le | apply Z.ltb_lt]; lia.
  - lia.
Qed.

Lemma insert_slot_written {A : Type} (l : list A) (k : nat) (p : A) :
  (k < length l)%nat -> slot_written l (<[k := p]> l) k p.
Proof.
  intros Hk. unfold slot_written. split; [| split].
  - apply list_lookup_insert_eq. exact Hk.
  - intros j Hj. apply list_lookup_insert_ne. congruence.
  - apply length_insert.
Qed.

Lemma insert_index_identity {A : Type} (num : A -> Z) (l : list A) (p : A) :
  1 <= num p ->
  index_identity num l ->
  index_identity num (<[Z.to_nat (num p - 1) := p]> l).
Proof.
  intros Hp Hid i q Hq.
  destruct (decide (i = Z.to_nat (num p - 1))) as [-> | Hne].
  - destruct (decide (Z.to_nat (num p - 1) < length l)%nat) as [Hlt | Hge].
    + rewrite list_lookup_insert_eq in Hq by exact Hlt.
      inversion Hq; subst q. lia.
    + rewrite list_insert_ge in Hq by lia. apply Hid in Hq. exact Hq.
  - rewrite list_lookup_insert_ne in Hq by congruence. apply Hid. exact Hq.
Qed.

Lemma download_update_slot (c : downloadCheckpoint.t)
    (p : downloadPartInfo.t) :
  GoInt.in_int64 (downloadPartInfo.PartNumber p) ->
  1 <= downloadPartInfo.PartNumber p
    <= Z.of_nat (length (downloadCheckpoint.PartsInfo c)) ->
  exists c',
    downloadCheckpoint.UpdatePartsInfo c p = Some c'
    /\ slot_written (downloadCheckpoint.PartsInfo c)
         (downloadCheckpoint.PartsInfo c')
         (Z.to_nat (downloadPartInfo.PartNumber p - 1)) p
    /\ download_same_fields c c'
    /\ (index_identity downloadPartInfo.PartNumber
          (downloadCheckpoint.PartsInfo c) ->
        index_identity downloadPartInfo.PartNumber
          (downloadCheckpoint.PartsInfo c')).
Proof.
  intros Hint Hrange.
  destruct (part_index_in_range _ _ Hint Hrange) as (Hsub & Hchk & Hlt).
  unfold downloadCheckpoint.UpdatePartsInfo. cbv zeta.
  rewrite Hsub, Hchk. eexists. split; [reflexivity |].
  destruct c; simpl in *. split; [| split].
  - apply insert_slot_written. exact Hlt.
  - unfold download_same_fields. simpl. repeat split.
  - apply insert_index_identity. lia.
Qed.

Lemma upload_update_slot (u : uploadCheckpoint.t)
    (p : uploadPartInfo.t) :
  GoInt.in_int64 (uploadPartInfo.PartNumber p) ->
  1 <= uploadPartInfo.PartNumber p
    <= Z.of_nat (length (uploadCheckpoint.PartsInfo u)) ->
  exists u',
    uploadCheckpoint.UpdatePartsInfo u p = Some u'
    /\ slot_written (uploadCheckpoint.PartsInfo u)
         (uploadCheckpoint.PartsInfo u')
         (Z.to_nat (uploadPartInfo.PartNumber p - 1)) p
    /\ upload_same_fields u u'
    /\ (index_identity uploadPartInfo.PartNumber
          (uploadCheckpoint.PartsInfo u) ->
        index_identity uploadPartInfo.PartNumber
          (uploadCheckpoint.PartsInfo u')).
Proof.
  intros Hint Hrange.
  destruct (part_index_in_range _ _ Hint Hrange) as (Hsub & Hchk & Hlt).
  unfold uploadCheckpoint.UpdatePartsInfo. cbv zeta.
  rewrite Hsub, Hchk. eexists. split; [reflexivity |].
  destruct u; simpl in *. split; [| split].
  - apply insert_slot_written. exact Hlt.
  - unfold upload_same_fields. simpl. repeat split.
  - apply insert_index_identity. lia.
Qed.

(** C6.  For a part record whose number lies between 1 and the length of
    the part list (the number being a Go [int]), [UpdatePartsInfo] returns
    normally, stores the record in slot [PartNumber-1], leaves every other
    slot, the length and every other field of the checkpoint as they were,
    and keeps the identity between index [i] and part number [i+1]; for the
    download and for the upload checkpoint. *)
Theorem UpdatePartsInfo_frame :
  (forall (c : downloadCheckpoint.t) (p : downloadPartInfo.t),
      GoInt.in_int64 (downloadPartInfo.PartNumber p) ->
      1 <= downloadPartInfo.PartNumber p
        <= Z.of_nat (length (downloadCheckpoint.PartsInfo c)) ->
      exists c',
        downloadCheckpoint.UpdatePartsInfo c p = Some c'
        /\ slot_written (downloadCheckpoint.PartsInfo c)
             (downloadCheckpoint.PartsInfo c')
             (Z.to_nat (downloadPartInfo.PartNumber p - 1)) p
        /\ download_same_fields c c'
        /\ (index_identity downloadPartInfo.PartNumber
              (downloadCheckpoint.PartsInfo c) ->
            index_identity downloadPartInfo.PartNumber
              (downloadCheckpoint.PartsInfo c')))
  /\ (forall (u : uploadCheckpoint.t) (p : uploadPartInfo.t),
         GoInt.in_int64 (uploadPartInfo.PartNumber p) ->
         1 <= uploadPartInfo.PartNumber p
           <= Z.of_nat (length (uploadCheckpoint.PartsInfo u)) ->
         exists u',
           uploadCheckpoint.UpdatePartsInfo u p = Some u'
           /\ slot_written (uploadCheckpoint.PartsInfo u)
                (uploadCheckpoint.PartsInfo u')
                (Z.to_nat (uploadPartInfo.PartNumber p - 1)) p
           /\ upload_same_fields u u'
           /\ (index_identity uploadPartInfo.PartNumber
                 (uploadCheckpoint.PartsInfo u) ->
               index_identity uploadPartInfo.PartNumber
                 (uploadCheckpoint.PartsInfo u'))).
Proof.
  split.
  - exact download_update_slot.
  - exact upload_update_slot.
Qed.

Lemma UpdatePartsInfo_frame_witness :
  (1 <= downloadPartInfo.PartNumber sample_download_part
     <= Z.of_nat (length (downloadCheckpoint.PartsInfo sample_download))
   /\ exists c',
       downloadCheckpoint.UpdatePartsInfo sample_download sample_download_part
       = Some c'
       /\ slot_written (downloadCheckpoint.PartsInfo sample_download)
            (downloadCheckpoint.PartsInfo c') 1%nat sample_download_part
       /\ download_same_fields sample_download c'
       /\ (index_identity downloadPartInfo.PartNumber
             (downloadCheckpoint.PartsInfo sample_download) ->
           index_identity downloadPartInfo.PartNumber
             (downloadCheckpoint.PartsInfo c')))
  /\ (1 <= uploadPartInfo.PartNumber sample_upload_part
        <= Z.of_nat (length (uploadCheckpoint.PartsInfo sample_upload3))
      /\ exists u',
          uploadCheckpoint.UpdatePartsInfo sample_upload3 sample_upload_part
          = Some u'
          /\ slot_written (uploadCheckpoint.PartsInfo sample_upload3)
               (uploadCheckpoint.PartsInfo u') 1%nat sample_upload_part
          /\ upload_same_fields sample_upload3 u'
          /\ (index_identity uploadPartInfo.PartNumber
                (uploadCheckpoint.PartsInfo sample_upload3) ->
              index_identity uploadPartInfo.PartNumber
                (uploadCheckpoint.PartsInfo u'))).
Proof.
  split; (split; [simpl; lia |]).
  - apply (proj1 UpdatePartsInfo_frame sample_download sample_download_part).
    + unfold GoInt.in_int64, GoInt.min_int64, GoInt.max_int64. simpl. lia.
    + simpl. lia.
  - apply (proj2 UpdatePartsInfo_frame sample_upload3 sample_upload_part).
    + unfold GoInt.in_int64, GoInt.min_int64, GoInt.max_int64. simpl. lia.
    + simpl. lia.
Defined.

(** ** The part manifest of an upload *)

Lemma GetParts_loop_map ps acc :
  uploadCheckpoint.GetParts_loop ps acc = acc ++ (uploaded_part_of <$> ps).
Proof.
  revert acc. induction ps as [| p rest IH]; intros acc; simpl.
  - rewrite app_nil_r. reflexivity.
  - rewrite IH, <- app_assoc. reflexivity.
Qed.

Lemma GetParts_map u :
  uploadCheckpoint.GetParts u
  = uploaded_part_of <$> uploadCheckpoint.PartsInfo u.
Proof.
  unfold uploadCheckpoint.GetParts. apply GetParts_loop_map.
Qed.

(** C10.  [GetParts] returns one entry per part record, in the order of the
    part list, each carrying that record's part number and entity tag,
    whatever the record's completion flag; when index [i] holds part number
    [i+1], the part numbers of the result are strictly ascending. *)
Theorem GetParts_one_entry_per_record (u : uploadCheckpoint.t) :
  length (uploadCheckpoint.GetParts u)
  = length (uploadCheckpoint.PartsInfo u)
  /\ (forall i : nat,
         uploadCheckpoint.GetParts u !! i
         = uploaded_part_of <$> (uploadCheckpoint.PartsInfo u !! i))
  /\ (forall (i : nat) (p : uploadPartInfo.t),
         uploadCheckpoint.PartsInfo u !! i = Some p ->
         uploadPartInfo.IsCompleted p = false ->
         uploadCheckpoint.GetParts u !! i
         = Some (UploadedPartV2.mk (uploadPartInfo.PartNumber p)
                   (uploadPartInfo.ETag p)))
  /\ (index_identity uploadPartInfo.PartNumber (uploadCheckpoint.PartsInfo u)
      -> forall (i j : nat) (a b : UploadedPartV2.t),
        (i < j)%nat ->
        uploadCheckpoint.GetParts u !! i = Some a ->
        uploadCheckpoint.GetParts u !! j = Some b ->
        UploadedPartV2.PartNumber a < UploadedPartV2.PartNumber b).
Proof.
  rewrite GetParts_map. repeat split.
  - apply length_fmap.
  - intros i. apply list_lookup_fmap.
  - intros i p Hp _. rewrite list_lookup_fmap, Hp. reflexivity.
  - intros Hid i j a b Hij Ha Hb.
    rewrite list_lookup_fmap in Ha, Hb.
    destruct (uploadCheckpoint.PartsInfo u !! i) as [p |] eqn:Hp;
      [| discriminate].
    destruct (uploadCheckpoint.PartsInfo u !! j) as [q |] eqn:Hq;
      [| discriminate].
    simpl in Ha, Hb. inversion Ha; inversion Hb; subst a b. simpl.
    rewrite (Hid _ _ Hp), (Hid _ _ Hq). lia.
Qed.

Lemma GetParts_one_entry_per_record_witness :
  uploadCheckpoint.GetParts sample_upload3
  = [UploadedPartV2.mk 1 "e1"; UploadedPartV2.mk 2 EmptyString;
     UploadedPartV2.mk 3 "e3"]
  /\ (forall (i j : nat) (a b : UploadedPartV2.t),
         (i < j)%nat ->
         uploadCheckpoint.GetParts sample_upload3 !! i = Some a ->
         uploadCheckpoint.GetParts sample_upload3 !! j = Some b ->
         UploadedPartV2.PartNumber a < UploadedPartV2.PartNumber b).
Proof.
  split; [reflexivity |].
  apply (proj2 (proj2 (proj2
           (GetParts_one_entry_per_record sample_upload3)))).
  intros i p Hp.
  destruct i as [| [| [| i]]]; simpl in Hp; inversion Hp; subst; simpl; lia.
Defined.

(** ** Persisting a checkpoint *)

Section PersistFacts.

Context {FS GoError Bytes : Type}.
Variable WriteFile : string -> Bytes -> FS -> FS * option GoError.
Variable ErrorString : GoError -> string.
Variable newTosClientError : string -> GoError -> GoError.

Lemma download_WriteToFile_cases
    (Marshal : downloadCheckpoint.t -> Bytes + GoError)
    (c : downloadCheckpoint.t) (fs : FS) :
  write_outcome Marshal WriteFile ErrorString newTosClientError
    (downloadCheckpoint.checkpointPath c) c fs
    (downloadCheckpoint.WriteToFile Marshal WriteFile ErrorString
       newTosClientError c fs).
Proof.
  unfold write_outcome, downloadCheckpoint.WriteToFile.
  destruct (Marshal c) as [buf | e].
  - destruct (WriteFile (downloadCheckpoint.checkpointPath c) buf fs)
      as [fs' [e |]] eqn:Hw; simpl.
    + split; [| split].
      * split; [intros H; discriminate |].
        intros (buf' & Hb & Hw'). inversion Hb; subst buf'.
        rewrite Hw in Hw'. discriminate.
      * split; [| intros _; discriminate].
        intros _. right. exists buf, fs', e. auto.
      * intros e' He'. inversion He'; subst e'.
        right. exists buf, e. rewrite Hw. auto.
    + split; [| split].
      * split; [| reflexivity]. intros _. exists buf. auto.
      * split; [intros H; contradiction H; reflexivity |].
        intros [[e He] | (buf' & fs'' & e & Hb & Hw')]; [discriminate |].
        inversion Hb; subst buf'. rewrite Hw in Hw'. discriminate.
      * intros e' He'. discriminate.
  - simpl. split; [| split].
    + split; [intros H; discriminate |].
      intros (buf & Hb & _). discriminate.
    + split; [| intros _; discriminate]. intros _. left. eauto.
    + intros e' He'. inversion He'; subst e'. left. eauto.
Qed.

Lemma upload_WriteToFile_cases
    (Marshal : uploadCheckpoint.t -> Bytes + GoError)
    (u : uploadCheckpoint.t) (fs : FS) :
  write_outcome Marshal WriteFile ErrorString newTosClientError
    (uploadCheckpoint.checkpointPath u) u fs
    (uploadCheckpoint.WriteToFile Marshal WriteFile ErrorString
       newTosClientError u fs).
Proof.
  unfold write_outcome, uploadCheckpoint.WriteToFile.
  destruct (Marshal u) as [buf | e].
  - destruct (WriteFile (uploadCheckpoint.checkpointPath u) buf fs)
      as [fs' [e |]] eqn:Hw; simpl.
    + split; [| split].
      * split; [intros H; discriminate |].
        intros (buf' & Hb & Hw'). inversion Hb; subst buf'.
        rewrite Hw in Hw'. discriminate.
      * split; [| intros _; discriminate].
        intros _. right. exists buf, fs', e. auto.
      * intros e' He'. inversion He'; subst e'.
        right. exists buf, e. rewrite Hw. auto.
    + split; [| split].
      * split; [| reflexivity]. intros _. exists buf. auto.
      * split; [intros H; contradiction H; reflexivity |].
        intros [[e He] | (buf' & fs'' & e & Hb & Hw')]; [discriminate |].
        inversion Hb; subst buf'. rewrite Hw in Hw'. discriminate.
      * intros e' He'. discriminate.
  - simpl. split; [| split].
    + split; [intros H; discriminate |].
      intros (buf & Hb & _). discriminate.
    + split; [| intros _; discriminate]. intros _. left. eauto.
    + intros e' He'. inversion He'; subst e'. left. eauto.
Qed.

End PersistFacts.

(** C9.  For the download and for the upload checkpoint, [WriteToFile]
    returns nil exactly when [json.Marshal] yields the serialized checkpoint
    and [ioutil.WriteFile] writes those bytes to the checkpoint path without
    error; it returns an error exactly when serialization fails or the write
    fails, and that error is the client error built by [newTosClientError]
    from the failure, so a failed write is always reported. *)
Theorem WriteToFile_reports_failures :
  forall (FS GoError Bytes : Type)
         (WriteFile : string -> Bytes -> FS -> FS * option GoError)
         (ErrorString : GoError -> string)
         (newTosClientError : string -> GoError -> GoError) (fs : FS),
    (forall (Marshal : downloadCheckpoint.t -> Bytes + GoError)
            (c : downloadCheckpoint.t),
        write_outcome Marshal WriteFile ErrorString newTosClientError
          (downloadCheckpoint.checkpointPath c) c fs
          (downloadCheckpoint.WriteToFile Marshal WriteFile ErrorString
             newTosClientError c fs))
    /\ (forall (Marshal : uploadCheckpoint.t -> Bytes + GoError)
               (u : uploadCheckpoint.t),
           write_outcome Marshal WriteFile ErrorString newTosClientError
             (uploadCheckpoint.checkpointPath u) u fs
             (uploadCheckpoint.WriteToFile Marshal WriteFile ErrorString
                newTosClientError u fs)).
Proof.
  intros. split; intros.
  - apply download_WriteToFile_cases.
  - apply upload_WriteToFile_cases.
Qed.

(** ** The backoff sequence *)

Lemma mul64_one base : GoInt.in_int64 base -> GoInt.mul64 base 1 = base.
Proof.
  intros H. unfold GoInt.mul64. rewrite Z.mul_1_r. apply wrap64_id, H.
Qed.

Lemma exponentialBackoff_loop_fill base (m : nat) :
  GoInt.in_int64 base ->
  forall (steps i : nat),
    (m <= steps)%nat ->
    retry.exponentialBackoff_loop steps i
      (replicate i base ++ replicate m 0) base
    = replicate (i + m) base.
Proof.
  intros Hb. induction m as [| m IH]; intros steps i Hsteps.
  - simpl replicate. rewrite app_nil_r, Nat.add_0_r.
    destruct steps; simpl;
      rewrite length_replicate, Nat.ltb_irrefl; reflexivity.
  - destruct steps as [| steps]; [lia |]. simpl.
    rewrite length_app, length_replicate. simpl.
    rewrite length_replicate.
    replace (i <? i + S m)%nat with true
      by (symmetry; apply Nat.ltb_lt; lia).
    rewrite mul64_one by exact Hb.
    rewrite insert_app_r_alt by (rewrite length_replicate; lia).
    rewrite length_replicate, Nat.sub_diag. simpl.
    replace (replicate i base ++ base :: replicate m 0)
      with (replicate (S i) base ++ replicate m 0)
      by (rewrite replicate_S_end, <- app_assoc; reflexivity).
    rewrite IH by lia. f_equal. lia.
Qed.

(** C8.  For [n >= 0] and a base duration (an [int64]), [exponentialBackoff]
    returns a slice of length [n] whose every entry is the base duration: the
    step [base *= 1] leaves the base as it is. *)
Theorem exponentialBackoff_flat (n base : Z) :
  0 <= n ->
  GoInt.in_int64 base ->
  exists backoffs,
    retry.exponentialBackoff n base = Some backoffs
    /\ Z.of_nat (length backoffs) = n
    /\ (forall (i : nat) (d : Z), backoffs !! i = Some d -> d = base)
    /\ backoffs = replicate (Z.to_nat n) base.
Proof.
  intros Hn Hb. exists (replicate (Z.to_nat n) base).
  assert (Hrun : retry.exponentialBackoff n base
                 = Some (replicate (Z.to_nat n) base)).
  { unfold retry.exponentialBackoff, retry.make_durations.
    replace (n <? 0) with false by (symmetry; apply Z.ltb_ge; lia).
    rewrite length_replicate. f_equal.
    apply (exponentialBackoff_loop_fill base (Z.to_nat n) Hb
             (Z.to_nat n) 0%nat). lia. }
  split; [exact Hrun |]. split; [| split].
  - rewrite length_replicate. lia.
  - intros i d Hd. apply lookup_replicate in Hd. destruct Hd as [-> _].
    reflexivity.
  - reflexivity.
Qed.

Lemma exponentialBackoff_flat_witness :
  0 <= 3 /\ GoInt.in_int64 retry.DefaultRetryBackoffBase
  /\ exists backoffs,
      retry.exponentialBackoff 3 retry.DefaultRetryBackoffBase = Some backoffs
      /\ Z.of_nat (length backoffs) = 3
      /\ (forall (i : nat) (d : Z),
             backoffs !! i = Some d -> d = retry.DefaultRetryBackoffBase)
      /\ backoffs = replicate (Z.to_nat 3) retry.DefaultRetryBackoffBase.
Proof.
  split; [lia |]. split; [vm_compute; split; discriminate |].
  apply (exponentialBackoff_flat 3 retry.DefaultRetryBackoffBase).
  - lia.
  - vm_compute. split; discriminate.
Defined.

Example exponentialBackoff_three :
  retry.exponentialBackoff 3 retry.DefaultRetryBackoffBase
  = Some [100000000; 100000000; 100000000].
Proof. reflexivity. Qed.

Example exponentialBackoff_negative_length :
  retry.exponentialBackoff (-1) retry.DefaultRetryBackoffBase = None.
Proof. reflexivity. Qed.

(** ** The retry loop *)

Section RunFacts.

Context {W E : Type}.
Variable Now : W -> Z.
Variable Sleep : Z -> W -> W.
Variable r : retry.retryer.
Variable ctx : option (@retry.Context_ W E).
Variable work : W -> option E * W.
Variable Classify : option E -> retry.retryAction.

Local Abbreviation Run_loop := (retry.Run_loop Now Sleep r ctx work Classify).
Local Abbreviation Run := (retry.Run Now Sleep r ctx work Classify).

Lemma retryAction_eqb_Retry a :
  retry.retryAction_eqb a retry.Retry = true <-> a = retry.Retry.
Proof. destruct a; simpl; split; congruence. Qed.

Lemma worthToRetry_false d w :
  retry.worthToRetry Now ctx d w = false <-> check_fails Now ctx d w.
Proof.
  unfold retry.worthToRetry, check_fails. destruct ctx as [c |].
  - destruct (retry.Err c w) as [e |] eqn:He.
    + split; [| reflexivity]. intros _. exists c. split; [reflexivity |].
      left. rewrite He. discriminate.
    + destruct (retry.Deadline c w) as [dl |] eqn:Hd.
      * rewrite Z.leb_gt. split.
        -- intros Hlt. exists c. split; [reflexivity |]. right.
           exists dl. rewrite Hd. auto.
        -- intros (c' & Hc & [Herr | (dl' & Hdl & Hlt)]).
           ++ inversion Hc; subst c'. rewrite He in Herr. congruence.
           ++ inversion Hc; subst c'. rewrite Hd in Hdl.
              inversion Hdl; subst dl'. exact Hlt.
      * split; [discriminate |].
        intros (c' & Hc & [Herr | (dl' & Hdl & _)]);
          inversion Hc; subst c'.
        -- rewrite He in Herr. congruence.
        -- rewrite Hd in Hdl. discriminate.
  - split; [discriminate |]. intros (c & Hc & _). discriminate.
Qed.

Lemma past_deadline_check_fails d w :
  GoInt.in_int64 (Now w + d) ->
  past_deadline Now ctx d w -> check_fails Now ctx d w.
Proof.
  intros Hrange (c & Hc & H). exists c. split; [exact Hc |].
  destruct H as [H | (dl & Hd & Hlt)]; [left; exact H | right].
  exists dl. split; [exact Hd |].
  unfold GoInt.add64. rewrite wrap64_id by exact Hrange. exact Hlt.
Qed.

Lemma Run_loop_stops fuel i ferr w d :
  (length (retry.backoff r) <= i + fuel)%nat ->
  retry.calcSleep r i = Some d ->
  Classify ferr = retry.Retry ->
  check_fails Now ctx d w ->
  Run_loop fuel i ferr w = Some (ferr, w, []).
Proof.
  intros Hfuel Hd Hcl Hchk.
  assert (Hi : (i < length (retry.backoff r))%nat).
  { apply lookup_lt_Some in Hd. exact Hd. }
  destruct fuel as [| fuel]; [lia |]. simpl.
  apply Nat.ltb_lt in Hi. rewrite Hi, Hcl. simpl. rewrite Hd.
  apply worthToRetry_false in Hchk. rewrite Hchk. reflexivity.
Qed.

(** With enough fuel the loop returns, and each sleep it took had passed
    the check in the state where it was decided. *)
Lemma Run_loop_sleeps_checked fuel :
  forall i ferr w,
    (length (retry.backoff r) <= i + fuel)%nat ->
    exists res w' tr,
      Run_loop fuel i ferr w = Some (res, w', tr)
      /\ forall d w0, In (retry.EvSleep d w0) tr ->
                      ~ check_fails Now ctx d w0.
Proof.
  induction fuel as [| fuel IH]; intros i ferr w Hfuel.
  - simpl. replace (i <? length (retry.backoff r))%nat with false
      by (symmetry; apply Nat.ltb_ge; lia).
    simpl. exists ferr, w, []. split; [reflexivity |]. intros d w0 [].
  - simpl.
    destruct ((i <? length (retry.backoff r))%nat
              && retry.retryAction_eqb (Classify ferr) retry.Retry)%bool
      eqn:Hguard.
    2: { exists ferr, w, []. split; [reflexivity |]. intros d w0 []. }
    apply andb_true_iff in Hguard. destruct Hguard as [Hi _].
    apply Nat.ltb_lt in Hi.
    destruct (lookup_lt_is_Some_2 (retry.backoff r) i Hi) as [d Hd].
    unfold retry.calcSleep. rewrite Hd.
    destruct (retry.worthToRetry Now ctx d w) eqn:Hworth; simpl.
    2: { exists ferr, w, []. split; [reflexivity |]. intros d' w0 []. }
    destruct (work (Sleep d w)) as [ferr' w2].
    destruct (IH (S i) ferr' w2 ltac:(lia)) as (res & w3 & tr & Hrun & Htr).
    rewrite Hrun. exists res, w3, (retry.EvSleep d w :: retry.EvWork ferr' :: tr).
    split; [reflexivity |].
    intros d' w0 [Heq | [Heq | Hin]].
    + inversion Heq; subst d' w0. intros Hf.
      apply worthToRetry_false in Hf. congruence.
    + discriminate.
    + apply Htr. exact Hin.
Qed.

Lemma Run_stops_after_first_call w ferr w0 d :
work w = (ferr, w0) ->
retry.calcSleep r 0 = Some d ->
Classify ferr = retry.Retry ->
check_fails Now ctx d w0 ->
Run w = Some (ferr, w0, [retry.EvWork ferr]).
Proof.
intros Hwork Hd Hcl Hchk. unfold retry.Run. rewrite Hwork.
rewrite (Run_loop_stops _ 0%nat ferr w0 d) by (assumption || lia).
reflexivity.
Qed.

Lemma Run_sleeps_checked w :
  exists res w' tr,
    Run w = Some (res, w', tr)
    /\ forall d w0, In (retry.EvSleep d w0) tr ->
                    ~ check_fails Now ctx d w0.
Proof.
  unfold retry.Run. destruct (work w) as [ferr w0].
  destruct (Run_loop_sleeps_checked (length (retry.backoff r)) 0%nat ferr w0
              ltac:(lia)) as (res & w1 & tr & Hrun & Htr).
  rewrite Hrun. exists res, w1, (retry.EvWork ferr :: tr).
  split; [reflexivity |].
  intros d w' [Heq | Hin]; [discriminate | apply Htr; exact Hin].
Qed.

Hypothesis Hquiet : ctx_quiet ctx.
Hypothesis Hfails : forall w, fst (work w) <> None.
Hypothesis Hretry : forall e, Classify (Some e) = retry.Retry.

Lemma worthToRetry_quiet d w : retry.worthToRetry Now ctx d w = true.
Proof.
  unfold retry.worthToRetry. destruct ctx as [c |]; [| reflexivity].
  destruct (Hquiet w) as [-> ->]. reflexivity.
Qed.

Lemma Run_loop_exhausts n :
  forall i ferr w,
    ferr <> None ->
    (i + n = length (retry.backoff r))%nat ->
    exists res w' tr,
      Run_loop n i ferr w = Some (res, w', tr)
      /\ length (work_errors tr) = n
      /\ last (ferr :: work_errors tr) = Some res
      /\ res <> None
      /\ sleep_times tr = drop i (retry.backoff r).
Proof.
  induction n as [| n IH]; intros i ferr w Hferr Hlen.
  - simpl. replace (i <? length (retry.backoff r))%nat with false
      by (symmetry; apply Nat.ltb_ge; lia).
    simpl. exists ferr, w, []. repeat split; [exact Hferr |].
    rewrite drop_ge by lia. reflexivity.
  - simpl. replace (i <? length (retry.backoff r))%nat with true
      by (symmetry; apply Nat.ltb_lt; lia).
    destruct ferr as [e |]; [| congruence]. rewrite Hretry. simpl.
    destruct (lookup_lt_is_Some_2 (retry.backoff r) i ltac:(lia))
      as [d Hd].
    unfold retry.calcSleep. rewrite Hd, worthToRetry_quiet. simpl.
    pose proof (Hfails (Sleep d w)) as Hf.
    destruct (work (Sleep d w)) as [ferr' w2]. simpl in Hf.
    destruct (IH (S i) ferr' w2 Hf ltac:(lia))
      as (res & w3 & tr & Hrun & Hcnt & Hlast & Hres & Hsl).
    rewrite Hrun.
    exists res, w3, (retry.EvSleep d w :: retry.EvWork ferr' :: tr).
    split; [reflexivity |]. cbn [work_errors sleep_times length].
    split; [| split; [| split]].
    + rewrite Hcnt. reflexivity.
    + rewrite last_cons_cons. exact Hlast.
    + exact Hres.
    + rewrite Hsl. symmetry. apply drop_S. exact Hd.
Qed.

Lemma Run_exhausts w :
  exists res w' tr,
    Run w = Some (res, w', tr)
    /\ length (work_errors tr) = S (length (retry.backoff r))
    /\ last (work_errors tr) = Some res
    /\ res <> None
    /\ sleep_times tr = retry.backoff r.
Proof.
  unfold retry.Run. pose proof (Hfails w) as Hf.
  destruct (work w) as [ferr w0]. simpl in Hf.
  destruct (Run_loop_exhausts (length (retry.backoff r)) 0%nat ferr w0 Hf
              ltac:(lia))
    as (res & w1 & tr & Hrun & Hcnt & Hlast & Hres & Hsl).
  rewrite Hrun. exists res, w1, (retry.EvWork ferr :: tr).
  split; [reflexivity |]. cbn [work_errors sleep_times length].
  rewrite Hcnt, Hsl. repeat split; assumption.
Qed.

End RunFacts.

(** The trace [Run] returns is a record of what it did: replayed from the
    world [Run] was entered in, with [work] and [Sleep] acting on the world,
    it ends in the world [Run] returns. *)
Lemma Run_loop_replays {W E : Type} (Now : W -> Z) (Sleep : Z -> W -> W)
    (r : retry.retryer) (ctx : option (@retry.Context_ W E))
    (work : W -> option E * W) (Classify : option E -> retry.retryAction) :
  forall fuel i ferr w res w' tr,
    retry.Run_loop Now Sleep r ctx work Classify fuel i ferr w
    = Some (res, w', tr) ->
    replays Sleep work w tr w'.
Proof.
  induction fuel as [| fuel IH]; intros i ferr w res w' tr Hrun;
    cbn [retry.Run_loop] in Hrun;
    destruct ((i <? length (retry.backoff r))%nat
              && retry.retryAction_eqb (Classify ferr) retry.Retry)%bool;
    try discriminate;
    try (injection Hrun as _ <- <-; reflexivity).
  destruct (retry.calcSleep r i) as [d |]; [| discriminate].
  destruct (negb (retry.worthToRetry Now ctx d w)).
  { injection Hrun as _ <- <-. reflexivity. }
  cbv zeta in Hrun.
  destruct (work (Sleep d w)) as [ferr' w2] eqn:Hwork.
  destruct (retry.Run_loop Now Sleep r ctx work Classify fuel (S i) ferr' w2)
    as [[[res1 w3] tr1] |] eqn:Hrec; [| discriminate].
  injection Hrun as _ <- <-.
  cbn [replays]. split; [reflexivity |]. rewrite Hwork. cbn [fst snd].
  split; [reflexivity |]. eapply IH. exact Hrec.
Qed.

Lemma Run_replays {W E : Type} (Now : W -> Z) (Sleep : Z -> W -> W)
    (r : retry.retryer) (ctx : option (@retry.Context_ W E))
    (work : W -> option E * W) (Classify : option E -> retry.retryAction) :
  forall w res w' tr,
    retry.Run Now Sleep r ctx work Classify w = Some (res, w', tr) ->
    replays Sleep work w tr w'.
Proof.
  intros w res w' tr Hrun. unfold retry.Run in Hrun.
  destruct (work w) as [ferr w0] eqn:Hwork.
  destruct (retry.Run_loop Now Sleep r ctx work Classify
              (length (retry.backoff r)) 0 ferr w0)
    as [[[res1 w1] tr1] |] eqn:Hloop; [| discriminate].
  injection Hrun as _ <- <-.
  cbn [replays]. rewrite Hwork. cbn [fst snd].
  split; [reflexivity |]. eapply Run_loop_replays. exact Hloop.
Qed.

(** C2.  With a context that is nil or is never cancelled and carries no
    deadline, a [work] that returns a non-nil error on every call and a
    classifier that answers [Retry] to every error, [Run] returns; it has
    called [work] exactly [1 + len(backoff)] times, slept the scheduled
    durations in order between the calls, and its result is the error of the
    last call.  The calls are calls of [work] on the world as the earlier
    calls and sleeps have left it: the trace replays, from the world [Run]
    was entered in, to the world it returns. *)
Theorem Run_attempts_once_plus_backoff :
  forall (W E : Type) (Now : W -> Z) (Sleep : Z -> W -> W)
         (r : retry.retryer) (ctx : option (@retry.Context_ W E))
         (work : W -> option E * W)
         (Classify : option E -> retry.retryAction) (w : W),
    ctx_quiet ctx ->
    (forall w, fst (work w) <> None) ->
    (forall e, Classify (Some e) = retry.Retry) ->
    exists res w' tr,
      retry.Run Now Sleep r ctx work Classify w = Some (res, w', tr)
      /\ length (work_errors tr) = S (length (retry.backoff r))
      /\ last (work_errors tr) = Some res
      /\ res <> None
      /\ sleep_times tr = retry.backoff r
      /\ replays Sleep work w tr w'.
Proof.
  intros W E Now Sleep r ctx work Classify w Hq Hf Hr.
  destruct (Run_exhausts Now Sleep r ctx work Classify Hq Hf Hr w)
    as (res & w' & tr & Hrun & Hcnt & Hlast & Hres & Hsl).
  exists res, w', tr. repeat split; try assumption.
  eapply Run_replays. exact Hrun.
Qed.

Lemma Run_attempts_once_plus_backoff_witness :
  exists res w' tr,
    retry.Run clock_now clock_sleep two_retries None failing_work
      always_retry clock_start = Some (res, w', tr)
    /\ length (work_errors tr) = 3%nat
    /\ last (work_errors tr) = Some res
    /\ res <> None
    /\ sleep_times tr = [100000000; 100000000]
    /\ replays clock_sleep failing_work clock_start tr w'.
Proof.
  apply (Run_attempts_once_plus_backoff Z string clock_now clock_sleep
           two_retries None failing_work always_retry clock_start).
  - exact I.
  - intros w. simpl. discriminate.
  - intros e. reflexivity.
Defined.

(** C3 (as amended).  In every iteration of the loop of [Run], that is
    before every sleep, the check of [worthToRetry] decides: when the context
    is already done, or it has a deadline that the sum of the current time
    and the scheduled sleep exceeds, the loop returns at once with the last
    error, the world untouched and nothing further done (no sleep, no call of
    [work]).  This holds for the sum as the source computes it, in [int64]
    (first part), hence for the exact sum whenever that fits in an [int64] of
    nanoseconds (second part).  [Run] always returns, no sleep recorded in
    its trace was taken in a state where the check failed, and when the check
    fails after the first call of [work], that call is all [Run] has done. *)
Theorem Run_deadline_check :
  forall (W E : Type) (Now : W -> Z) (Sleep : Z -> W -> W)
         (r : retry.retryer) (ctx : option (@retry.Context_ W E))
         (work : W -> option E * W)
         (Classify : option E -> retry.retryAction),
    (forall fuel i ferr w d,
        (length (retry.backoff r) <= i + fuel)%nat ->
        retry.calcSleep r i = Some d ->
        Classify ferr = retry.Retry ->
        check_fails Now ctx d w ->
        retry.Run_loop Now Sleep r ctx work Classify fuel i ferr w
        = Some (ferr, w, []))
    /\ (forall fuel i ferr w d,
           (length (retry.backoff r) <= i + fuel)%nat ->
           retry.calcSleep r i = Some d ->
           Classify ferr = retry.Retry ->
           GoInt.in_int64 (Now w + d) ->
           past_deadline Now ctx d w ->
           retry.Run_loop Now Sleep r ctx work Classify fuel i ferr w
           = Some (ferr, w, []))
    /\ (forall w,
           exists res w' tr,
             retry.Run Now Sleep r ctx work Classify w = Some (res, w', tr)
             /\ forall d w0, In (retry.EvSleep d w0) tr ->
                             ~ check_fails Now ctx d w0)
    /\ (forall w ferr w0 d,
           work w = (ferr, w0) ->
           retry.calcSleep r 0 = Some d ->
           Classify ferr = retry.Retry ->
           check_fails Now ctx d w0 ->
           retry.Run Now Sleep r ctx work Classify w
           = Some (ferr, w0, [retry.EvWork ferr])).
Proof.
  intros W E Now Sleep r ctx work Classify. split; [| split; [| split]].
  - intros fuel i ferr w d. apply Run_loop_stops.
  - intros fuel i ferr w d Hfuel Hd Hcl Hrange Hpast.
    eapply Run_loop_stops; eauto using past_deadline_check_fails.
  - apply Run_sleeps_checked.
  - apply Run_stops_after_first_call.
Qed.

(** A deadline 50 ms away and a scheduled sleep of 100 ms: [Run] returns
    after the first call of [work]. *)
Lemma Run_deadline_check_witness :
  past_deadline clock_now (Some (deadline_ctx (clock_start + 50000000)))
    100000000 (clock_start + 1000000)
  /\ retry.Run_loop clock_now clock_sleep two_retries
       (Some (deadline_ctx (clock_start + 50000000))) failing_work
       always_retry 2 0 (Some "first"%string) (clock_start + 1000000)
     = Some (Some "first"%string, clock_start + 1000000, [])
  /\ retry.Run clock_now clock_sleep two_retries
       (Some (deadline_ctx (clock_start + 50000000))) failing_work
       always_retry clock_start
     = Some (Some "first"%string, clock_start + 1000000,
             [retry.EvWork (Some "first"%string)]).
Proof.
  assert (Hpast : past_deadline clock_now
                    (Some (deadline_ctx (clock_start + 50000000)))
                    100000000 (clock_start + 1000000)).
  { eexists. split; [reflexivity |]. right. eexists.
    split; [reflexivity |]. vm_compute. reflexivity. }
  split; [exact Hpast |]. split.
  - apply (proj1 (proj2 (Run_deadline_check Z string clock_now clock_sleep
                           two_retries
                           (Some (deadline_ctx (clock_start + 50000000)))
                           failing_work always_retry))
             2%nat 0%nat (Some "first"%string) (clock_start + 1000000)
             100000000).
    + simpl. lia.
    + reflexivity.
    + reflexivity.
    + vm_compute. split; discriminate.
    + exact Hpast.
  - vm_compute. reflexivity.
Defined.

(** Two retries of 100 ms, [work] taking 1 ms, no context. *)
Example Run_two_retries :
  retry.Run clock_now clock_sleep two_retries None failing_work always_retry
    clock_start
  = Some (Some "later"%string, 1700000000203000000,
          [retry.EvWork (Some "first"%string);
           retry.EvSleep 100000000 1700000000001000000;
           retry.EvWork (Some "first"%string);
           retry.EvSleep 100000000 1700000000102000000;
           retry.EvWork (Some "later"%string)]).
Proof. vm_compute. reflexivity. Qed.

(** The same with a deadline 150 ms away: the first sleep fits, the second
    would end after the deadline, so [Run] stops after two calls. *)
Example Run_stops_at_deadline :
  retry.Run clock_now clock_sleep two_retries
    (Some (deadline_ctx (clock_start + 150000000))) failing_work
    always_retry clock_start
  = Some (Some "first"%string, 1700000000102000000,
          [retry.EvWork (Some "first"%string);
           retry.EvSleep 100000000 1700000000001000000;
           retry.EvWork (Some "first"%string)]).
Proof. vm_compute. reflexivity. Qed.

(** C3 (as stated) fails where the sleep would end after the last instant
    an [int64] of nanoseconds can name: a scheduled sleep of 9 * 10^18 ns
    (about 285 years) on a clock of 1.7 * 10^18 ns, with a deadline 150 ms
    away and a context that is not yet done.  The exact sum exceeds the
    deadline, the sum the source computes has wrapped below zero, the check
    passes, and [Run] sleeps and calls [work] again. *)
Lemma Run_sleeps_when_sum_wraps :
  past_deadline clock_now (Some (deadline_ctx (clock_start + 150000000)))
    9000000000000000000 (clock_start + 1000000)
  /\ GoInt.add64 (clock_now (clock_start + 1000000)) 9000000000000000000 < 0
  /\ retry.Run clock_now clock_sleep long_wait
       (Some (deadline_ctx (clock_start + 150000000))) failing_work
       always_retry clock_start
     = Some (Some "later"%string, 10700000000002000000,
             [retry.EvWork (Some "first"%string);
              retry.EvSleep 9000000000000000000 1700000000001000000;
              retry.EvWork (Some "later"%string)]).
Proof.
  split; [| split].
  - eexists. split; [reflexivity |]. right. eexists.
    split; [reflexivity |]. vm_compute. reflexivity.
  - vm_compute. reflexivity.
  - vm_compute. reflexivity.
Qed.

(** ** Jitter *)

(** C7 (the code at the failing input).  [calcSleep] returns the base
    duration at index [i] whatever jitter factor was configured: after
    [SetJitter(0.25)] the factor is stored, and the sleep computed for the
    first retry of a 100 ms backoff is exactly 100 ms. *)
Theorem calcSleep_ignores_jitter :
  (forall (r : retry.retryer) (jit : float) (i : nat),
      retry.calcSleep (retry.SetJitter r jit) i = retry.backoff r !! i)
  /\ retry.jitter two_retries = 0.25%float
  /\ retry.calcSleep two_retries 0 = Some 100000000
  /\ retry.calcSleep two_retries 1 = Some 100000000.
Proof.
  split; [| repeat split].
  intros r jit i. unfold retry.calcSleep, retry.SetJitter.
  destruct (PrimFloat.ltb jit 0 || PrimFloat.ltb 1 jit)%bool; reflexivity.
Qed.

(** ** Cancellation *)

Section CancelFacts.

Import canceler.

Variable c0 : canceler.t.
Variable calls : list bool.

Lemma insert_same_flag (ths : list (bool * pc)) tid b p p' :
  ths !! tid = Some (b, p) ->
  fst <$> <[tid := (b, p')]> ths = fst <$> ths.
Proof.
  intros H. rewrite list_fmap_insert. simpl.
  apply list_insert_id. rewrite list_lookup_fmap, H. reflexivity.
Qed.

Lemma others_idle_insert (ths : list (bool * pc)) tid w th :
  tid <> w ->
  idle th ->
  (forall j th', j <> w -> ths !! j = Some th' -> idle th') ->
  forall j th', j <> w -> <[tid := th]> ths !! j = Some th' -> idle th'.
Proof.
  intros Hdiff Hth Hothers j th' Hj Hlook.
  destruct (decide (j = tid)) as [-> | Hjt].
  - destruct (decide (tid < length ths)%nat) as [Hlt | Hge].
    + rewrite list_lookup_insert_eq in Hlook by exact Hlt.
      inversion Hlook; subst th'. exact Hth.
    + rewrite list_insert_ge in Hlook by lia. eauto.
  - rewrite list_lookup_insert_ne in Hlook by congruence. eauto.
Qed.

(** A thread that has not reached the swap, or loses it, moves to another
    idle point and leaves the canceler and the log alone. *)
Lemma idle_move_inv s tid b p p' :
  cancel_inv c0 calls s ->
  threads s !! tid = Some (b, p) ->
  p = AtEntry \/ p = AtCAS ->
  idle (b, p') ->
  cancel_inv c0 calls (move s tid b p' (shared s) []).
Proof.
  intros (Hcalls & Hcl & Hab & Hcase) Hth Hp Hp'.
  unfold cancel_inv, move. simpl. rewrite app_nil_r.
  split; [rewrite (insert_same_flag _ _ _ _ _ Hth); exact Hcalls |].
  split; [exact Hcl |]. split; [exact Hab |].
  destruct Hcase as [(Hlog & Hsh & Hidle) | (Hne & Hz & Hwin)].
  - left. split; [exact Hlog |]. split; [exact Hsh |].
    apply Forall_insert; assumption.
  - right. split; [exact Hne |]. split; [exact Hz |].
    destruct Hwin as (w & bw & pw & es & Hw & Hes & Hlog & Hothers).
    destruct (decide (tid = w)) as [-> | Hdiff].
    + rewrite Hth in Hw. inversion Hw; subst bw pw.
      destruct Hp as [-> | ->]; simpl in Hes; discriminate.
    + exists w, bw, pw, es.
      rewrite list_lookup_insert_ne by exact Hdiff.
      split; [exact Hw |]. split; [exact Hes |]. split; [exact Hlog |].
      apply others_idle_insert; assumption.
Qed.

(** The thread whose swap succeeds becomes the winner. *)
Lemma swap_move_inv s tid b :
  cancel_inv c0 calls s ->
  threads s !! tid = Some (b, AtCAS) ->
  called (shared s) = 0 ->
  cancel_inv c0 calls
    (move s tid b (if b then AtCleaner else AtClose)
       (with_called (shared s) 1) [Swapped]).
Proof.
  intros (Hcalls & Hcl & Hab & Hcase) Hth Hzero.
  destruct Hcase as [(Hlog & Hsh & Hidle) | (Hne & _)]; [| contradiction].
  unfold cancel_inv, move. simpl.
  split; [rewrite (insert_same_flag _ _ _ _ _ Hth); exact Hcalls |].
  split; [exact Hcl |]. split; [exact Hab |].
  right. split; [lia |]. split; [rewrite <- Hsh; exact Hzero |].
  exists tid, b, (if b then AtCleaner else AtClose), [Swapped].
  split; [apply list_lookup_insert_eq, (lookup_lt_Some _ _ _ Hth) |].
  split; [destruct b; reflexivity |].
  split; [rewrite Hlog; reflexivity |].
  intros j th Hj Hlook. rewrite list_lookup_insert_ne in Hlook by congruence.
  rewrite Forall_lookup in Hidle. eapply Hidle. exact Hlook.
Qed.

(** The winner advances, appending [es] to what it has done. *)
Lemma winner_move_inv s tid b p p' c' es es0 :
  cancel_inv c0 calls s ->
  threads s !! tid = Some (b, p) ->
  p = AtCleaner \/ p = AtAborter \/ p = AtClose ->
  winner_log (cleaner c0) (aborter c0) b p = Some es0 ->
  winner_log (cleaner c0) (aborter c0) b p' = Some (es0 ++ es) ->
  called c' = called (shared s) ->
  cleaner c' = cleaner (shared s) ->
  aborter c' = aborter (shared s) ->
  cancel_inv c0 calls (move s tid b p' c' es).
Proof.
  intros (Hcalls & Hcl & Hab & Hcase) Hth Hp Hes0 Hes' Hcalled Hcl' Hab'.
  unfold cancel_inv, move. simpl.
  split; [rewrite (insert_same_flag _ _ _ _ _ Hth); exact Hcalls |].
  split; [congruence |]. split; [congruence |].
  destruct Hcase as [(Hlog & Hsh & Hidle) | (Hne & Hz & Hwin)].
  - exfalso. rewrite Forall_lookup in Hidle. specialize (Hidle _ _ Hth).
    destruct Hp as [-> | [-> | ->]]; exact Hidle.
  - right. split; [congruence |]. split; [exact Hz |].
    destruct Hwin as (w & bw & pw & esw & Hw & Hesw & Hlog & Hothers).
    destruct (decide (tid = w)) as [-> | Hdiff].
    + rewrite Hth in Hw. inversion Hw; subst bw pw.
      rewrite Hes0 in Hesw. inversion Hesw; subst esw.
      exists w, b, p', (es0 ++ es).
      split; [apply list_lookup_insert_eq, (lookup_lt_Some _ _ _ Hth) |].
      split; [exact Hes' |].
      split; [rewrite Hlog, fmap_app; reflexivity |].
      intros j th Hj Hlook.
      rewrite list_lookup_insert_ne in Hlook by congruence. eauto.
    + exfalso. specialize (Hothers _ _ Hdiff Hth).
      destruct Hp as [-> | [-> | ->]]; exact Hothers.
Qed.

Lemma winner_is_abort cl ab b p es :
  p = AtCleaner \/ p = AtAborter ->
  winner_log cl ab b p = Some es -> b = true.
Proof.
  intros [-> | ->]; destruct b; simpl; congruence.
Qed.

Lemma cancel_inv_winner_log s tid b p :
  cancel_inv c0 calls s ->
  threads s !! tid = Some (b, p) ->
  p = AtCleaner \/ p = AtAborter \/ p = AtClose ->
  exists es, winner_log (cleaner c0) (aborter c0) b p = Some es.
Proof.
  intros (_ & _ & _ & Hcase) Hth Hp.
  destruct Hcase as [(_ & _ & Hidle) | (_ & _ & Hwin)].
  - exfalso. rewrite Forall_lookup in Hidle. specialize (Hidle _ _ Hth).
    destruct Hp as [-> | [-> | ->]]; exact Hidle.
  - destruct Hwin as (w & bw & pw & esw & Hw & Hesw & _ & Hothers).
    destruct (decide (tid = w)) as [-> | Hdiff].
    + rewrite Hth in Hw. inversion Hw; subst. eauto.
    + exfalso. specialize (Hothers _ _ Hdiff Hth).
      destruct Hp as [-> | [-> | ->]]; exact Hothers.
Qed.

Lemma step_inv s tid :
  cancel_inv c0 calls s -> cancel_inv c0 calls (step s tid).
Proof.
  intros Hinv. unfold step.
  destruct (threads s !! tid) as [[b p] |] eqn:Hth; [| exact Hinv].
  pose proof Hinv as (_ & Hcl & Hab & _).
  destruct p.
  - (* AtEntry *)
    destruct (cancelHandle (shared s));
      eapply idle_move_inv; eauto; exact I.
  - (* AtCAS *)
    destruct (called (shared s) =? 0) eqn:Hz.
    + apply Z.eqb_eq in Hz. apply swap_move_inv; assumption.
    + eapply idle_move_inv; eauto. exact I.
  - (* AtCleaner *)
    destruct (cancel_inv_winner_log s tid b AtCleaner Hinv Hth
                ltac:(auto)) as [es0 Hes0].
    pose proof (winner_is_abort _ _ _ AtCleaner _ (or_introl eq_refl) Hes0)
      as ->.
    eapply winner_move_inv; eauto.
    simpl in Hes0 |- *. inversion Hes0; subst es0.
    rewrite Hcl. destruct (cleaner c0); reflexivity.
  - (* AtAborter *)
    destruct (cancel_inv_winner_log s tid b AtAborter Hinv Hth
                ltac:(auto)) as [es0 Hes0].
    pose proof (winner_is_abort _ _ _ AtAborter _ (or_intror eq_refl) Hes0)
      as ->.
    eapply winner_move_inv; eauto.
    simpl in Hes0 |- *. inversion Hes0; subst es0.
    rewrite Hab. destruct (cleaner c0), (aborter c0); reflexivity.
  - (* AtClose *)
    destruct (cancel_inv_winner_log s tid b AtClose Hinv Hth
                ltac:(auto)) as [es0 Hes0].
    destruct (cancelHandle (shared s)) as [[|] |].
    + eapply (winner_move_inv s tid b AtClose Panicked (shared s) [] es0);
        eauto.
      rewrite app_nil_r. exact Hes0.
    + eapply (winner_move_inv s tid b AtClose Done (with_closed (shared s))
                [Closed] es0); eauto.
      simpl in Hes0 |- *. inversion Hes0; subst es0.
      f_equal. simpl. rewrite <- app_assoc. reflexivity.
    + eapply (winner_move_inv s tid b AtClose Panicked (shared s) [] es0);
        eauto.
      rewrite app_nil_r. exact Hes0.
  - exact Hinv.
  - exact Hinv.
Qed.

Lemma start_inv : cancel_inv c0 calls (start c0 calls).
Proof.
  unfold cancel_inv, start. simpl.
  split.
  { rewrite <- list_fmap_compose. clear. induction calls as [| b l IH];
      [reflexivity | simpl; f_equal; exact IH]. }
  split; [reflexivity |]. split; [reflexivity |]. left.
  split; [reflexivity |]. split; [reflexivity |].
  apply Forall_fmap, Forall_true. intros b. exact I.
Qed.

Lemma run_inv schedule :
  forall s, cancel_inv c0 calls s -> cancel_inv c0 calls (run schedule s).
Proof.
  unfold run. induction schedule as [| tid rest IH]; intros s Hinv.
  - exact Hinv.
  - simpl. apply IH, step_inv, Hinv.
Qed.

End CancelFacts.

Section CancelConsequences.

Import canceler.

Lemma winner_log_script c tid b p es :
  winner_log (cleaner c) (aborter c) b p = Some es ->
  (pair tid <$> es) `prefix_of` winner_script c tid b.
Proof.
  intros H. unfold winner_script.
  destruct p, b, (cleaner c), (aborter c); simpl in H;
    inversion H; subst es; simpl; eexists; reflexivity.
Qed.

Lemma winner_log_counts cl ab tid b p es :
  winner_log cl ab b p = Some es ->
  let l := (pair tid <$> es) : list (nat * effect) in
  (count_effect Cleaned l <= 1)%nat
  /\ (count_effect Aborted l <= 1)%nat
  /\ (count_effect Swapped l <= 1)%nat
  /\ (forall i j t1 t2,
         l !! i = Some (t1, Cleaned) -> l !! j = Some (t2, Aborted) ->
         (i < j)%nat)
  /\ (forall i t e,
         l !! i = Some (t, e) -> e = Cleaned \/ e = Aborted ->
         t = tid /\ b = true /\ l !! 0%nat = Some (tid, Swapped)).
Proof.
  intros H l. subst l.
  destruct p, b, cl, ab; simpl in H; inversion H; subst es;
    cbv [count_effect fmap list_fmap List.filter snd effect_eqb length];
    (split; [lia |]); (split; [lia |]); (split; [lia |]); split.
  all: try (intros i j t1 t2 Hi Hj;
            destruct i as [| [| [| [| i]]]]; simpl in Hi;
            try discriminate;
            destruct j as [| [| [| [| j]]]]; simpl in Hj;
            try discriminate; lia).
  all: intros i t e Hi He;
    destruct i as [| [| [| [| i]]]]; simpl in Hi; try discriminate;
    inversion Hi; subst; destruct He; try discriminate;
    repeat split; reflexivity.
Qed.

Lemma run_cons tid rest s : run (tid :: rest) s = run rest (step s tid).
Proof. reflexivity. Qed.

(** The next step of thread [tid], which is at point [p]. *)
Ltac next_step Hlt :=
  rewrite run_cons; unfold step, move; cbn [threads shared log];
  rewrite ?list_lookup_insert_eq by (rewrite ?length_insert; exact Hlt);
  rewrite ?list_insert_insert_eq.

(** One call run alone from its entry is the function [Cancel]. *)
Lemma Cancel_is_uninterrupted_run s tid b c' es :
  threads s !! tid = Some (b, AtEntry) ->
  Cancel (shared s) b = Some (c', es) ->
  run [tid; tid; tid; tid; tid] s
  = mkSystem c' (<[tid := (b, Done)]> (threads s))
      (log s ++ (pair tid <$> es)).
Proof.
  intros Hth Hc. pose proof (lookup_lt_Some _ _ _ Hth) as Hlt.
  destruct s as [c ths lg]. cbn [threads shared log] in *.
  unfold Cancel in Hc.
  rewrite run_cons. unfold step, move. cbn [threads shared log].
  rewrite Hth.
  destruct (cancelHandle c) as [closed |] eqn:Hch.
  2: { inversion Hc; subst c' es.
       do 4 next_step Hlt. rewrite !app_nil_r. reflexivity. }
  next_step Hlt.
  destruct (called c =? 0) eqn:Hz.
  2: { inversion Hc; subst c' es.
       do 3 next_step Hlt. rewrite !app_nil_r. reflexivity. }
  destruct closed; [discriminate |]. inversion Hc; subst c' es. clear Hc.
  destruct b; cbn [andb].
  - next_step Hlt. next_step Hlt. next_step Hlt.
    cbn [cancelHandle with_called]. rewrite Hch.
    rewrite ?list_insert_insert_eq. unfold run. cbn [fold_left].
    f_equal. rewrite <- !app_assoc. cbn [cleaner aborter with_called].
    destruct (cleaner c), (aborter c); reflexivity.
  - next_step Hlt. cbn [cancelHandle with_called]. rewrite Hch.
    rewrite ?list_insert_insert_eq.
    do 2 next_step Hlt. unfold run. cbn [fold_left].
    rewrite <- !app_assoc. reflexivity.
Qed.

End CancelConsequences.

Example Cancel_abort_then_again :
  canceler.Cancel sample_canceler true
  = Some (canceler.mk 1 (Some true) true true,
          [canceler.Swapped; canceler.Cleaned; canceler.Aborted;
           canceler.Closed])
  /\ canceler.Cancel (canceler.mk 1 (Some true) true true) true
     = Some (canceler.mk 1 (Some true) true true, []).
Proof. split; reflexivity. Qed.

Example Cancel_without_abort_then_abort :
  canceler.Cancel sample_canceler false
  = Some (canceler.mk 1 (Some true) true true,
          [canceler.Swapped; canceler.Closed])
  /\ canceler.Cancel (canceler.mk 1 (Some true) true true) true
     = Some (canceler.mk 1 (Some true) true true, []).
Proof. split; reflexivity. Qed.

(** C4.  Take any canceler, any calls [Cancel(b)] and any interleaving of
    their steps.  Either no effect has occurred, or the flag was clear at the
    start and the log is an initial part of what one single call, the winner
    of the compare-and-swap, does: swap, then the cleaner, then the aborter
    (both only if its argument is true and the function is non-nil), then the
    close.  So cleaner and aborter each run at most once, the cleaner before
    the aborter, only in a call with [isAbort = true] that won the flag; and
    when the flag is already set, a call, alone or interleaved, changes
    nothing. *)
Theorem Cancel_effects_at_most_once :
  forall (c : canceler.t) (calls : list bool) (schedule : list nat),
    let s := canceler.run schedule (canceler.start c calls) in
    (canceler.log s = []
     \/ exists tid b,
         calls !! tid = Some b /\ canceler.called c = 0
         /\ canceler.log s `prefix_of` winner_script c tid b)
    /\ (count_effect canceler.Cleaned (canceler.log s) <= 1)%nat
    /\ (count_effect canceler.Aborted (canceler.log s) <= 1)%nat
    /\ (count_effect canceler.Swapped (canceler.log s) <= 1)%nat
    /\ (forall i j t1 t2,
           canceler.log s !! i = Some (t1, canceler.Cleaned) ->
           canceler.log s !! j = Some (t2, canceler.Aborted) ->
           (i < j)%nat)
    /\ (forall i tid e,
           canceler.log s !! i = Some (tid, e) ->
           e = canceler.Cleaned \/ e = canceler.Aborted ->
           calls !! tid = Some true
           /\ canceler.log s !! 0%nat = Some (tid, canceler.Swapped))
    /\ (canceler.called c <> 0 ->
        canceler.log s = [] /\ canceler.shared s = c)
    /\ (forall b, canceler.called c <> 0 ->
                  canceler.Cancel c b = Some (c, [])).
Proof.
  intros c calls schedule s.
  pose proof (run_inv c calls schedule _ (start_inv c calls)) as Hinv.
  fold s in Hinv. destruct Hinv as (Hcalls & _ & _ & Hcase).
  assert (Hseq : forall b, canceler.called c <> 0 ->
                           canceler.Cancel c b = Some (c, [])).
  { intros b Hne. unfold canceler.Cancel.
    destruct (canceler.cancelHandle c); [| reflexivity].
    apply Z.eqb_neq in Hne. rewrite Hne. reflexivity. }
  destruct Hcase as [(Hlog & Hsh & _) | (Hne & Hz & Hwin)].
  - rewrite Hlog. split; [left; reflexivity |].
    cbv [count_effect List.filter length].
    repeat (split; [lia || (intros; discriminate) |]).
    split; [intros _; split; [reflexivity | exact Hsh] | exact Hseq].
  - destruct Hwin as (w & bw & pw & es & Hw & Hes & Hlog & _).
    assert (Hcall : calls !! w = Some bw).
    { rewrite <- Hcalls, list_lookup_fmap, Hw. reflexivity. }
    destruct (winner_log_counts _ _ w _ _ _ Hes)
      as (Hc1 & Hc2 & Hc3 & Hord & Honly).
    rewrite Hlog. split.
    { right. exists w, bw. split; [exact Hcall |]. split; [exact Hz |].
      eapply winner_log_script. exact Hes. }
    split; [exact Hc1 |]. split; [exact Hc2 |]. split; [exact Hc3 |].
    split; [exact Hord |]. split.
    { intros i tid e Hi He. destruct (Honly i tid e Hi He) as (-> & -> & H0).
      split; [exact Hcall | exact H0]. }
    split; [intros Hc; contradiction | exact Hseq].
Qed.

Lemma Cancel_effects_at_most_once_witness :
  canceler.log
    (canceler.run sample_schedule
       (canceler.start sample_canceler sample_calls))
  = [(2%nat, canceler.Swapped); (2%nat, canceler.Cleaned);
     (2%nat, canceler.Aborted); (2%nat, canceler.Closed)]
  /\ (canceler.called (canceler.with_called sample_canceler 1) <> 0
      /\ canceler.log
           (canceler.run sample_schedule
              (canceler.start (canceler.with_called sample_canceler 1)
                 sample_calls)) = []
      /\ canceler.shared
           (canceler.run sample_schedule
              (canceler.start (canceler.with_called sample_canceler 1)
                 sample_calls)) = canceler.with_called sample_canceler 1).
Proof.
  split; [reflexivity |].
  assert (Hne : canceler.called (canceler.with_called sample_canceler 1) <> 0)
    by (simpl; lia).
  split; [exact Hne |].
  apply (Cancel_effects_at_most_once
           (canceler.with_called sample_canceler 1) sample_calls
           sample_schedule).
  exact Hne.
Defined.

(** ** Progress reporting *)

Section ProgressFacts.

Import parallelReadCloserWithListener.

Variable total : Z.

Lemma count_succeed_app evs1 evs2 :
  count_succeed (evs1 ++ evs2)
  = (count_succeed evs1 + count_succeed evs2)%nat.
Proof.
  unfold count_succeed. rewrite List.filter_app, length_app. reflexivity.
Qed.

Lemma counted_nonneg base : 0 <= fst base -> 0 <= counted base.
Proof.
  destruct base as [n [| | msg]]; unfold counted; simpl; lia.
Qed.

Lemma counted_sum_nonneg bases :
  Forall (fun base => 0 <= fst base) bases -> 0 <= counted_sum bases.
Proof.
  induction 1 as [| base rest Hb _ IH]; simpl; [lia |].
  pose proof (counted_nonneg base Hb). lia.
Qed.



(** A read that contributes [n > 0] bytes, with the sums in range. *)
Lemma Read_counted n err s :
  (forall msg, err <> ErrOther msg) ->
  0 < n ->
  GoInt.in_int64 (consumed s + n) ->
  GoInt.in_int64 (subtotal s + n) ->
  Read total (n, err) s
  = (mkCounters (consumed s + n)
       (if threshold <=? subtotal s + n then 0 else subtotal s + n),
     (if threshold <=? subtotal s + n
      then [mkStatus DataTransferRW (subtotal s + n) (consumed s + n) total]
      else [])
     ++ (if consumed s + n =? total
         then (if subtotal s + n <? threshold
               then [mkStatus DataTransferRW (subtotal s + n)
                       (consumed s + n) total]
               else [])
              ++ [mkStatus DataTransferSucceed 0 (consumed s + n) total]
         else []),
     (n, err)).
Proof.
  intros Herr Hn Hc Hs. unfold Read.
  replace (n <=? 0) with false by (symmetry; apply Z.leb_gt; lia).
  unfold GoInt.add64. rewrite !wrap64_id by assumption.
  destruct err as [| | msg]; try reflexivity.
  exfalso. eapply Herr. reflexivity.
Qed.

Hypothesis Htotal : GoInt.in_int64 total.


End ProgressFacts.



Example Reads_sample :
  parallelReadCloserWithListener.Reads 9437184 sample_reads fresh_counters
  = (parallelReadCloserWithListener.mkCounters 9437184 0,
     [[];
      [parallelReadCloserWithListener.mkStatus
         parallelReadCloserWithListener.DataTransferFailed 0 0 0];
      [parallelReadCloserWithListener.mkStatus
         parallelReadCloserWithListener.DataTransferRW
         5242880 5242880 9437184];
      [];
      [parallelReadCloserWithListener.mkStatus
         parallelReadCloserWithListener.DataTransferRW
         4194304 9437184 9437184;
       parallelReadCloserWithListener.mkStatus
         parallelReadCloserWithListener.DataTransferSucceed
         0 9437184 9437184]]).
Proof. vm_compute. reflexivity. Qed.

(** A last read below the threshold: the pending 1 MiB is flushed as the
    final RW status, and the sub-total is left as it is. *)
Example Read_final_flush :
  parallelReadCloserWithListener.Read 5242880
    (1048576, parallelReadCloserWithListener.ErrEOF)
    (parallelReadCloserWithListener.mkCounters 4194304 0)
  = (parallelReadCloserWithListener.mkCounters 5242880 1048576,
     [parallelReadCloserWithListener.mkStatus
        parallelReadCloserWithListener.DataTransferRW
        1048576 5242880 5242880;
      parallelReadCloserWithListener.mkStatus
        parallelReadCloserWithListener.DataTransferSucceed
        0 5242880 5242880],
     (1048576, parallelReadCloserWithListener.ErrEOF)).
Proof. vm_compute. reflexivity. Qed.




Lemma WriteToFile_reports_failures_witness :
  downloadCheckpoint.WriteToFile sample_Marshal sample_WriteFile id
    sample_newTosClientError sample_download []
  = ([("/tmp/d.ckpt"%string, "bkt/obj"%string)], None)
  /\ write_outcome sample_Marshal sample_WriteFile id
       sample_newTosClientError
       (downloadCheckpoint.checkpointPath sample_download) sample_download []
       (downloadCheckpoint.WriteToFile sample_Marshal sample_WriteFile id
          sample_newTosClientError sample_download []).
Proof.
  split; [reflexivity |].
  apply (proj1 (WriteToFile_reports_failures (list (string * string)) string
                  string sample_WriteFile id sample_newTosClientError [])).
Defined.

(* ================================================================== *)
(** * Further properties of the code *)
(* ================================================================== *)

(** ** Part slots of a checkpoint *)

Lemma sub64_one (n : Z) :
  GoInt.in_int64 n ->
  GoInt.sub64 n 1 = if n =? GoInt.min_int64 then GoInt.max_int64 else n - 1.
Proof.
  intros Hn. destruct (n =? GoInt.min_int64) eqn:Hmin.
  - apply Z.eqb_eq in Hmin. subst n. vm_compute. reflexivity.
  - apply Z.eqb_neq in Hmin. apply wrap64_id. revert Hn Hmin.
    unfold GoInt.in_int64, GoInt.min_int64, GoInt.max_int64. lia.
Qed.

Lemma slot_check_iff (n : Z) (len : nat) :
  GoInt.in_int64 n ->
  Z.of_nat len <= GoInt.max_int64 ->
  (0 <=? GoInt.sub64 n 1) && (GoInt.sub64 n 1 <? Z.of_nat len) = true
  <-> 1 <= n <= Z.of_nat len.
Proof.
  intros Hn Hlen. rewrite (sub64_one n Hn).
  rewrite andb_true_iff, Z.leb_le, Z.ltb_lt.
  destruct (n =? GoInt.min_int64) eqn:Hmin.
  - apply Z.eqb_eq in Hmin. subst n. revert Hlen.
    unfold GoInt.min_int64, GoInt.max_int64. lia.
  - lia.
Qed.

(** X1.  [UpdatePartsInfo] panics exactly when the part number is outside
    [1 .. len(PartsInfo)], for the download and for the upload checkpoint
    (part numbers being Go [int]s and slice lengths fitting in one); part
    number 0 and negative numbers are among the panics. *)
Theorem UpdatePartsInfo_panics_iff_out_of_range :
  (forall (c : downloadCheckpoint.t) (p : downloadPartInfo.t),
      GoInt.in_int64 (downloadPartInfo.PartNumber p) ->
      slice_length_ok (downloadCheckpoint.PartsInfo c) ->
      (downloadCheckpoint.UpdatePartsInfo c p = None
       <-> ~ (1 <= downloadPartInfo.PartNumber p
                <= Z.of_nat (length (downloadCheckpoint.PartsInfo c)))))
  /\ (forall (u : uploadCheckpoint.t) (p : uploadPartInfo.t),
         GoInt.in_int64 (uploadPartInfo.PartNumber p) ->
         slice_length_ok (uploadCheckpoint.PartsInfo u) ->
         (uploadCheckpoint.UpdatePartsInfo u p = None
          <-> ~ (1 <= uploadPartInfo.PartNumber p
                   <= Z.of_nat (length (uploadCheckpoint.PartsInfo u))))).
Proof.
  split.
  - intros c p Hn Hlen.
    pose proof (slot_check_iff _ _ Hn Hlen) as Hchk.
    unfold downloadCheckpoint.UpdatePartsInfo. cbv zeta.
    destruct ((0 <=? GoInt.sub64 (downloadPartInfo.PartNumber p) 1)
              && (GoInt.sub64 (downloadPartInfo.PartNumber p) 1
                  <? Z.of_nat (length (downloadCheckpoint.PartsInfo c)))).
    + split; [discriminate |]. intros H. exfalso. apply H, Hchk. reflexivity.
    + split; [| reflexivity]. intros _ H. apply Hchk in H. discriminate.
  - intros u p Hn Hlen.
    pose proof (slot_check_iff _ _ Hn Hlen) as Hchk.
    unfold uploadCheckpoint.UpdatePartsInfo. cbv zeta.
    destruct ((0 <=? GoInt.sub64 (uploadPartInfo.PartNumber p) 1)
              && (GoInt.sub64 (uploadPartInfo.PartNumber p) 1
                  <? Z.of_nat (length (uploadCheckpoint.PartsInfo u)))).
    + split; [discriminate |]. intros H. exfalso. apply H, Hchk. reflexivity.
    + split; [| reflexivity]. intros _ H. apply Hchk in H. discriminate.
Qed.

Lemma UpdatePartsInfo_panics_iff_out_of_range_witness :
  downloadCheckpoint.UpdatePartsInfo sample_download
    (downloadPartInfo.mk 0 0 0 0 true) = None
  /\ uploadCheckpoint.UpdatePartsInfo sample_upload3
       (uploadPartInfo.mk None 4 0 0 EmptyString 0 true) = None.
Proof.
  split.
  - apply (proj1 UpdatePartsInfo_panics_iff_out_of_range sample_download
             (downloadPartInfo.mk 0 0 0 0 true)).
    + vm_compute. split; discriminate.
    + vm_compute. discriminate.
    + simpl. lia.
  - apply (proj2 UpdatePartsInfo_panics_iff_out_of_range sample_upload3
             (uploadPartInfo.mk None 4 0 0 EmptyString 0 true)).
    + vm_compute. split; discriminate.
    + vm_compute. discriminate.
    + simpl. lia.
Defined.

Section SlotUpdates.

Context {A : Type}.
Variable num : A -> Z.

Lemma update_slot_length (l l' : list A) (p : A) :
  update_slot num l p = Some l' -> length l' = length l.
Proof.
  unfold update_slot. cbv zeta.
  destruct ((0 <=? GoInt.sub64 (num p) 1)
            && (GoInt.sub64 (num p) 1 <? Z.of_nat (length l)));
    [| discriminate].
  intros H. inversion H. apply length_insert.
Qed.

Lemma sub64_one_inj (a b : Z) :
  GoInt.in_int64 a -> GoInt.in_int64 b ->
  GoInt.sub64 a 1 = GoInt.sub64 b 1 -> a = b.
Proof.
  intros Ha Hb. rewrite (sub64_one a Ha), (sub64_one b Hb).
  destruct (Z.eqb_spec a GoInt.min_int64) as [Ea | Ea];
    destruct (Z.eqb_spec b GoInt.min_int64) as [Eb | Eb];
    revert Ha Hb Ea Eb;
    unfold GoInt.in_int64, GoInt.min_int64, GoInt.max_int64; lia.
Qed.

Lemma update_slot_commute (l : list A) (p q : A) :
  GoInt.in_int64 (num p) -> GoInt.in_int64 (num q) ->
  num p <> num q ->
  update_slot num l p ≫= (fun l1 => update_slot num l1 q)
  = update_slot num l q ≫= (fun l1 => update_slot num l1 p).
Proof.
  intros Hp Hq Hne. unfold update_slot. cbv zeta.
  assert (Hidx : GoInt.sub64 (num p) 1 <> GoInt.sub64 (num q) 1).
  { intros H. apply Hne. apply sub64_one_inj; assumption. }
  destruct ((0 <=? GoInt.sub64 (num p) 1)
            && (GoInt.sub64 (num p) 1 <? Z.of_nat (length l))) eqn:Cp;
    destruct ((0 <=? GoInt.sub64 (num q) 1)
              && (GoInt.sub64 (num q) 1 <? Z.of_nat (length l))) eqn:Cq;
    simpl; rewrite ?length_insert, ?Cp, ?Cq; try reflexivity.
  f_equal. apply andb_true_iff in Cp, Cq.
  destruct Cp as [Cp _], Cq as [Cq _]. apply Z.leb_le in Cp, Cq.
  apply list_insert_insert_ne. lia.
Qed.

Lemma update_slot_overwrite (l : list A) (p q : A) :
  num p = num q ->
  update_slot num l p ≫= (fun l1 => update_slot num l1 q)
  = update_slot num l q.
Proof.
  intros Heq. unfold update_slot. cbv zeta. rewrite Heq.
  destruct ((0 <=? GoInt.sub64 (num q) 1)
            && (GoInt.sub64 (num q) 1 <? Z.of_nat (length l))) eqn:Cq;
    simpl; rewrite ?length_insert, ?Cq; [| reflexivity].
  rewrite list_insert_insert_eq. reflexivity.
Qed.

End SlotUpdates.

Lemma download_UpdatePartsInfo_slot c p :
  downloadCheckpoint.UpdatePartsInfo c p
  = downloadCheckpoint.with_PartsInfo c
      <$> update_slot downloadPartInfo.PartNumber
            (downloadCheckpoint.PartsInfo c) p.
Proof.
  unfold downloadCheckpoint.UpdatePartsInfo, update_slot. cbv zeta.
  destruct ((0 <=? GoInt.sub64 (downloadPartInfo.PartNumber p) 1)
            && (GoInt.sub64 (downloadPartInfo.PartNumber p) 1
                <? Z.of_nat (length (downloadCheckpoint.PartsInfo c))));
    reflexivity.
Qed.

Lemma upload_UpdatePartsInfo_slot u p :
  uploadCheckpoint.UpdatePartsInfo u p
  = uploadCheckpoint.with_PartsInfo u
      <$> update_slot uploadPartInfo.PartNumber
            (uploadCheckpoint.PartsInfo u) p.
Proof.
  unfold uploadCheckpoint.UpdatePartsInfo, update_slot. cbv zeta.
  destruct ((0 <=? GoInt.sub64 (uploadPartInfo.PartNumber p) 1)
            && (GoInt.sub64 (uploadPartInfo.PartNumber p) 1
                <? Z.of_nat (length (uploadCheckpoint.PartsInfo u))));
    reflexivity.
Qed.

Lemma download_two_updates c p q :
  downloadCheckpoint.UpdatePartsInfo c p
    ≫= (fun c1 => downloadCheckpoint.UpdatePartsInfo c1 q)
  = downloadCheckpoint.with_PartsInfo c
      <$> (update_slot downloadPartInfo.PartNumber
             (downloadCheckpoint.PartsInfo c) p
           ≫= fun l1 => update_slot downloadPartInfo.PartNumber l1 q).
Proof.
  rewrite download_UpdatePartsInfo_slot.
  destruct (update_slot downloadPartInfo.PartNumber
              (downloadCheckpoint.PartsInfo c) p) as [l1 |]; [| reflexivity].
  simpl. rewrite download_UpdatePartsInfo_slot. destruct c; reflexivity.
Qed.

Lemma upload_two_updates u p q :
  uploadCheckpoint.UpdatePartsInfo u p
    ≫= (fun u1 => uploadCheckpoint.UpdatePartsInfo u1 q)
  = uploadCheckpoint.with_PartsInfo u
      <$> (update_slot uploadPartInfo.PartNumber
             (uploadCheckpoint.PartsInfo u) p
           ≫= fun l1 => update_slot uploadPartInfo.PartNumber l1 q).
Proof.
  rewrite upload_UpdatePartsInfo_slot.
  destruct (update_slot uploadPartInfo.PartNumber
              (uploadCheckpoint.PartsInfo u) p) as [l1 |]; [| reflexivity].
  simpl. rewrite upload_UpdatePartsInfo_slot. destruct u; reflexivity.
Qed.

(** X2.  Recording two parts with different part numbers gives the same
    checkpoint (or the same panic) in either order, for the download and for
    the upload checkpoint: completion order of parts does not matter. *)
Theorem UpdatePartsInfo_order_irrelevant :
  (forall (c : downloadCheckpoint.t) (p q : downloadPartInfo.t),
      GoInt.in_int64 (downloadPartInfo.PartNumber p) ->
      GoInt.in_int64 (downloadPartInfo.PartNumber q) ->
      downloadPartInfo.PartNumber p <> downloadPartInfo.PartNumber q ->
      downloadCheckpoint.UpdatePartsInfo c p
        ≫= (fun c1 => downloadCheckpoint.UpdatePartsInfo c1 q)
      = downloadCheckpoint.UpdatePartsInfo c q
          ≫= (fun c1 => downloadCheckpoint.UpdatePartsInfo c1 p))
  /\ (forall (u : uploadCheckpoint.t) (p q : uploadPartInfo.t),
         GoInt.in_int64 (uploadPartInfo.PartNumber p) ->
         GoInt.in_int64 (uploadPartInfo.PartNumber q) ->
         uploadPartInfo.PartNumber p <> uploadPartInfo.PartNumber q ->
         uploadCheckpoint.UpdatePartsInfo u p
           ≫= (fun u1 => uploadCheckpoint.UpdatePartsInfo u1 q)
         = uploadCheckpoint.UpdatePartsInfo u q
             ≫= (fun u1 => uploadCheckpoint.UpdatePartsInfo u1 p)).
Proof.
  split.
  - intros c p q Hp Hq Hne. rewrite !download_two_updates.
    f_equal. apply update_slot_commute; assumption.
  - intros u p q Hp Hq Hne. rewrite !upload_two_updates.
    f_equal. apply update_slot_commute; assumption.
Qed.

Lemma UpdatePartsInfo_order_irrelevant_witness :
  downloadCheckpoint.UpdatePartsInfo sample_download sample_download_part
    ≫= (fun c1 => downloadCheckpoint.UpdatePartsInfo c1
                     (downloadPartInfo.mk 3 20971520 26214399 99 true))
  = downloadCheckpoint.UpdatePartsInfo sample_download
      (downloadPartInfo.mk 3 20971520 26214399 99 true)
      ≫= (fun c1 => downloadCheckpoint.UpdatePartsInfo c1
                       sample_download_part).
Proof.
  apply (proj1 UpdatePartsInfo_order_irrelevant sample_download
           sample_download_part
           (downloadPartInfo.mk 3 20971520 26214399 99 true)).
  - vm_compute. split; discriminate.
  - vm_compute. split; discriminate.
  - simpl. lia.
Defined.

(** X3.  Recording a part number a second time replaces the first record:
    the result is that of the second record alone (the last write wins), for
    the download and for the upload checkpoint. *)
Theorem UpdatePartsInfo_last_write_wins :
  (forall (c : downloadCheckpoint.t) (p q : downloadPartInfo.t),
      downloadPartInfo.PartNumber p = downloadPartInfo.PartNumber q ->
      downloadCheckpoint.UpdatePartsInfo c p
        ≫= (fun c1 => downloadCheckpoint.UpdatePartsInfo c1 q)
      = downloadCheckpoint.UpdatePartsInfo c q)
  /\ (forall (u : uploadCheckpoint.t) (p q : uploadPartInfo.t),
         uploadPartInfo.PartNumber p = uploadPartInfo.PartNumber q ->
         uploadCheckpoint.UpdatePartsInfo u p
           ≫= (fun u1 => uploadCheckpoint.UpdatePartsInfo u1 q)
         = uploadCheckpoint.UpdatePartsInfo u q).
Proof.
  split.
  - intros c p q Heq. rewrite download_two_updates.
    rewrite update_slot_overwrite by exact Heq.
    symmetry. apply download_UpdatePartsInfo_slot.
  - intros u p q Heq. rewrite upload_two_updates.
    rewrite update_slot_overwrite by exact Heq.
    symmetry. apply upload_UpdatePartsInfo_slot.
Qed.

Lemma UpdatePartsInfo_last_write_wins_witness :
  uploadCheckpoint.UpdatePartsInfo sample_upload3
    (uploadPartInfo.mk None 2 10485760 10485760 "stale" 1 false)
    ≫= (fun u1 => uploadCheckpoint.UpdatePartsInfo u1 sample_upload_part)
  = uploadCheckpoint.UpdatePartsInfo sample_upload3 sample_upload_part.
Proof.
  apply (proj2 UpdatePartsInfo_last_write_wins sample_upload3
           (uploadPartInfo.mk None 2 10485760 10485760 "stale" 1 false)
           sample_upload_part).
  reflexivity.
Defined.

(** X4.  Recording a part never changes the verdict of [Valid]: the
    checkpoint [UpdatePartsInfo] returns is valid for exactly the inputs the
    old one was valid for (download and upload). *)
Theorem UpdatePartsInfo_keeps_Valid :
  (forall (c c' : downloadCheckpoint.t) (p : downloadPartInfo.t)
          (input : DownloadFileInput.t) (head : HeadObjectV2Output.t),
      downloadCheckpoint.UpdatePartsInfo c p = Some c' ->
      downloadCheckpoint.Valid c' input head
      = downloadCheckpoint.Valid c input head)
  /\ (forall (u u' : uploadCheckpoint.t) (p : uploadPartInfo.t)
             (st : FileStat.t) (bucketName key uploadFile : string),
         uploadCheckpoint.UpdatePartsInfo u p = Some u' ->
         uploadCheckpoint.Valid u' st bucketName key uploadFile
         = uploadCheckpoint.Valid u st bucketName key uploadFile).
Proof.
  split.
  - intros c c' p input head H. rewrite download_UpdatePartsInfo_slot in H.
    destruct (update_slot downloadPartInfo.PartNumber
                (downloadCheckpoint.PartsInfo c) p); [| discriminate].
    inversion H; subst c'. destruct c; reflexivity.
  - intros u u' p st b k f H. rewrite upload_UpdatePartsInfo_slot in H.
    destruct (update_slot uploadPartInfo.PartNumber
                (uploadCheckpoint.PartsInfo u) p); [| discriminate].
    inversion H; subst u'. destruct u; reflexivity.
Qed.

Lemma UpdatePartsInfo_keeps_Valid_witness :
  exists u',
    uploadCheckpoint.UpdatePartsInfo sample_upload3 sample_upload_part
    = Some u'
    /\ uploadCheckpoint.Valid u' sample_stat "bkt" "obj" "/data/a.bin"
       = uploadCheckpoint.Valid sample_upload3 sample_stat "bkt" "obj"
           "/data/a.bin".
Proof.
  eexists. split; [reflexivity |].
  apply (proj2 UpdatePartsInfo_keeps_Valid sample_upload3 _
           sample_upload_part).
  reflexivity.
Defined.

(** X5.  After a part is recorded in an upload checkpoint, [GetParts]
    returns the former manifest with the entry at index [PartNumber-1]
    replaced by the new record's part number and entity tag, and nothing
    else changed. *)
Theorem GetParts_after_UpdatePartsInfo :
  forall (u u' : uploadCheckpoint.t) (p : uploadPartInfo.t),
    GoInt.in_int64 (uploadPartInfo.PartNumber p) ->
    slice_length_ok (uploadCheckpoint.PartsInfo u) ->
    uploadCheckpoint.UpdatePartsInfo u p = Some u' ->
    uploadCheckpoint.GetParts u'
    = <[Z.to_nat (uploadPartInfo.PartNumber p - 1)
        := UploadedPartV2.mk (uploadPartInfo.PartNumber p)
             (uploadPartInfo.ETag p)]> (uploadCheckpoint.GetParts u).
Proof.
  intros u u' p Hn Hlen H.
  assert (Hrange : 1 <= uploadPartInfo.PartNumber p
                   <= Z.of_nat (length (uploadCheckpoint.PartsInfo u))).
  { apply (slot_check_iff _ _ Hn Hlen).
    unfold uploadCheckpoint.UpdatePartsInfo in H. cbv zeta in H.
    destruct ((0 <=? GoInt.sub64 (uploadPartInfo.PartNumber p) 1)
              && (GoInt.sub64 (uploadPartInfo.PartNumber p) 1
                  <? Z.of_nat (length (uploadCheckpoint.PartsInfo u))));
      [reflexivity | discriminate]. }
  destruct (part_index_in_range _ _ Hn Hrange) as (Hsub & Hchk & _).
  unfold uploadCheckpoint.UpdatePartsInfo in H. cbv zeta in H.
  rewrite Hsub, Hchk in H. inversion H; subst u'. clear H.
  rewrite !GetParts_map. destruct u; simpl.
  rewrite list_fmap_insert. reflexivity.
Qed.

Lemma GetParts_after_UpdatePartsInfo_witness :
  exists u',
    uploadCheckpoint.UpdatePartsInfo sample_upload3 sample_upload_part
    = Some u'
    /\ uploadCheckpoint.GetParts u'
       = [UploadedPartV2.mk 1 "e1"; UploadedPartV2.mk 2 "e2";
          UploadedPartV2.mk 3 "e3"].
Proof.
  eexists. split; [reflexivity |].
  rewrite (GetParts_after_UpdatePartsInfo sample_upload3 _
             sample_upload_part).
  - reflexivity.
  - vm_compute. split; discriminate.
  - vm_compute. discriminate.
  - reflexivity.
Defined.

(** ** The part list as a [sort.Interface] *)

Lemma at_index_Some (p : list uploadedPart.t) (i : Z) (a : uploadedPart.t) :
  uploadedParts.at_index p i = Some a
  <-> 0 <= i < Z.of_nat (length p) /\ p !! Z.to_nat i = Some a.
Proof.
  unfold uploadedParts.at_index.
  destruct ((0 <=? i) && (i <? Z.of_nat (length p))) eqn:Hc.
  - apply andb_true_iff in Hc. rewrite Z.leb_le, Z.ltb_lt in Hc.
    split; [intros H; split; assumption | intros [_ H]; exact H].
  - split; [discriminate |]. intros [Hr _].
    apply andb_false_iff in Hc. rewrite Z.leb_gt, Z.ltb_ge in Hc. lia.
Qed.

Lemma at_index_in_range (p : list uploadedPart.t) (i : Z) :
  0 <= i < Z.of_nat (length p) ->
  exists a, uploadedParts.at_index p i = Some a.
Proof.
  intros Hr. destruct (lookup_lt_is_Some_2 p (Z.to_nat i) ltac:(lia))
    as [a Ha].
  exists a. apply at_index_Some. split; assumption.
Qed.

Lemma at_index_None (p : list uploadedPart.t) (i : Z) :
  uploadedParts.at_index p i = None <-> ~ (0 <= i < Z.of_nat (length p)).
Proof.
  split.
  - intros H Hr. destruct (at_index_in_range p i Hr) as [a Ha]. congruence.
  - intros Hr. destruct (uploadedParts.at_index p i) as [a |] eqn:Ha;
      [| reflexivity].
    apply at_index_Some in Ha. tauto.
Qed.

(** X6.  [Less] compares part numbers and is the strict order a sort needs:
    on indices inside the slice it is irreflexive, asymmetric and
    transitive, and two indices are unordered both ways exactly when their
    part numbers are equal; with an index outside the slice it panics. *)
Theorem Less_strict_order (p : list uploadedPart.t) :
  (forall i j, uploadedParts.Less p i j = None
               <-> ~ (0 <= i < uploadedParts.Len p
                      /\ 0 <= j < uploadedParts.Len p))
  /\ (forall i, uploadedParts.Less p i i <> Some true)
  /\ (forall i j, uploadedParts.Less p i j = Some true ->
                  uploadedParts.Less p j i = Some false)
  /\ (forall i j k, uploadedParts.Less p i j = Some true ->
                    uploadedParts.Less p j k = Some true ->
                    uploadedParts.Less p i k = Some true)
  /\ (forall i j a b,
         uploadedParts.at_index p i = Some a ->
         uploadedParts.at_index p j = Some b ->
         (uploadedParts.Less p i j = Some false
          /\ uploadedParts.Less p j i = Some false
          <-> uploadedPart.PartNumber a = uploadedPart.PartNumber b)).
Proof.
  unfold uploadedParts.Less, uploadedParts.Len. repeat split.
  - intros H [Hi Hj].
    destruct (at_index_in_range p i Hi) as [a Ha].
    destruct (at_index_in_range p j Hj) as [b Hb].
    rewrite Ha, Hb in H. discriminate.
  - intros H.
    destruct (uploadedParts.at_index p i) as [a |] eqn:Ha; [| reflexivity].
    destruct (uploadedParts.at_index p j) as [b |] eqn:Hb; [| reflexivity].
    exfalso. apply H. apply at_index_Some in Ha, Hb. tauto.
  - intros i. destruct (uploadedParts.at_index p i) as [a |];
      [| discriminate].
    rewrite Z.ltb_irrefl. discriminate.
  - intros i j.
    destruct (uploadedParts.at_index p i) as [a |]; [| discriminate].
    destruct (uploadedParts.at_index p j) as [b |]; [| discriminate].
    intros H. injection H as Hlt. apply Z.ltb_lt in Hlt. f_equal.
    apply Z.ltb_ge. lia.
  - intros i j k.
    destruct (uploadedParts.at_index p i) as [a |]; [| discriminate].
    destruct (uploadedParts.at_index p j) as [b |]; [| discriminate].
    destruct (uploadedParts.at_index p k) as [c |]; [| discriminate].
    intros H1 H2. injection H1 as Hab. injection H2 as Hbc.
    apply Z.ltb_lt in Hab, Hbc. f_equal. apply Z.ltb_lt. lia.
  - rewrite H, H0. intros [H1 H2]. injection H1 as Hab.
    injection H2 as Hba. apply Z.ltb_ge in Hab, Hba. lia.
  - rewrite H, H0. rewrite H1, Z.ltb_irrefl. reflexivity.
  - rewrite H, H0. rewrite H1, Z.ltb_irrefl. reflexivity.
Qed.

Lemma Less_strict_order_witness :
  uploadedParts.Less sample_parts 1 2 = Some true
  /\ uploadedParts.Less sample_parts 2 1 = Some false
  /\ uploadedParts.Less sample_parts 1 3 = None.
Proof.
  split; [reflexivity |]. split; [| reflexivity].
  apply (proj1 (proj2 (proj2 (Less_strict_order sample_parts))) 1 2).
  reflexivity.
Defined.

(** X7.  [Swap] exchanges the two entries and nothing else: on indices
    inside the slice the result has the same length, is a permutation of the
    slice, holds the old [p[j]] at [i] and the old [p[i]] at [j], keeps every
    other entry, and swapping again restores the slice; with an index
    outside the slice it panics. *)
Theorem Swap_exchanges (p : list uploadedPart.t) (i j : Z) :
  (uploadedParts.Swap p i j = None
   <-> ~ (0 <= i < uploadedParts.Len p /\ 0 <= j < uploadedParts.Len p))
  /\ (forall p',
         uploadedParts.Swap p i j = Some p' ->
         uploadedParts.Len p' = uploadedParts.Len p
         /\ p' ≡ₚ p
         /\ uploadedParts.at_index p' i = uploadedParts.at_index p j
         /\ uploadedParts.at_index p' j = uploadedParts.at_index p i
         /\ (forall k, k <> i -> k <> j ->
                       uploadedParts.at_index p' k
                       = uploadedParts.at_index p k)
         /\ uploadedParts.Swap p' i j = Some p).
Proof.
  unfold uploadedParts.Swap, uploadedParts.Len. split.
  - split.
    + intros H [Hi Hj].
      destruct (at_index_in_range p i Hi) as [a Ha].
      destruct (at_index_in_range p j Hj) as [b Hb].
      rewrite Ha, Hb in H. discriminate.
    + intros H.
      destruct (uploadedParts.at_index p j) as [b |] eqn:Hb; [| reflexivity].
      destruct (uploadedParts.at_index p i) as [a |] eqn:Ha; [| reflexivity].
      exfalso. apply H. apply at_index_Some in Ha, Hb. tauto.
  - intros p'.
    destruct (uploadedParts.at_index p j) as [b |] eqn:Hb; [| discriminate].
    destruct (uploadedParts.at_index p i) as [a |] eqn:Ha; [| discriminate].
    intros H. inversion H; subst p'. clear H.
    pose proof Ha as Ha'. pose proof Hb as Hb'.
    apply at_index_Some in Ha' as [Hi Hai], Hb' as [Hj Hbj].
    assert (Hlen : length (<[Z.to_nat j := a]> (<[Z.to_nat i := b]> p))
                   = length p) by (rewrite !length_insert; reflexivity).
    assert (Hnew_j : <[Z.to_nat j := a]> (<[Z.to_nat i := b]> p)
                       !! Z.to_nat j = Some a).
    { apply list_lookup_insert_eq. rewrite length_insert. lia. }
    assert (Hnew_i : <[Z.to_nat j := a]> (<[Z.to_nat i := b]> p)
                       !! Z.to_nat i = Some b).
    { destruct (decide (Z.to_nat i = Z.to_nat j)) as [Heq | Hne].
      - rewrite Heq in *. rewrite Hnew_j. congruence.
      - rewrite list_lookup_insert_ne by congruence.
        apply list_lookup_insert_eq. lia. }
    split; [rewrite Hlen; reflexivity |].
    split; [apply Permutation_insert_swap; assumption |].
    split; [apply at_index_Some; rewrite Hlen; auto |].
    split; [apply at_index_Some; rewrite Hlen; auto |].
    split.
    + intros k Hki Hkj. unfold uploadedParts.at_index. rewrite Hlen.
      destruct ((0 <=? k) && (k <? Z.of_nat (length p))) eqn:Hk;
        [| reflexivity].
      apply andb_true_iff in Hk. rewrite Z.leb_le, Z.ltb_lt in Hk.
      rewrite !list_lookup_insert_ne by lia. reflexivity.
    + assert (Hj' : uploadedParts.at_index
                      (<[Z.to_nat j := a]> (<[Z.to_nat i := b]> p)) j
                    = Some a)
        by (apply at_index_Some; rewrite Hlen; auto).
      assert (Hi' : uploadedParts.at_index
                      (<[Z.to_nat j := a]> (<[Z.to_nat i := b]> p)) i
                    = Some b)
        by (apply at_index_Some; rewrite Hlen; auto).
      rewrite Hj', Hi'. f_equal.
      apply list_eq. intros k.
      destruct (decide (k = Z.to_nat j)) as [-> | Hkj].
      * rewrite list_lookup_insert_eq by (rewrite !length_insert; lia).
        symmetry. exact Hbj.
      * rewrite list_lookup_insert_ne by congruence.
        destruct (decide (k = Z.to_nat i)) as [-> | Hki].
        -- rewrite list_lookup_insert_eq by (rewrite !length_insert; lia).
           symmetry. exact Hai.
        -- rewrite !list_lookup_insert_ne by congruence. reflexivity.
Qed.

Lemma Swap_exchanges_witness :
  uploadedParts.Swap sample_parts 0 1
  = Some [uploadedPart.mk 1 "e1"; uploadedPart.mk 3 "e3";
          uploadedPart.mk 2 "e2"]
  /\ [uploadedPart.mk 1 "e1"; uploadedPart.mk 3 "e3";
      uploadedPart.mk 2 "e2"] ≡ₚ sample_parts.
Proof.
  split; [reflexivity |].
  apply (proj2 (Swap_exchanges sample_parts 0 1)). reflexivity.
Defined.

(** ** The retry loop, for every context, work and classifier *)

Section RunShape.

Context {W E : Type}.
Variable Now : W -> Z.
Variable Sleep : Z -> W -> W.
Variable r : retry.retryer.
Variable ctx : option (@retry.Context_ W E).
Variable work : W -> option E * W.
Variable Classify : option E -> retry.retryAction.

Local Abbreviation loop := (retry.Run_loop Now Sleep r ctx work Classify).

Ltac stops_here ferr w :=
  exists ferr, w, []; cbn [work_errors sleep_times length];
  rewrite take_0, Nat.add_0_r;
  split; [reflexivity |]; split; [reflexivity |]; split; [reflexivity |];
  split; [lia |]; split; [reflexivity |].

Lemma Run_loop_shape fuel :
  forall i ferr w,
    (length (retry.backoff r) <= i + fuel)%nat ->
    (i <= length (retry.backoff r))%nat ->
    exists res w' tr,
      loop fuel i ferr w = Some (res, w', tr)
      /\ length (work_errors tr) = length (sleep_times tr)
      /\ sleep_times tr
         = take (length (sleep_times tr)) (drop i (retry.backoff r))
      /\ (i + length (sleep_times tr) <= length (retry.backoff r))%nat
      /\ last (ferr :: work_errors tr) = Some res
      /\ ((i + length (sleep_times tr) = length (retry.backoff r))%nat
          \/ Classify res <> retry.Retry
          \/ exists d,
              retry.calcSleep r (i + length (sleep_times tr)) = Some d
              /\ check_fails Now ctx d w').
Proof.
  induction fuel as [| fuel IH]; intros i ferr w Hfuel Hile.
  - simpl.
    destruct (i <? length (retry.backoff r))%nat eqn:Hi;
      [apply Nat.ltb_lt in Hi; lia |].
    apply Nat.ltb_ge in Hi. simpl. stops_here ferr w. left. lia.
  - simpl.
    destruct (i <? length (retry.backoff r))%nat eqn:Hi; simpl.
    2: { apply Nat.ltb_ge in Hi. stops_here ferr w. left. lia. }
    apply Nat.ltb_lt in Hi.
    destruct (retry.retryAction_eqb (Classify ferr) retry.Retry) eqn:Hcl.
    2: { stops_here ferr w. right. left. intros Heq.
         rewrite Heq in Hcl. discriminate. }
    destruct (lookup_lt_is_Some_2 (retry.backoff r) i Hi) as [d Hd].
    unfold retry.calcSleep. rewrite Hd.
    destruct (retry.worthToRetry Now ctx d w) eqn:Hworth; simpl.
    2: { stops_here ferr w. right. right. exists d.
         split; [exact Hd |]. apply worthToRetry_false. exact Hworth. }
    destruct (work (Sleep d w)) as [ferr' w2].
    destruct (IH (S i) ferr' w2 ltac:(lia) ltac:(lia))
      as (res & w3 & tr & Hrun & Hcnt & Hpre & Hle & Hlast & Hwhy).
    rewrite Hrun.
    exists res, w3, (retry.EvSleep d w :: retry.EvWork ferr' :: tr).
    split; [reflexivity |]. cbn [work_errors sleep_times length].
    split; [rewrite Hcnt; reflexivity |].
    split.
    { rewrite (drop_S _ _ _ Hd). cbn [take]. f_equal. exact Hpre. }
    split; [lia |].
    split; [rewrite last_cons_cons; exact Hlast |].
    replace (i + S (length (sleep_times tr)))%nat
      with (S i + length (sleep_times tr))%nat by lia.
    exact Hwhy.
Qed.

Lemma Run_shape w :
  exists res w' tr,
    retry.Run Now Sleep r ctx work Classify w = Some (res, w', tr)
    /\ length (work_errors tr) = S (length (sleep_times tr))
    /\ sleep_times tr = take (length (sleep_times tr)) (retry.backoff r)
    /\ (length (sleep_times tr) <= length (retry.backoff r))%nat
    /\ last (work_errors tr) = Some res
    /\ (length (sleep_times tr) = length (retry.backoff r)
        \/ Classify res <> retry.Retry
        \/ exists d,
            retry.calcSleep r (length (sleep_times tr)) = Some d
            /\ check_fails Now ctx d w').
Proof.
  unfold retry.Run. destruct (work w) as [ferr w0].
  destruct (Run_loop_shape (length (retry.backoff r)) 0%nat ferr w0
              ltac:(lia) ltac:(lia))
    as (res & w1 & tr & Hrun & Hcnt & Hpre & Hle & Hlast & Hwhy).
  rewrite Hrun. exists res, w1, (retry.EvWork ferr :: tr).
  split; [reflexivity |]. cbn [work_errors sleep_times length].
  rewrite drop_0 in Hpre. simpl in Hle, Hwhy.
  repeat split; try assumption. rewrite Hcnt. reflexivity.
Qed.

End RunShape.

(** X8.  Whatever the context, the work function and the classifier, [Run]
    returns: it has called [work] once more than it has slept, it has slept
    at most [len(backoff)] times and exactly the first entries of the
    backoff sequence in order, and its result is the error (or nil) of the
    last call of [work].  Each call of [work] in the trace is a call on the
    world as the earlier calls and sleeps have left it, and the world [Run]
    returns is the one the last of them leaves. *)
Theorem Run_attempts_bounded :
  forall (W E : Type) (Now : W -> Z) (Sleep : Z -> W -> W)
         (r : retry.retryer) (ctx : option (@retry.Context_ W E))
         (work : W -> option E * W)
         (Classify : option E -> retry.retryAction) (w : W),
  exists res w' tr,
    retry.Run Now Sleep r ctx work Classify w = Some (res, w', tr)
    /\ length (work_errors tr) = S (length (sleep_times tr))
    /\ (length (work_errors tr) <= S (length (retry.backoff r)))%nat
    /\ sleep_times tr = take (length (sleep_times tr)) (retry.backoff r)
    /\ last (work_errors tr) = Some res
    /\ replays Sleep work w tr w'.
Proof.
  intros W E Now Sleep r ctx work Classify w.
  destruct (Run_shape Now Sleep r ctx work Classify w)
    as (res & w' & tr & Hrun & Hcnt & Hpre & Hle & Hlast & _).
  exists res, w', tr. repeat split; try assumption; [lia |].
  eapply Run_replays. exact Hrun.
Qed.

(** X9.  [Run] gives up before the backoff sequence is used up only for one
    of two reasons: the classifier does not answer [Retry] to the error it
    returns, or the deadline check fails, in the world [Run] leaves, for the
    next scheduled sleep.  In particular a first result the classifier does
    not want retried ends [Run] after a single call of [work]. *)
Theorem Run_stops_early_only_for_cause :
  forall (W E : Type) (Now : W -> Z) (Sleep : Z -> W -> W)
         (r : retry.retryer) (ctx : option (@retry.Context_ W E))
         (work : W -> option E * W)
         (Classify : option E -> retry.retryAction) (w : W),
    (exists res w' tr,
        retry.Run Now Sleep r ctx work Classify w = Some (res, w', tr)
        /\ (length (sleep_times tr) = length (retry.backoff r)
            \/ Classify res <> retry.Retry
            \/ exists d,
                retry.calcSleep r (length (sleep_times tr)) = Some d
                /\ check_fails Now ctx d w'))
    /\ (Classify (fst (work w)) <> retry.Retry ->
        retry.Run Now Sleep r ctx work Classify w
        = Some (fst (work w), snd (work w), [retry.EvWork (fst (work w))])).
Proof.
  intros W E Now Sleep r ctx work Classify w. split.
  - destruct (Run_shape Now Sleep r ctx work Classify w)
      as (res & w' & tr & Hrun & _ & _ & _ & _ & Hwhy).
    exists res, w', tr. split; assumption.
  - intros Hcl. unfold retry.Run. destruct (work w) as [ferr w0].
    simpl in *.
    assert (Hno : retry.retryAction_eqb (Classify ferr) retry.Retry = false).
    { destruct (Classify ferr); [reflexivity | congruence]. }
    destruct (length (retry.backoff r)); simpl; rewrite Hno, andb_false_r;
      reflexivity.
Qed.

(** A classifier that retries errors and accepts success. *)
Lemma Run_stops_early_only_for_cause_witness :
  retry.Run clock_now clock_sleep two_retries None
    (fun w => (None, w + 1000000))
    (fun e : option string =>
       match e with Some _ => retry.Retry | None => retry.NoRetry end)
    clock_start
  = Some (None, clock_start + 1000000, [retry.EvWork None]).
Proof.
  apply (proj2 (Run_stops_early_only_for_cause Z string clock_now
                  clock_sleep two_retries None
                  (fun w => (None, w + 1000000))
                  (fun e : option string =>
                     match e with
                     | Some _ => retry.Retry
                     | None => retry.NoRetry
                     end)
                  clock_start)).
  simpl. discriminate.
Defined.

(** ** Cancellation: calls in sequence, and calls that have all returned *)

Lemma Cancel_flag_set c b :
  canceler.called c <> 0 -> canceler.Cancel c b = Some (c, []).
Proof.
  intros Hne. unfold canceler.Cancel.
  destruct (canceler.cancelHandle c); [| reflexivity].
  apply Z.eqb_neq in Hne. rewrite Hne. reflexivity.
Qed.

Lemma Cancel_all_flag_set calls :
  forall c, canceler.called c <> 0 -> Cancel_all c calls = Some (c, []).
Proof.
  induction calls as [| b rest IH]; intros c Hne; [reflexivity |].
  simpl. rewrite (Cancel_flag_set c b Hne), (IH c Hne). reflexivity.
Qed.

Lemma Cancel_all_nil_handle calls :
  forall c, canceler.cancelHandle c = None -> Cancel_all c calls = Some (c, []).
Proof.
  induction calls as [| b rest IH]; intros c Hnil; [reflexivity |].
  simpl. unfold canceler.Cancel. rewrite Hnil, (IH c Hnil). reflexivity.
Qed.

(** X10.  For calls of [Cancel] made one after the other on a canceler whose
    flag is clear and whose channel is open, the first call decides
    everything: the effects of the whole sequence are those of the first
    call (swap, cleaner and aborter only if its argument is true, close), the
    flag ends set and the channel closed, and nothing panics.  So after a
    first [Cancel(false)] a later [Cancel(true)] runs neither the cleaner nor
    the aborter.  A sequence panics exactly when it is non-empty and starts
    with the flag clear on an already closed channel. *)
Theorem Cancel_first_call_decides :
  (forall (c : canceler.t) (b : bool) (rest : list bool),
      canceler.called c = 0 ->
      canceler.cancelHandle c = Some false ->
      Cancel_all c (b :: rest)
      = Some (canceler.mk 1 (Some true) (canceler.cleaner c)
                (canceler.aborter c),
              canceler.Swapped
                :: (if b && canceler.cleaner c then [canceler.Cleaned]
                    else [])
                ++ (if b && canceler.aborter c then [canceler.Aborted]
                    else [])
                ++ [canceler.Closed]))
  /\ (forall (c : canceler.t) (calls : list bool),
         Cancel_all c calls = None
         <-> calls <> [] /\ canceler.called c = 0
             /\ canceler.cancelHandle c = Some true).
Proof.
  split.
  - intros c b rest Hz Hopen. simpl. unfold canceler.Cancel.
    rewrite Hopen, Hz. simpl.
    rewrite Cancel_all_flag_set by (simpl; lia).
    rewrite app_nil_r. reflexivity.
  - intros c calls. destruct calls as [| b rest].
    { simpl. split; [discriminate | intros [H _]; congruence]. }
    simpl.
    destruct (canceler.cancelHandle c) as [[|] |] eqn:Hch.
    + destruct (Z.eq_dec (canceler.called c) 0) as [Hz | Hnz].
      * unfold canceler.Cancel. rewrite Hch, Hz. simpl.
        split; [intros _; repeat split; congruence | reflexivity].
      * rewrite (Cancel_flag_set c b Hnz), (Cancel_all_flag_set rest c Hnz).
        split; [discriminate | intros (_ & H & _); contradiction].
    + destruct (Z.eq_dec (canceler.called c) 0) as [Hz | Hnz].
      * unfold canceler.Cancel. rewrite Hch, Hz. simpl.
        rewrite Cancel_all_flag_set by (simpl; lia).
        split; [discriminate | intros (_ & _ & H); discriminate].
      * rewrite (Cancel_flag_set c b Hnz), (Cancel_all_flag_set rest c Hnz).
        split; [discriminate | intros (_ & H & _); contradiction].
    + unfold canceler.Cancel. rewrite Hch.
      rewrite (Cancel_all_nil_handle rest c Hch).
      split; [discriminate | intros (_ & _ & H); discriminate].
Qed.

Lemma Cancel_first_call_decides_witness :
  Cancel_all sample_canceler [false; true; true]
  = Some (canceler.mk 1 (Some true) true true,
          [canceler.Swapped; canceler.Closed]).
Proof.
  apply (proj1 Cancel_first_call_decides sample_canceler false [true; true]);
    reflexivity.
Defined.

Section FreshCanceler.

Import canceler.

Variable c0 : canceler.t.
Variable calls : list bool.
Hypothesis Hopen : cancelHandle c0 = Some false.

Lemma start_fresh_inv : fresh_inv c0 (start c0 calls).
Proof.
  unfold fresh_inv, start. simpl. split; [| split; [| split]].
  - intros _. split; [reflexivity |].
    apply Forall_fmap, Forall_true. intros b. left. reflexivity.
  - apply Forall_fmap, Forall_true. intros b. simpl. discriminate.
  - intros j b p Hj Hsec. rewrite list_lookup_fmap in Hj.
    destruct (calls !! j); simpl in Hj; [| discriminate].
    inversion Hj; subst. destruct Hsec as [H | [H | H]]; discriminate.
  - rewrite Hopen. discriminate.
Qed.

(** A thread in the section is the winner, and every other thread is
    outside of it. *)
Lemma section_is_winner s tid b p :
  cancel_inv c0 calls s ->
  threads s !! tid = Some (b, p) ->
  in_section p ->
  called (shared s) <> 0
  /\ forall j b' p', j <> tid -> threads s !! j = Some (b', p') ->
                     ~ in_section p'.
Proof.
  intros (_ & _ & _ & Hcase) Hth Hsec.
  destruct Hcase as [(_ & _ & Hidle) | (Hne & _ & Hwin)].
  - exfalso. rewrite Forall_lookup in Hidle. specialize (Hidle _ _ Hth).
    destruct Hsec as [-> | [-> | ->]]; exact Hidle.
  - split; [exact Hne |].
    destruct Hwin as (w & bw & pw & es & Hw & _ & _ & Hothers).
    destruct (decide (tid = w)) as [-> | Hdiff].
    + intros j b' p' Hj Hlook Hsec'. specialize (Hothers _ _ Hj Hlook).
      destruct Hsec' as [-> | [-> | ->]]; exact Hothers.
    + exfalso. specialize (Hothers _ _ Hdiff Hth).
      destruct Hsec as [-> | [-> | ->]]; exact Hothers.
Qed.

Lemma lookup_moved (ths : list (bool * pc)) tid th j b p :
  <[tid := th]> ths !! j = Some (b, p) ->
  (j = tid /\ th = (b, p)) \/ (j <> tid /\ ths !! j = Some (b, p)).
Proof.
  intros H. destruct (decide (j = tid)) as [-> | Hne].
  - destruct (decide (tid < length ths)%nat) as [Hlt | Hge].
    + rewrite list_lookup_insert_eq in H by exact Hlt. left. split; congruence.
    + rewrite list_insert_ge in H by lia.
      apply lookup_lt_Some in H. lia.
  - rewrite list_lookup_insert_ne in H by congruence. right. split; assumption.
Qed.

Lemma step_fresh_inv s tid :
  cancel_inv c0 calls s -> fresh_inv c0 s -> fresh_inv c0 (step s tid).
Proof.
  intros Hinv (Hwait & Hpanic & Hsec & Hnil). unfold step. cbv zeta.
  destruct (threads s !! tid) as [[b p] |] eqn:Hth;
    [| exact (conj Hwait (conj Hpanic (conj Hsec Hnil)))].
  destruct p.
  - (* AtEntry: the channel is not nil *)
    destruct (cancelHandle (shared s)) as [closed |] eqn:Hch;
      [| congruence].
    unfold fresh_inv, move. simpl.
    split; [| split; [| split]].
    + intros Hz. destruct (Hwait Hz) as [Hsh Hall]. split; [exact Hsh |].
      apply Forall_insert; [exact Hall | right; reflexivity].
    + apply Forall_insert; [exact Hpanic | simpl; discriminate].
    + intros j b' p' Hj Hs. apply lookup_moved in Hj as [[-> Heq] | [_ Hj]].
      * inversion Heq; subst. destruct Hs as [H | [H | H]]; discriminate.
      * rewrite Hch. eapply Hsec; eassumption.
    + rewrite Hch. discriminate.
  - (* AtCAS *)
    destruct (called (shared s) =? 0) eqn:Hz.
    + apply Z.eqb_eq in Hz. destruct (Hwait Hz) as [Hsh Hall].
      unfold fresh_inv, move. simpl.
      split; [intros H; discriminate |]. split; [| split].
      * apply Forall_insert; [exact Hpanic |]. destruct b; simpl; discriminate.
      * intros _ _ _ _ _. rewrite Hsh. exact Hopen.
      * rewrite Hsh, Hopen. discriminate.
    + apply Z.eqb_neq in Hz. unfold fresh_inv, move. simpl.
      split; [intros H; contradiction |].
      split; [| split].
      * apply Forall_insert; [exact Hpanic | simpl; discriminate].
      * intros j b' p' Hj Hs. apply lookup_moved in Hj as [[-> Heq] | [_ Hj]].
        -- inversion Heq; subst. destruct Hs as [H | [H | H]]; discriminate.
        -- eapply Hsec; eassumption.
      * exact Hnil.
  - (* AtCleaner *)
    destruct (section_is_winner s tid b AtCleaner Hinv Hth ltac:(left; reflexivity))
      as [Hne _].
    unfold fresh_inv, move. simpl. split; [intros H; contradiction |].
    split; [| split].
    + apply Forall_insert; [exact Hpanic | simpl; discriminate].
    + intros _ _ _ _ _. eapply Hsec; [exact Hth | left; reflexivity].
    + exact Hnil.
  - (* AtAborter *)
    destruct (section_is_winner s tid b AtAborter Hinv Hth
                ltac:(right; left; reflexivity)) as [Hne _].
    unfold fresh_inv, move. simpl. split; [intros H; contradiction |].
    split; [| split].
    + apply Forall_insert; [exact Hpanic | simpl; discriminate].
    + intros _ _ _ _ _. eapply Hsec; [exact Hth | right; left; reflexivity].
    + exact Hnil.
  - (* AtClose: the channel is still open *)
    destruct (section_is_winner s tid b AtClose Hinv Hth
                ltac:(right; right; reflexivity)) as [Hne Hothers].
    rewrite (Hsec _ _ _ Hth ltac:(right; right; reflexivity)).
    unfold fresh_inv, move. simpl. split; [intros H; contradiction |].
    split; [| split].
    + apply Forall_insert; [exact Hpanic | simpl; discriminate].
    + intros j b' p' Hj Hs. exfalso.
      apply lookup_moved in Hj as [[-> Heq] | [Hjt Hj]].
      * inversion Heq; subst. destruct Hs as [H | [H | H]]; discriminate.
      * eapply Hothers; eassumption.
    + discriminate.
  - exact (conj Hwait (conj Hpanic (conj Hsec Hnil))).
  - exact (conj Hwait (conj Hpanic (conj Hsec Hnil))).
Qed.

Lemma run_fresh_inv schedule :
  forall s,
    cancel_inv c0 calls s -> fresh_inv c0 s ->
    cancel_inv c0 calls (run schedule s) /\ fresh_inv c0 (run schedule s).
Proof.
  unfold run. induction schedule as [| tid rest IH]; intros s Hinv Hfresh.
  - split; assumption.
  - simpl. apply IH; [apply step_inv | apply step_fresh_inv]; assumption.
Qed.

End FreshCanceler.

(** X11.  Start any calls of [Cancel] on a canceler with a clear flag and an
    open channel and interleave their steps in any way.  No call ever panics
    (the channel is closed at most once); and once every call has returned,
    the effects are exactly those of one of the calls, complete and in
    order: the swap, the cleaner and the aborter if that call's argument is
    true, and the close.  Cleanup and abort have then happened exactly once
    if that call asked for them. *)
Theorem Cancel_complete_when_all_returned :
  forall (c : canceler.t) (calls : list bool) (schedule : list nat),
    canceler.called c = 0 ->
    canceler.cancelHandle c = Some false ->
    let s := canceler.run schedule (canceler.start c calls) in
    Forall (fun th => snd th <> canceler.Panicked) (canceler.threads s)
    /\ (calls <> [] ->
        Forall (fun th => snd th = canceler.Done) (canceler.threads s) ->
        exists tid b,
          calls !! tid = Some b
          /\ canceler.log s = winner_script c tid b).
Proof.
  intros c calls schedule Hclear Hopen s.
  destruct (run_fresh_inv c calls Hopen schedule _
              (start_inv c calls) (start_fresh_inv c calls Hopen))
    as [Hinv Hfresh].
  fold s in Hinv, Hfresh.
  destruct Hfresh as (Hwait & Hpanic & _ & _).
  split; [exact Hpanic |].
  intros Hcalls Hdone.
  destruct Hinv as (Hfst & _ & _ & Hcase).
  destruct Hcase as [(Hlog & Hsh & _) | (_ & _ & Hwin)].
  - exfalso. destruct (Hwait ltac:(rewrite Hsh; exact Hclear)) as [_ Hall].
    destruct (canceler.threads s) as [| th ths] eqn:Hths.
    + simpl in Hfst. congruence.
    + apply Forall_cons in Hall as [[H | H] _];
        apply Forall_cons in Hdone as [Hd _]; congruence.
  - destruct Hwin as (w & bw & pw & es & Hw & Hes & Hlog & _).
    rewrite Forall_lookup in Hdone. pose proof (Hdone _ _ Hw) as Hp.
    simpl in Hp. subst pw.
    exists w, bw. split.
    + rewrite <- Hfst, list_lookup_fmap, Hw. reflexivity.
    + rewrite Hlog. simpl in Hes. inversion Hes. reflexivity.
Qed.

Lemma Cancel_complete_when_all_returned_witness :
  exists tid b,
    sample_calls !! tid = Some b
    /\ canceler.log
         (canceler.run (sample_schedule ++ [1; 1; 0]%nat)
            (canceler.start sample_canceler sample_calls))
       = winner_script sample_canceler tid b.
Proof.
  apply (proj2 (Cancel_complete_when_all_returned sample_canceler
                  sample_calls (sample_schedule ++ [1; 1; 0]%nat)
                  eq_refl eq_refl)).
  - discriminate.
  - vm_compute. repeat constructor.
Defined.

(** ** Progress reporting: what the statuses add up to *)

Section ProgressAccounting.

Import parallelReadCloserWithListener.

Variable total : Z.

Lemma rw_bytes_app evs1 evs2 :
  rw_bytes (evs1 ++ evs2) = rw_bytes evs1 + rw_bytes evs2.
Proof.
  induction evs1 as [| st rest IH]; simpl; [reflexivity |].
  destruct (Type_ st); rewrite IH; lia.
Qed.

Lemma Read_uncounted_quiet base s :
  0 <= fst base ->
  counted base = 0 ->
  exists evs,
    Read total base s = (s, evs, base)
    /\ count_succeed evs = 0%nat /\ rw_bytes evs = 0.
Proof.
  destruct base as [n err]. unfold counted. simpl. intros Hn Hc.
  destruct err as [| | msg]; simpl.
  - subst n. simpl. eexists; repeat split.
  - subst n. simpl. eexists; repeat split.
  - eexists; repeat split.
Qed.


Lemma counted_positive n err :
  0 <= n -> counted (n, err) <> 0 ->
  (forall msg, err <> ErrOther msg) /\ 0 < n /\ counted (n, err) = n.
Proof.
  unfold counted. simpl. intros Hn Hc.
  destruct err as [| | msg]; repeat split; try discriminate; lia.
Qed.

Hypothesis Htotal : GoInt.in_int64 total.


(** Once the cumulative count has reached or passed the declared total, no
    read posts Succeeded. *)
Lemma Reads_past_total bases :
  forall s,
    0 <= subtotal s <= consumed s ->
    total <= consumed s ->
    reads_ok bases ->
    GoInt.in_int64 (consumed s + counted_sum bases) ->
    count_succeed (concat (snd (Reads total bases s))) = 0%nat.
Proof.
  induction bases as [| base rest IH]; intros s Hsub Hge Hnn Hrange;
    [reflexivity |].
  apply Forall_cons in Hnn as [Hb Hrest]. simpl in Hrange.
  pose proof (counted_sum_nonneg rest Hrest) as Hcr.
  pose proof (counted_nonneg base Hb) as Hcb.
  destruct (Z.eq_dec (counted base) 0) as [Hzero | Hpos].
  - destruct (Read_uncounted_quiet base s Hb Hzero)
      as (evs & Hread & Hevs & _).
    specialize (IH s Hsub Hge Hrest
                  ltac:(rewrite Hzero in Hrange; exact Hrange)).
    cbn [Reads]. rewrite Hread.
    destruct (Reads total rest s) as [s2 evss]. simpl in *.
    rewrite count_succeed_app, Hevs, IH. reflexivity.
  - destruct base as [n err]. simpl in Hb.
    destruct (counted_positive n err Hb Hpos) as (Herr & Hn & Hcn).
    rewrite Hcn in Hrange.
    assert (Hc : GoInt.in_int64 (consumed s + n)).
    { revert Hrange. unfold GoInt.in_int64, GoInt.min_int64,
        GoInt.max_int64. lia. }
    assert (Hs : GoInt.in_int64 (subtotal s + n)).
    { revert Hrange. unfold GoInt.in_int64, GoInt.min_int64,
        GoInt.max_int64. lia. }
    pose proof (Read_counted total n err s Herr Hn Hc Hs) as Hread.
    cbn [Reads]. rewrite Hread.
    set (s1 := mkCounters (consumed s + n)
                 (if threshold <=? subtotal s + n then 0
                  else subtotal s + n)).
    assert (Hsub1 : 0 <= subtotal s1 <= consumed s1).
    { subst s1. simpl. destruct (threshold <=? subtotal s + n); lia. }
    specialize (IH s1 Hsub1 ltac:(subst s1; simpl; lia) Hrest
                  ltac:(subst s1; simpl;
                        replace (consumed s + n + counted_sum rest)
                          with (consumed s + (n + counted_sum rest)) by lia;
                        exact Hrange)).
    destruct (Reads total rest s1) as [s2 evss]. cbn [snd concat] in *.
    replace (consumed s + n =? total) with false
      by (symmetry; apply Z.eqb_neq; lia).
    rewrite !count_succeed_app, IH.
    destruct (threshold <=? subtotal s + n); reflexivity.
Qed.

Lemma Reads_succeed_at_most_once bases :
  forall s,
    0 <= subtotal s <= consumed s ->
    reads_ok bases ->
    GoInt.in_int64 (consumed s + counted_sum bases) ->
    (count_succeed (concat (snd (Reads total bases s))) <= 1)%nat
    /\ ((forall k : nat, consumed s + counted_sum (take k bases) <> total) ->
        count_succeed (concat (snd (Reads total bases s))) = 0%nat).
Proof.
  induction bases as [| base rest IH]; intros s Hsub Hnn Hrange.
  { split; [unfold count_succeed; simpl; lia | reflexivity]. }
  apply Forall_cons in Hnn as [Hb Hrest]. simpl in Hrange.
  pose proof (counted_sum_nonneg rest Hrest) as Hcr.
  pose proof (counted_nonneg base Hb) as Hcb.
  destruct (Z.eq_dec (counted base) 0) as [Hzero | Hpos].
  - destruct (Read_uncounted_quiet base s Hb Hzero)
      as (evs & Hread & Hevs & _).
    destruct (IH s Hsub Hrest ltac:(rewrite Hzero in Hrange; exact Hrange))
      as [IH1 IH2].
    cbn [Reads]. rewrite Hread.
    destruct (Reads total rest s) as [s2 evss]. simpl in *.
    rewrite count_succeed_app, Hevs. split; [exact IH1 |].
    intros Hnever. apply IH2. intros k.
    specialize (Hnever (S k)). simpl in Hnever. rewrite Hzero in Hnever.
    exact Hnever.
  - destruct base as [n err]. simpl in Hb.
    destruct (counted_positive n err Hb Hpos) as (Herr & Hn & Hcn).
    rewrite Hcn in Hrange.
    assert (Hc : GoInt.in_int64 (consumed s + n)).
    { revert Hrange. unfold GoInt.in_int64, GoInt.min_int64,
        GoInt.max_int64. lia. }
    assert (Hs : GoInt.in_int64 (subtotal s + n)).
    { revert Hrange. unfold GoInt.in_int64, GoInt.min_int64,
        GoInt.max_int64. lia. }
    pose proof (Read_counted total n err s Herr Hn Hc Hs) as Hread.
    cbn [Reads]. rewrite Hread.
    set (s1 := mkCounters (consumed s + n)
                 (if threshold <=? subtotal s + n then 0
                  else subtotal s + n)).
    assert (Hsub1 : 0 <= subtotal s1 <= consumed s1).
    { subst s1. simpl. destruct (threshold <=? subtotal s + n); lia. }
    assert (Hrange1 : GoInt.in_int64 (consumed s1 + counted_sum rest)).
    { subst s1. simpl.
      replace (consumed s + n + counted_sum rest)
        with (consumed s + (n + counted_sum rest)) by lia.
      exact Hrange. }
    destruct (Z.eq_dec (consumed s + n) total) as [Hdone | Hmore].
    + pose proof (Reads_past_total rest s1 Hsub1
                    ltac:(subst s1; simpl; lia) Hrest Hrange1) as Hrest0.
      destruct (Reads total rest s1) as [s2 evss]. cbn [snd concat] in *.
      replace (consumed s + n =? total) with true
        by (symmetry; apply Z.eqb_eq; exact Hdone).
      rewrite !count_succeed_app, Hrest0. split.
      * destruct (threshold <=? subtotal s + n),
          (subtotal s + n <? threshold); simpl; lia.
      * intros Hnever. exfalso. apply (Hnever 1%nat).
        cbn [take counted_sum]. rewrite ?take_0. cbn [counted_sum].
        rewrite Hcn. lia.
    + destruct (IH s1 Hsub1 Hrest Hrange1) as [IH1 IH2].
      destruct (Reads total rest s1) as [s2 evss]. cbn [snd concat] in *.
      replace (consumed s + n =? total) with false
        by (symmetry; apply Z.eqb_neq; exact Hmore).
      rewrite !count_succeed_app.
      assert (Hev0 : count_succeed
                (if threshold <=? subtotal s + n
                 then [mkStatus DataTransferRW (subtotal s + n)
                         (consumed s + n) total]
                 else []) = 0%nat)
        by (destruct (threshold <=? subtotal s + n); reflexivity).
      rewrite Hev0. simpl. split; [exact IH1 |].
      intros Hnever. apply IH2. intros k.
      specialize (Hnever (S k)). simpl in Hnever. rewrite Hcn in Hnever.
      subst s1. simpl. lia.
Qed.

End ProgressAccounting.



(** X13.  For any reads (each returning a count [n >= 0], the sum fitting in
    an [int64]) through the parallel decorator from fresh counters,
    Succeeded is posted at most once; and it is never posted when the
    cumulative count never equals the declared total, as when a read takes
    the count past the total or the stream ends short of it. *)
Theorem parallel_progress_never_succeeds_twice :
  forall total bases,
    reads_ok bases ->
    GoInt.in_int64 (counted_sum bases) ->
    (count_succeed
       (concat (snd (parallelReadCloserWithListener.Reads total bases
                       fresh_counters))) <= 1)%nat
    /\ ((forall k : nat, counted_sum (take k bases) <> total) ->
        count_succeed
          (concat (snd (parallelReadCloserWithListener.Reads total bases
                          fresh_counters))) = 0%nat).
Proof.
  intros total bases Hnn Hrange.
  apply (Reads_succeed_at_most_once total bases fresh_counters);
    simpl; try lia; assumption.
Qed.

(** A declared total of 5 MiB overshot by reads of 3 MiB and 4 MiB. *)
Lemma parallel_progress_never_succeeds_twice_witness :
  count_succeed
    (concat (snd (parallelReadCloserWithListener.Reads 5242880
                    [(3145728, parallelReadCloserWithListener.ErrNil);
                     (4194304, parallelReadCloserWithListener.ErrEOF)]
                    fresh_counters))) = 0%nat.
Proof.
  apply (proj2 (parallel_progress_never_succeeds_twice 5242880
                  [(3145728, parallelReadCloserWithListener.ErrNil);
                   (4194304, parallelReadCloserWithListener.ErrEOF)]
                  ltac:(unfold reads_ok; repeat constructor; simpl; lia)
                  ltac:(vm_compute; split; discriminate))).
  intros [| [| [| k]]]; vm_compute; discriminate.
Defined.

(** ** The single-stream progress decorator *)

Section SingleStream.

Import parallelReadCloserWithListener.

Variable total : Z.

Lemma count_started_app evs1 evs2 :
  count_started (evs1 ++ evs2)
  = (count_started evs1 + count_started evs2)%nat.
Proof.
  unfold count_started. rewrite List.filter_app, length_app. reflexivity.
Qed.

Lemma single_Read_uncounted base c :
  0 <= fst base ->
  counted base = 0 ->
  exists evs,
    readCloserWithListener.Read total base c = (c, evs, base)
    /\ count_succeed evs = 0%nat
    /\ rw_bytes evs = 0
    /\ count_started evs = if c =? 0 then 1%nat else 0%nat.
Proof.
  destruct base as [n err]. unfold counted. simpl. intros Hn Hc.
  unfold readCloserWithListener.Read.
  destruct err as [| | msg]; try subst n; simpl;
    eexists; (split; [reflexivity |]); destruct (c =? 0); repeat split.
Qed.

Lemma single_Read_counted n err c :
  (forall msg, err <> ErrOther msg) ->
  0 < n ->
  GoInt.in_int64 (c + n) ->
  readCloserWithListener.Read total (n, err) c
  = (c + n,
     (if c =? 0 then [mkStatus DataTransferStarted 0 0 0] else [])
     ++ [mkStatus DataTransferRW n (c + n) total]
     ++ (if c + n =? total
         then [mkStatus DataTransferSucceed 0 (c + n) total]
         else []),
     (n, err)).
Proof.
  intros Herr Hn Hc. unfold readCloserWithListener.Read.
  replace (n <=? 0) with false by (symmetry; apply Z.leb_gt; lia).
  unfold GoInt.add64. rewrite !wrap64_id by assumption.
  destruct err as [| | msg]; try reflexivity.
  exfalso. eapply Herr. reflexivity.
Qed.

Lemma single_Reads_uncounted bases :
  forall c,
    reads_ok bases ->
    counted_sum bases = 0 ->
    exists evss,
      readCloserWithListener.Reads total bases c = (c, evss)
      /\ count_succeed (concat evss) = 0%nat
      /\ rw_bytes (concat evss) = 0.
Proof.
  induction bases as [| base rest IH]; intros c Hnn Hsum.
  - exists []. repeat split.
  - apply Forall_cons in Hnn as [Hb Hrest]. simpl in Hsum.
    pose proof (counted_nonneg base Hb).
    pose proof (counted_sum_nonneg rest Hrest).
    destruct (single_Read_uncounted base c Hb ltac:(lia))
      as (evs & Hread & Hevs & Hrw & _).
    destruct (IH c Hrest ltac:(lia)) as (evss & Hreads & Hcnt & Hrws).
    exists (evs :: evss). cbn [readCloserWithListener.Reads].
    rewrite Hread, Hreads. split; [reflexivity |]. cbn [concat]. split.
    + rewrite count_succeed_app, Hevs, Hcnt. reflexivity.
    + rewrite rw_bytes_app, Hrw, Hrws. reflexivity.
Qed.

Lemma rw_bytes_started_prefix (c : Z) evs :
  rw_bytes ((if c =? 0 then [mkStatus DataTransferStarted 0 0 0] else [])
            ++ evs) = rw_bytes evs.
Proof. destruct (c =? 0); reflexivity. Qed.

Lemma count_succeed_started_prefix (c : Z) evs :
  count_succeed
    ((if c =? 0 then [mkStatus DataTransferStarted 0 0 0] else []) ++ evs)
  = count_succeed evs.
Proof. destruct (c =? 0); reflexivity. Qed.

Hypothesis Htotal : GoInt.in_int64 total.

Lemma single_Reads_complete bases :
  forall c,
    0 <= c < total ->
    reads_ok bases ->
    c + counted_sum bases = total ->
    exists evss,
      readCloserWithListener.Reads total bases c = (total, evss)
      /\ count_succeed (concat evss) = 1%nat
      /\ rw_bytes (concat evss) = total - c.
Proof.
  induction bases as [| base rest IH]; intros c Hc Hnn Hsum.
  - simpl in Hsum. lia.
  - apply Forall_cons in Hnn as [Hb Hrest]. simpl in Hsum.
    pose proof (counted_sum_nonneg rest Hrest) as Hcr.
    destruct (Z.eq_dec (counted base) 0) as [Hzero | Hpos].
    + destruct (single_Read_uncounted base c Hb Hzero)
        as (evs & Hread & Hevs & Hrw & _).
      destruct (IH c Hc Hrest ltac:(lia)) as (evss & Hreads & Hcnt & Hrws).
      exists (evs :: evss). cbn [readCloserWithListener.Reads].
      rewrite Hread, Hreads. split; [reflexivity |]. cbn [concat]. split.
      * rewrite count_succeed_app, Hevs, Hcnt. reflexivity.
      * rewrite rw_bytes_app, Hrw, Hrws. lia.
    + destruct base as [n err]. simpl in Hb.
      destruct (counted_positive n err Hb Hpos) as (Herr & Hn & Hcn).
      rewrite Hcn in Hsum.
      assert (Hr : GoInt.in_int64 (c + n)).
      { revert Htotal. unfold GoInt.in_int64, GoInt.min_int64,
          GoInt.max_int64. lia. }
      pose proof (single_Read_counted n err c Herr Hn Hr) as Hread.
      destruct (Z.eq_dec (c + n) total) as [Hdone | Hmore].
      * destruct (single_Reads_uncounted rest (c + n) Hrest ltac:(lia))
          as (evss & Hreads & Hcnt & Hrws).
        eexists (_ :: evss). cbn [readCloserWithListener.Reads].
        rewrite Hread, Hreads.
        replace (c + n =? total) with true
          by (symmetry; apply Z.eqb_eq; exact Hdone).
        split; [rewrite Hdone; reflexivity |]. cbn [concat]. split.
        -- rewrite count_succeed_app, count_succeed_started_prefix, Hcnt.
           reflexivity.
        -- rewrite rw_bytes_app, rw_bytes_started_prefix, Hrws. simpl. lia.
      * destruct (IH (c + n) ltac:(lia) Hrest ltac:(lia))
          as (evss & Hreads & Hcnt & Hrws).
        eexists (_ :: evss). cbn [readCloserWithListener.Reads].
        rewrite Hread, Hreads.
        replace (c + n =? total) with false
          by (symmetry; apply Z.eqb_neq; exact Hmore).
        split; [reflexivity |]. cbn [concat]. split.
        -- rewrite count_succeed_app, count_succeed_started_prefix, Hcnt.
           reflexivity.
        -- rewrite rw_bytes_app, rw_bytes_started_prefix, Hrws. simpl. lia.
Qed.

End SingleStream.

Section SingleStreamStarted.

Import parallelReadCloserWithListener.

Variable total : Z.

Lemma single_Reads_no_more_started bases :
  forall c,
    0 < c ->
    reads_ok bases ->
    GoInt.in_int64 (c + counted_sum bases) ->
    count_started
      (concat (snd (readCloserWithListener.Reads total bases c))) = 0%nat.
Proof.
  induction bases as [| base rest IH]; intros c Hc Hnn Hrange;
    [reflexivity |].
  apply Forall_cons in Hnn as [Hb Hrest]. simpl in Hrange.
  pose proof (counted_sum_nonneg rest Hrest) as Hcr.
  pose proof (counted_nonneg base Hb) as Hcb.
  assert (Hcz : (c =? 0) = false) by (apply Z.eqb_neq; lia).
  destruct (Z.eq_dec (counted base) 0) as [Hzero | Hpos].
  - destruct (single_Read_uncounted total base c Hb Hzero)
      as (evs & Hread & _ & _ & Hst).
    rewrite Hcz in Hst.
    specialize (IH c Hc Hrest ltac:(rewrite Hzero in Hrange; exact Hrange)).
    cbn [readCloserWithListener.Reads]. rewrite Hread.
    destruct (readCloserWithListener.Reads total rest c) as [c2 evss].
    cbn [snd concat] in *. rewrite count_started_app, Hst, IH. reflexivity.
  - destruct base as [n err]. simpl in Hb.
    destruct (counted_positive n err Hb Hpos) as (Herr & Hn & Hcn).
    rewrite Hcn in Hrange.
    assert (Hr : GoInt.in_int64 (c + n)).
    { revert Hrange. unfold GoInt.in_int64, GoInt.min_int64,
        GoInt.max_int64. lia. }
    pose proof (single_Read_counted total n err c Herr Hn Hr) as Hread.
    specialize (IH (c + n) ltac:(lia) Hrest
                  ltac:(replace (c + n + counted_sum rest)
                          with (c + (n + counted_sum rest)) by lia;
                        exact Hrange)).
    cbn [readCloserWithListener.Reads]. rewrite Hread, Hcz.
    destruct (readCloserWithListener.Reads total rest (c + n))
      as [c2 evss].
    cbn [snd concat] in *. rewrite !count_started_app, IH.
    destruct (c + n =? total); reflexivity.
Qed.

Lemma single_Reads_started bases :
  reads_ok bases ->
  GoInt.in_int64 (counted_sum bases) ->
  count_started
    (concat (snd (readCloserWithListener.Reads total bases 0)))
  = Nat.min (length bases) (S (leading_uncounted bases)).
Proof.
  induction bases as [| base rest IH]; intros Hnn Hrange; [reflexivity |].
  apply Forall_cons in Hnn as [Hb Hrest]. simpl in Hrange.
  pose proof (counted_sum_nonneg rest Hrest) as Hcr.
  pose proof (counted_nonneg base Hb) as Hcb.
  cbn [leading_uncounted length].
  destruct (Z.eq_dec (counted base) 0) as [Hzero | Hpos].
  - destruct (single_Read_uncounted total base 0 Hb Hzero)
      as (evs & Hread & _ & _ & Hst).
    simpl in Hst.
    specialize (IH Hrest ltac:(rewrite Hzero in Hrange; exact Hrange)).
    cbn [readCloserWithListener.Reads]. rewrite Hread.
    destruct (readCloserWithListener.Reads total rest 0) as [c2 evss].
    cbn [snd concat] in *. rewrite count_started_app, Hst, IH.
    replace (counted base =? 0) with true
      by (symmetry; apply Z.eqb_eq; exact Hzero).
    simpl. reflexivity.
  - destruct base as [n err]. simpl in Hb.
    destruct (counted_positive n err Hb Hpos) as (Herr & Hn & Hcn).
    rewrite Hcn in Hrange.
    assert (Hr : GoInt.in_int64 (0 + n)).
    { revert Hrange. unfold GoInt.in_int64, GoInt.min_int64,
        GoInt.max_int64. lia. }
    pose proof (single_Read_counted total n err 0 Herr Hn Hr) as Hread.
    pose proof (single_Reads_no_more_started rest (0 + n) ltac:(lia) Hrest
                  ltac:(replace (0 + n + counted_sum rest)
                          with (n + counted_sum rest) by lia;
                        exact Hrange)) as Hrest0.
    cbn [readCloserWithListener.Reads]. rewrite Hread.
    destruct (readCloserWithListener.Reads total rest (0 + n))
      as [c2 evss].
    cbn [snd concat] in *. rewrite !count_started_app, Hrest0.
    replace (counted (n, err) =? 0) with false
      by (symmetry; apply Z.eqb_neq; exact Hpos).
    destruct (0 + n =? total); simpl; rewrite Nat.min_0_r; reflexivity.
Qed.

End SingleStreamStarted.

(** X14.  For a positive declared total and reads (each returning a count
    [n >= 0]) whose counted bytes sum to that total, the single-stream
    decorator, starting with nothing consumed, ends with its counter at the
    total, posts Succeeded exactly once, and the bytes of its RW statuses
    add up to the total. *)
Theorem single_progress_complete :
  forall total bases,
    GoInt.in_int64 total ->
    0 < total ->
    reads_ok bases ->
    counted_sum bases = total ->
    exists evss,
      readCloserWithListener.Reads total bases 0 = (total, evss)
      /\ count_succeed (concat evss) = 1%nat
      /\ rw_bytes (concat evss) = total.
Proof.
  intros total bases Htotal Hpos Hnn Hsum.
  destruct (single_Reads_complete total Htotal bases 0 ltac:(lia) Hnn
              ltac:(lia)) as (evss & Hreads & Hcnt & Hrw).
  exists evss. repeat split; try assumption. lia.
Qed.

Lemma single_progress_complete_witness :
  exists evss,
    readCloserWithListener.Reads 9437184 sample_reads 0 = (9437184, evss)
    /\ count_succeed (concat evss) = 1%nat
    /\ rw_bytes (concat evss) = 9437184.
Proof.
  apply (single_progress_complete 9437184 sample_reads).
  - vm_compute. split; discriminate.
  - lia.
  - unfold reads_ok, sample_reads. repeat constructor; simpl; lia.
  - reflexivity.
Defined.

(** X15.  The single-stream decorator posts Started on every read it makes
    while nothing has been consumed yet, not once per transfer: for reads
    (each returning [n >= 0], the sum fitting in an [int64]) starting with
    nothing consumed, Started is posted once for each leading read that
    delivers no byte (an empty read or a failed one) and once more for the
    first read that delivers bytes, and never after that. *)
Theorem single_progress_started_repeats :
  forall total bases,
    reads_ok bases ->
    GoInt.in_int64 (counted_sum bases) ->
    count_started
      (concat (snd (readCloserWithListener.Reads total bases 0)))
    = Nat.min (length bases) (S (leading_uncounted bases)).
Proof.
  intros total bases. apply single_Reads_started.
Qed.

(** Two empty reads, then data: three Started statuses. *)
Lemma single_progress_started_repeats_witness :
  count_started
    (concat (snd (readCloserWithListener.Reads 100
                    [(0, parallelReadCloserWithListener.ErrNil);
                     (0, parallelReadCloserWithListener.ErrNil);
                     (60, parallelReadCloserWithListener.ErrNil);
                     (40, parallelReadCloserWithListener.ErrEOF)] 0)))
  = 3%nat.
Proof.
  apply (single_progress_started_repeats 100
           [(0, parallelReadCloserWithListener.ErrNil);
            (0, parallelReadCloserWithListener.ErrNil);
            (60, parallelReadCloserWithListener.ErrNil);
            (40, parallelReadCloserWithListener.ErrEOF)]).
  - unfold reads_ok. repeat constructor; simpl; lia.
  - vm_compute. split; discriminate.
Defined.

(** ** The checksum decorator *)

Section CRCFacts.

Context {H E : Type}.
Variable Write : list Byte.byte -> H -> (Z * option E) * H.

(** The contract of [hash.Hash]: [Write] never returns an error and takes
    all the bytes; the state after writing a stream in pieces is the state
    after writing it whole. *)
Hypothesis Write_ok :
  forall data h, fst (Write data h) = (Z.of_nat (length data), None).
Hypothesis Write_nil : forall h, snd (Write [] h) = h.
Hypothesis Write_app :
  forall a b h, snd (Write (a ++ b) h) = snd (Write b (snd (Write a h))).

Lemma crc_Read_spec base h :
  readCloserWithCRC.Read Write base h
  = (crc_return base, snd (Write (fst base) h)).
Proof.
  destruct base as [data err]. unfold readCloserWithCRC.Read, crc_return.
  cbv zeta. simpl fst. simpl snd.
  destruct data as [| b data].
  - simpl. rewrite Write_nil. reflexivity.
  - replace (0 <? Z.of_nat (length (b :: data))) with true
      by (symmetry; apply Z.ltb_lt; simpl; lia).
    pose proof (Write_ok (b :: data) h) as Hw.
    destruct (Write (b :: data) h) as [[n' err'] h']. simpl in Hw.
    inversion Hw; subst. reflexivity.
Qed.

Lemma crc_Reads_spec bases :
  forall h,
    readCloserWithCRC.Reads Write bases h
    = (crc_return <$> bases, snd (Write (concat (fst <$> bases)) h)).
Proof.
  induction bases as [| base rest IH]; intros h.
  - simpl. rewrite Write_nil. reflexivity.
  - cbn [readCloserWithCRC.Reads]. rewrite crc_Read_spec, IH.
    cbn [fmap list_fmap concat]. rewrite Write_app. reflexivity.
Qed.

End CRCFacts.

(** X16.  With a checker that keeps the contract of [hash.Hash] ([Write]
    takes all bytes, returns no error, and is streaming), the checksum
    decorator feeds the checker exactly the bytes read, in order, so the
    digest after any sequence of reads is that of the whole data; each read
    returns the number of bytes delivered; and the error of the wrapped
    reader is passed on only by reads that delivered nothing: a read that
    delivered bytes returns a nil error, whether the wrapped reader reported
    end-of-stream or a failure along with them. *)
Theorem crc_reader_feeds_every_byte :
  forall (H E : Type) (Write : list Byte.byte -> H -> (Z * option E) * H),
    (forall data h, fst (Write data h) = (Z.of_nat (length data), None)) ->
    (forall h, snd (Write [] h) = h) ->
    (forall a b h,
        snd (Write (a ++ b) h) = snd (Write b (snd (Write a h)))) ->
    forall (bases : list (list Byte.byte * option E)) (h : H),
      readCloserWithCRC.Reads Write bases h
      = (crc_return <$> bases, snd (Write (concat (fst <$> bases)) h))
      /\ (forall (data : list Byte.byte) (err : option E),
             data <> [] ->
             fst (readCloserWithCRC.Read Write (data, err) h)
             = (Z.of_nat (length data), None)).
Proof.
  intros H E Write Hok Hnil Happ bases h. split.
  - apply crc_Reads_spec; assumption.
  - intros data err Hne. rewrite crc_Read_spec by assumption.
    unfold crc_return. simpl. destruct data; [congruence | reflexivity].
Qed.

Lemma crc_reader_feeds_every_byte_witness :
  readCloserWithCRC.Reads sample_Write
    [([Byte.x61; Byte.x62], None); ([], None);
     ([Byte.x63], Some "connection reset"%string);
     ([], Some "EOF"%string)] []
  = ([(2, None); (0, None); (1, None); (0, Some "EOF"%string)],
     [Byte.x61; Byte.x62; Byte.x63]).
Proof.
  apply (proj1 (crc_reader_feeds_every_byte (list Byte.byte) string
                  sample_Write
                  ltac:(reflexivity)
                  ltac:(intros h; simpl; apply app_nil_r)
                  ltac:(intros a b h; simpl; apply app_assoc)
                  [([Byte.x61; Byte.x62], None); ([], None);
                   ([Byte.x63], Some "connection reset"%string);
                   ([], Some "EOF"%string)] [])).
Defined.

(** ** The rate-limiting decorator *)

Section LimiterFacts.

Context {W R : Type}.
Variable Acquire : Z -> W -> (bool * Z) * W.
Variable Sleep : Z -> W -> W.

Lemma base_reads_app tr1 tr2 :
  base_reads (tr1 ++ tr2) = (base_reads tr1 + base_reads tr2)%nat.
Proof.
  unfold base_reads. rewrite List.filter_app, length_app. reflexivity.
Qed.

(** The refused requests and the sleeps touch neither the stream nor the
    count of reads. *)
Lemma refused_waits_no_read k :
  forall want w tr wk,
    refused_waits Acquire Sleep k want w = Some (tr, wk) ->
    base_reads tr = 0%nat /\ length tr = (2 * k)%nat.
Proof.
  induction k as [| k IH]; intros want w tr wk Href; simpl in Href.
  - injection Href as <- _. split; reflexivity.
  - destruct (Acquire want w) as [[ok tw] w1].
    destruct ok; [discriminate |].
    destruct (refused_waits Acquire Sleep k want (Sleep tw w1))
      as [[tr1 w2] |] eqn:Hk; [| discriminate].
    injection Href as <- _.
    destruct (IH want (Sleep tw w1) tr1 w2 Hk) as [Hno Hlen].
    split; [exact Hno |]. simpl. lia.
Qed.

Lemma acquire_loop_granted k :
  forall fuel want w tr wk t w1,
    refused_waits Acquire Sleep k want w = Some (tr, wk) ->
    Acquire want wk = ((true, t), w1) ->
    (k < fuel)%nat ->
    ReadCloserWithLimiter.acquire_loop Acquire Sleep fuel want w
    = (tr ++ [ReadCloserWithLimiter.EvAcquire want true t], w1, true).
Proof.
  induction k as [| k IH]; intros fuel want w tr wk t w1 Href Hgrant Hf.
  - simpl in Href. injection Href as <- <-.
    destruct fuel as [| fuel]; [lia |]. simpl. rewrite Hgrant. reflexivity.
  - destruct fuel as [| fuel]; [lia |]. simpl in Href |- *.
    destruct (Acquire want w) as [[ok tw] w0].
    destruct ok; [discriminate |].
    destruct (refused_waits Acquire Sleep k want (Sleep tw w0))
      as [[tr1 w2] |] eqn:Hk; [| discriminate].
    injection Href as <- <-.
    rewrite (IH fuel want (Sleep tw w0) tr1 w2 t w1 Hk Hgrant ltac:(lia)).
    reflexivity.
Qed.

(** Whatever the fuel, the loop has either been refused in every turn or
    has left at the first grant. *)
Lemma acquire_loop_cases fuel :
  forall want w tr w' granted,
    ReadCloserWithLimiter.acquire_loop Acquire Sleep fuel want w
    = (tr, w', granted) ->
    (granted = false
     /\ refused_waits Acquire Sleep fuel want w = Some (tr, w'))
    \/ (granted = true
        /\ exists k trk wk t,
            (k < fuel)%nat
            /\ refused_waits Acquire Sleep k want w = Some (trk, wk)
            /\ Acquire want wk = ((true, t), w')
            /\ tr = trk ++ [ReadCloserWithLimiter.EvAcquire want true t]).
Proof.
  induction fuel as [| fuel IH]; intros want w tr w' granted Hrun;
    simpl in Hrun.
  - injection Hrun as <- <- <-. left. split; reflexivity.
  - destruct (Acquire want w) as [[ok tw] w1] eqn:Ha. destruct ok.
    + injection Hrun as <- <- <-. right. split; [reflexivity |].
      exists 0%nat, [], w, tw. repeat split; [lia | exact Ha].
    + destruct (ReadCloserWithLimiter.acquire_loop Acquire Sleep fuel want
                  (Sleep tw w1)) as [[tr1 w2] g] eqn:Hrec.
      injection Hrun as <- <- <-.
      destruct (IH want (Sleep tw w1) tr1 w2 g Hrec)
        as [[Hg Href] | [Hg (k & trk & wk & t & Hk & Href & Hgrant & Htr)]].
      * left. split; [exact Hg |]. simpl. rewrite Ha, Href. reflexivity.
      * right. split; [exact Hg |].
        exists (S k),
          (ReadCloserWithLimiter.EvAcquire want false tw
             :: ReadCloserWithLimiter.EvSleep tw :: trk), wk, t.
        split; [lia |]. split; [simpl; rewrite Ha, Href; reflexivity |].
        split; [exact Hgrant |]. rewrite Htr. reflexivity.
Qed.

Lemma refused_waits_always k :
  forall want w,
    (forall w0, fst (fst (Acquire want w0)) = false) ->
    exists tr wk, refused_waits Acquire Sleep k want w = Some (tr, wk).
Proof.
  induction k as [| k IH]; intros want w Hno; simpl.
  - eauto.
  - pose proof (Hno w) as Hw.
    destruct (Acquire want w) as [[ok tw] w1]. simpl in Hw. subst ok.
    destruct (IH want (Sleep tw w1) Hno) as (tr & wk & Href).
    rewrite Href. eauto.
Qed.

End LimiterFacts.

(** X17.  The rate-limiting decorator reads the wrapped stream only after
    the limiter has granted the request.  However long [Read] has run, it
    has either been refused in every turn of its loop, and has then done
    nothing but ask and sleep: the stream is untouched and [Read] has not
    returned; or some request was granted, and then it has asked and slept
    through the refusals before it, read the stream once, in the world the
    grant left, as its last act, and returned what that read returned.
    [Read] returns as soon as a request is granted, and while the limiter
    keeps refusing it never returns and never reads. *)
Theorem limiter_read_waits_for_grant :
  forall (W R : Type) (Acquire : Z -> W -> (bool * Z) * W)
         (Sleep : Z -> W -> W) (baseRead : Z -> W -> R * W)
         (p_len : Z) (w : W),
    (forall fuel tr w' ret,
        ReadCloserWithLimiter.Read Acquire Sleep baseRead fuel p_len w
        = (tr, w', ret) ->
        (ret = None /\ base_reads tr = 0%nat
         /\ refused_waits Acquire Sleep fuel p_len w = Some (tr, w'))
        \/ (exists k trk wk t w1,
               (k < fuel)%nat
               /\ refused_waits Acquire Sleep k p_len w = Some (trk, wk)
               /\ Acquire p_len wk = ((true, t), w1)
               /\ tr = trk ++ [ReadCloserWithLimiter.EvAcquire p_len true t;
                               ReadCloserWithLimiter.EvBaseRead p_len]
               /\ base_reads trk = 0%nat
               /\ ret = Some (fst (baseRead p_len w1))
               /\ w' = snd (baseRead p_len w1)))
    /\ (forall k trk wk t w1 fuel,
           refused_waits Acquire Sleep k p_len w = Some (trk, wk) ->
           Acquire p_len wk = ((true, t), w1) ->
           (k < fuel)%nat ->
           ReadCloserWithLimiter.Read Acquire Sleep baseRead fuel p_len w
           = (trk ++ [ReadCloserWithLimiter.EvAcquire p_len true t;
                      ReadCloserWithLimiter.EvBaseRead p_len],
              snd (baseRead p_len w1), Some (fst (baseRead p_len w1))))
    /\ ((forall w0, fst (fst (Acquire p_len w0)) = false) ->
        forall fuel,
          exists tr w',
            ReadCloserWithLimiter.Read Acquire Sleep baseRead fuel p_len w
            = (tr, w', None)
            /\ base_reads tr = 0%nat
            /\ length tr = (2 * fuel)%nat).
Proof.
  intros W R Acquire Sleep baseRead p_len w. split; [| split].
  - intros fuel tr w' ret Hrun.
    unfold ReadCloserWithLimiter.Read in Hrun. cbv zeta in Hrun.
    destruct (ReadCloserWithLimiter.acquire_loop Acquire Sleep fuel p_len w)
      as [[tr0 w0] g] eqn:Hloop.
    destruct (acquire_loop_cases Acquire Sleep fuel p_len w tr0 w0 g Hloop)
      as [[-> Href] | [-> (k & trk & wk & t & Hk & Href & Hgrant & ->)]].
    + injection Hrun as <- <- <-. left. split; [reflexivity |].
      split; [| exact Href].
      exact (proj1 (refused_waits_no_read Acquire Sleep fuel p_len w tr0 w0
                      Href)).
    + destruct (baseRead p_len w0) as [r0 w2] eqn:Hbase.
      injection Hrun as <- <- <-. right.
      exists k, trk, wk, t, w0. rewrite Hbase. cbn [fst snd].
      split; [exact Hk |]. split; [exact Href |]. split; [exact Hgrant |].
      split; [rewrite <- app_assoc; reflexivity |].
      split; [| split; reflexivity].
      exact (proj1 (refused_waits_no_read Acquire Sleep k p_len w trk wk
                      Href)).
  - intros k trk wk t w1 fuel Href Hgrant Hf.
    unfold ReadCloserWithLimiter.Read. cbv zeta.
    rewrite (acquire_loop_granted Acquire Sleep k fuel p_len w trk wk t w1
               Href Hgrant Hf).
    destruct (baseRead p_len w1) as [r0 w2]. cbn [fst snd].
    rewrite <- app_assoc. reflexivity.
  - intros Hno fuel.
    destruct (refused_waits_always Acquire Sleep fuel p_len w Hno)
      as (tr & wk & Href).
    destruct (refused_waits_no_read Acquire Sleep fuel p_len w tr wk Href)
      as [Hreads Hlen].
    exists tr, wk. split; [| split; assumption].
    unfold ReadCloserWithLimiter.Read. cbv zeta.
    destruct (ReadCloserWithLimiter.acquire_loop Acquire Sleep fuel p_len w)
      as [[tr0 w0] g] eqn:Hloop.
    destruct (acquire_loop_cases Acquire Sleep fuel p_len w tr0 w0 g Hloop)
      as [[-> Href'] | [-> (k & trk & wk' & t & Hk & _ & Hgrant & _)]].
    + rewrite Href in Href'. injection Href' as <- <-. reflexivity.
    + pose proof (Hno wk') as Hw. rewrite Hgrant in Hw. discriminate.
Qed.

Lemma limiter_read_waits_for_grant_witness :
  ReadCloserWithLimiter.Read sample_Acquire sample_Sleep sample_baseRead 10
    4096 (mkSampleWorld 0 0 6000)
  = ([ReadCloserWithLimiter.EvAcquire 4096 false 5000000;
      ReadCloserWithLimiter.EvSleep 5000000;
      ReadCloserWithLimiter.EvAcquire 4096 false 5000000;
      ReadCloserWithLimiter.EvSleep 5000000;
      ReadCloserWithLimiter.EvAcquire 4096 false 5000000;
      ReadCloserWithLimiter.EvSleep 5000000;
      ReadCloserWithLimiter.EvAcquire 4096 true 0;
      ReadCloserWithLimiter.EvBaseRead 4096],
     mkSampleWorld 4 15000000 1904, Some (4096, false)).
Proof.
  apply (proj1 (proj2 (limiter_read_waits_for_grant sample_world (Z * bool)
                         sample_Acquire sample_Sleep sample_baseRead 4096
                         (mkSampleWorld 0 0 6000)))
           3%nat
           [ReadCloserWithLimiter.EvAcquire 4096 false 5000000;
            ReadCloserWithLimiter.EvSleep 5000000;
            ReadCloserWithLimiter.EvAcquire 4096 false 5000000;
            ReadCloserWithLimiter.EvSleep 5000000;
            ReadCloserWithLimiter.EvAcquire 4096 false 5000000;
            ReadCloserWithLimiter.EvSleep 5000000]
           (mkSampleWorld 3 15000000 6000) 0
           (mkSampleWorld 4 15000000 6000) 10%nat).
  - reflexivity.
  - reflexivity.
  - lia.
Defined.

(** ** Building a client *)

Lemma prefix_string_drop (p s : string) :
  String.prefix p s = true ->
  String.append p (client.string_drop (String.length p) s) = s.
Proof.
  revert s. induction p as [| a p IH]; intros s H; [reflexivity |].
  destruct s as [| b s]; [discriminate |]. simpl in H |- *.
  destruct (Ascii.ascii_dec a b) as [-> | Hne]; [| discriminate].
  transitivity
    (String b (String.append p (client.string_drop (String.length p) s)));
    [reflexivity | f_equal; apply IH; exact H].
Qed.

(** X18.  [schemeHost] splits an endpoint at its scheme: an endpoint that
    starts with [https://] or [http://] gives that scheme and the rest as
    host, so scheme, [://] and host give the endpoint back; any other
    endpoint, one in capitals or without a scheme, is taken whole as the
    host with scheme [http].  The URL mode is the path mode exactly when the
    host parses as an IP address. *)
Theorem schemeHost_splits_endpoint :
  forall (isIP : string -> bool) (endpoint : string),
    let scheme := fst (fst (client.schemeHost isIP endpoint)) in
    let host := snd (fst (client.schemeHost isIP endpoint)) in
    let mode := snd (client.schemeHost isIP endpoint) in
    ((scheme = "https"%string
      /\ endpoint = String.append "https://" host)
     \/ (scheme = "http"%string
         /\ endpoint = String.append "http://" host)
     \/ (scheme = "http"%string /\ endpoint = host
         /\ String.prefix "https://" endpoint = false
         /\ String.prefix "http://" endpoint = false))
    /\ mode = (if isIP host then client.urlModePath
               else client.urlModeDefault).
Proof.
  intros isIP endpoint. unfold client.schemeHost.
  destruct (String.prefix "https://" endpoint) eqn:Hs.
  - cbv zeta. cbn [fst snd]. split; [| reflexivity]. left.
    split; [reflexivity |]. symmetry. apply prefix_string_drop. exact Hs.
  - destruct (String.prefix "http://" endpoint) eqn:Hp.
    + cbv zeta. cbn [fst snd]. split; [| reflexivity]. right. left.
      split; [reflexivity |]. symmetry. apply prefix_string_drop. exact Hp.
    + cbv zeta. cbn [fst snd]. split; [| reflexivity]. right. right.
      repeat split.
Qed.

Example schemeHost_samples :
  client.schemeHost sample_isIP "https://tos-cn-beijing.volces.com"
  = ("https"%string, "tos-cn-beijing.volces.com"%string,
     client.urlModeDefault)
  /\ client.schemeHost sample_isIP "http://127.0.0.1"
     = ("http"%string, "127.0.0.1"%string, client.urlModePath)
  /\ client.schemeHost sample_isIP "tos.example.com"
     = ("http"%string, "tos.example.com"%string, client.urlModeDefault)
  /\ client.schemeHost sample_isIP "HTTPS://tos.example.com"
     = ("http"%string, "HTTPS://tos.example.com"%string,
        client.urlModeDefault).
Proof. repeat split. Qed.

Section ClientFacts.

Context {Credentials Signer Transport Recognizer Proxy : Type}.
Variable isIP : string -> bool.
Variable NewDefaultTransport : client.TransportConfig -> Transport.
Variable NewSignV4 : Credentials -> string -> Signer.

Local Abbreviation Client :=
  (@client.Client Credentials Signer Transport Recognizer Proxy).
Local Abbreviation initClient :=
  (@client.initClient Credentials Signer Transport Recognizer Proxy
     isIP NewDefaultTransport NewSignV4).

Lemma length_zero_iff (s : string) :
  (String.length s =? 0)%nat = true <-> s = EmptyString.
Proof.
  destruct s; simpl; split; congruence.
Qed.

Lemma initClient_result (c : Client) (endpoint : string)
    (options : list (Client -> Client)) :
  let c1 := apply_options options c in
  let r := initClient c endpoint options in
  client.credentials (fst r) = client.credentials c1
  /\ client.Region (client.config (fst r)) = client.Region (client.config c1)
  /\ client.Endpoint (client.config (fst r)) = effective_endpoint c1 endpoint
  /\ client.TransportConfig_ (client.config (fst r))
     = client.TransportConfig_ (client.config c1)
  /\ client.retry (fst r) = client.retry c1
  /\ client.userAgent (fst r) = client.userAgent c1
  /\ client.recognizer (fst r) = client.recognizer c1
  /\ (client.scheme (fst r), client.host (fst r), client.urlMode_ (fst r))
     = client.schemeHost isIP (effective_endpoint c1 endpoint)
  /\ client.transport (fst r)
     = match client.transport c1 with
       | Some t => Some t
       | None =>
           Some (NewDefaultTransport
                   (client.TransportConfig_ (client.config c1)))
       end
  /\ (snd r
      = match client.credentials c1, client.signer c1 with
        | Some _, None =>
            if (String.length (client.Region (client.config c1)) =? 0)%nat
            then Some (client.newTosClientError
                         "tos: missing Region option")
            else None
        | _, _ => None
        end)
  /\ (snd r = None ->
      client.signer (fst r)
      = match client.credentials c1, client.signer c1 with
        | Some cred, None =>
            Some (NewSignV4 cred (client.Region (client.config c1)))
        | _, s => s
        end).
Proof.
  intros c1 r. subst r c1. unfold client.initClient, apply_options,
    effective_endpoint.
  generalize (fold_left (fun (c : Client) (option : Client -> Client) =>
                           option c) options c).
  intros [sch0 hst0 m0 ua cred sgn tr rec [ep rg tc] rt dns crc px].
  cbn [client.config client.Endpoint client.Region client.TransportConfig_
       client.with_config client.scheme client.host client.urlMode_
       client.userAgent client.credentials client.signer client.transport
       client.recognizer client.retry client.dnsCacheTime client.enableCRC
       client.proxy].
  destruct (String.length ep =? 0)%nat;
    destruct (client.schemeHost isIP _) as [[sch hst] mode];
    destruct tr, cred, sgn; cbn;
    try (destruct (String.length rg =? 0)%nat; cbn);
    repeat split; try reflexivity; try discriminate.
Qed.

End ClientFacts.

(** X19.  [initClient] fails exactly when, after the options, credentials
    are set, no signer is set and the region is empty; the error is then the
    client error "tos: missing Region option".  When it succeeds the client
    has a transport (the given one, else the default one built from its
    transport configuration), has a signer whenever it has credentials, and
    its scheme, host and URL mode are those of the endpoint in its
    configuration. *)
Theorem initClient_fails_iff_region_missing :
  forall (Credentials Signer Transport Recognizer Proxy : Type)
         (isIP : string -> bool)
         (NewDefaultTransport : client.TransportConfig -> Transport)
         (NewSignV4 : Credentials -> string -> Signer)
         (c : @client.Client Credentials Signer Transport Recognizer Proxy)
         (endpoint : string)
         (options : list (client.ClientOption)),
    let c1 := apply_options options c in
    let r := client.initClient isIP NewDefaultTransport NewSignV4 c endpoint
               options in
    (snd r <> None
     <-> client.credentials c1 <> None /\ client.signer c1 = None
         /\ client.Region (client.config c1) = EmptyString)
    /\ (forall err, snd r = Some err ->
                    err = client.newTosClientError
                            "tos: missing Region option")
    /\ (snd r = None ->
        client.transport (fst r) <> None
        /\ (client.credentials (fst r) <> None ->
            client.signer (fst r) <> None)
        /\ (client.scheme (fst r), client.host (fst r),
            client.urlMode_ (fst r))
           = client.schemeHost isIP
               (client.Endpoint (client.config (fst r)))).
Proof.
  intros Credentials Signer Transport Recognizer Proxy isIP
    NewDefaultTransport NewSignV4 c endpoint options c1 r.
  destruct (initClient_result isIP NewDefaultTransport NewSignV4 c endpoint
              options)
    as (Hcred & Hreg & Hep & _ & _ & _ & _ & Hsh & Htr & Herr & Hsig).
  fold c1 in Hcred, Hreg, Hep, Hsh, Htr, Herr, Hsig.
  fold r in Hcred, Hreg, Hep, Hsh, Htr, Herr, Hsig.
  split; [| split].
  - rewrite Herr.
    destruct (client.credentials c1) as [cred |],
      (client.signer c1) as [sg |];
      try (split; [congruence | intros (H1 & H2 & H3); congruence]).
    destruct (String.length (client.Region (client.config c1)) =? 0)%nat
      eqn:Hlen.
    + apply length_zero_iff in Hlen.
      split; [intros _; repeat split; [discriminate | exact Hlen]
             | discriminate].
    + split; [congruence |]. intros (_ & _ & H3).
      apply length_zero_iff in H3. congruence.
  - intros err He. rewrite Herr in He.
    destruct (client.credentials c1), (client.signer c1);
      try discriminate.
    destruct (String.length (client.Region (client.config c1)) =? 0)%nat;
      [| discriminate].
    inversion He. reflexivity.
  - intros Hok. specialize (Hsig Hok). split; [| split].
    + rewrite Htr. destruct (client.transport c1); discriminate.
    + rewrite Hcred, Hsig.
      destruct (client.credentials c1), (client.signer c1);
        congruence.
    + rewrite Hsh, Hep. reflexivity.
Qed.

Lemma initClient_fails_iff_region_missing_witness :
  snd (client.initClient sample_isIP sample_NewDefaultTransport
         sample_NewSignV4 sample_client "tos.example.com"
         [client.WithCredentials (Some "ak:sk"%string)])
  <> None.
Proof.
  apply (proj1 (initClient_fails_iff_region_missing string string
                  string string unit sample_isIP
                  sample_NewDefaultTransport sample_NewSignV4
                  sample_client "tos.example.com"
                  [client.WithCredentials (Some "ak:sk"%string)])).
  repeat split. discriminate.
Defined.

Lemma apply_options_snoc {C : Type} (options : list (C -> C)) (o : C -> C)
    (c : C) :
  apply_options (options ++ [o]) c = o (apply_options options c).
Proof.
  unfold apply_options. rewrite fold_left_app. reflexivity.
Qed.

Lemma WithRegion_config
    {Credentials Signer Transport Recognizer Proxy : Type}
    (SupportedRegion : string -> option string) (r : string)
    (c : @client.Client Credentials Signer Transport Recognizer Proxy) :
  client.config (client.WithRegion SupportedRegion r c)
  = client.mkConfig
      (match SupportedRegion r with
       | Some ep => ep
       | None => client.Endpoint (client.config c)
       end)
      r (client.TransportConfig_ (client.config c)).
Proof.
  unfold client.WithRegion. destruct (SupportedRegion r); reflexivity.
Qed.

(** X20.  A supported region decides the endpoint: when [WithRegion(r)] is
    the last option and [r] is a supported region with a non-empty endpoint,
    the client takes that endpoint, with its scheme, host and URL mode, and
    the [endpoint] argument of the constructor is ignored.  An unsupported
    region given after a supported one changes the region but keeps the
    endpoint of the supported one. *)
Theorem WithRegion_decides_endpoint :
  forall (Credentials Signer Transport Recognizer Proxy : Type)
         (SupportedRegion : string -> option string)
         (isIP : string -> bool)
         (NewDefaultTransport : client.TransportConfig -> Transport)
         (NewSignV4 : Credentials -> string -> Signer)
         (c : @client.Client Credentials Signer Transport Recognizer Proxy)
         (endpoint r ep : string)
         (options : list (client.ClientOption)),
    SupportedRegion r = Some ep ->
    ep <> EmptyString ->
    (let cl := fst (client.initClient isIP NewDefaultTransport NewSignV4 c
                      endpoint
                      (options ++ [client.WithRegion SupportedRegion r])) in
     client.Endpoint (client.config cl) = ep
     /\ client.Region (client.config cl) = r
     /\ (client.scheme cl, client.host cl, client.urlMode_ cl)
        = client.schemeHost isIP ep)
    /\ (forall r2,
           SupportedRegion r2 = None ->
           let cl := fst (client.initClient isIP NewDefaultTransport
                            NewSignV4 c endpoint
                            (options
                             ++ [client.WithRegion SupportedRegion r;
                                 client.WithRegion SupportedRegion r2])) in
           client.Endpoint (client.config cl) = ep
           /\ client.Region (client.config cl) = r2).
Proof.
  intros Credentials Signer Transport Recognizer Proxy SupportedRegion isIP
    NewDefaultTransport NewSignV4 c endpoint r ep options Hsup Hep.
  assert (Hlen : (String.length ep =? 0)%nat = false).
  { destruct (String.length ep =? 0)%nat eqn:H; [| reflexivity].
    apply length_zero_iff in H. contradiction. }
  unfold client.ClientOption in *.
  split.
  - cbv zeta.
    destruct (initClient_result isIP NewDefaultTransport NewSignV4 c endpoint
                (options ++ [client.WithRegion SupportedRegion r]))
      as (_ & Hreg & Hepx & _ & _ & _ & _ & Hsh & _).
    unfold client.ClientOption in *.
    rewrite apply_options_snoc in Hreg, Hepx, Hsh.
    unfold effective_endpoint in Hepx, Hsh.
    rewrite WithRegion_config, Hsup in Hreg, Hepx, Hsh.
    cbn [client.Endpoint client.Region] in Hreg, Hepx, Hsh.
    rewrite Hlen in Hepx, Hsh.
    split; [exact Hepx | split; [exact Hreg | exact Hsh]].
  - intros r2 Hr2. cbv zeta.
    destruct (initClient_result isIP NewDefaultTransport NewSignV4 c endpoint
                ((options ++ [client.WithRegion SupportedRegion r])
                 ++ [client.WithRegion SupportedRegion r2]))
      as (_ & Hreg & Hepx & _).
    unfold client.ClientOption in *.
    rewrite !apply_options_snoc in Hreg, Hepx.
    unfold effective_endpoint in Hepx.
    rewrite !WithRegion_config, Hsup, Hr2 in Hreg, Hepx.
    cbn [client.Endpoint client.Region] in Hreg, Hepx.
    rewrite Hlen in Hepx. rewrite <- app_assoc in Hepx, Hreg.
    split; [exact Hepx | exact Hreg].
Qed.

Lemma WithRegion_decides_endpoint_witness :
  let cl := fst (client.initClient sample_isIP sample_NewDefaultTransport
                   sample_NewSignV4 sample_client "http://127.0.0.1"
                   ([client.WithCredentials (Some "ak:sk"%string)]
                    ++ [client.WithRegion sample_SupportedRegion
                          "cn-beijing"])) in
  client.Endpoint (client.config cl) = "https://tos-cn-beijing.volces.com"%string
  /\ client.Region (client.config cl) = "cn-beijing"%string
  /\ (client.scheme cl, client.host cl, client.urlMode_ cl)
     = client.schemeHost sample_isIP "https://tos-cn-beijing.volces.com".
Proof.
  apply (proj1 (WithRegion_decides_endpoint string string string string unit
                  sample_SupportedRegion sample_isIP
                  sample_NewDefaultTransport sample_NewSignV4 sample_client
                  "http://127.0.0.1" "cn-beijing"
                  "https://tos-cn-beijing.volces.com"
                  [client.WithCredentials (Some "ak:sk"%string)]
                  eq_refl ltac:(discriminate))).
Defined.

Section RetryOfClient.

Context {Credentials Signer Transport Recognizer Proxy : Type}.

Local Abbreviation Client :=
  (@client.Client Credentials Signer Transport Recognizer Proxy).

Lemma apply_options_keep_retry (options : list (Client -> Client)) :
  Forall keeps_retry options ->
  forall c, client.retry (apply_options options c) = client.retry c.
Proof.
  unfold apply_options.
  induction 1 as [| o rest Ho _ IH]; intros c; [reflexivity |].
  simpl. rewrite IH. apply Ho.
Qed.

Lemma options_of_the_package_keep_retry
    (ExtensionBased Empty : Recognizer)
    (SupportedRegion : string -> option string) :
  (forall cred, keeps_retry
                  (@client.WithCredentials Credentials Signer Transport
                     Recognizer Proxy cred))
  /\ (forall b, keeps_retry
                  (@client.WithEnableVerifySSL Credentials Signer Transport
                     Recognizer Proxy b))
  /\ (forall t, keeps_retry
                  (@client.WithRequestTimeout Credentials Signer Transport
                     Recognizer Proxy t))
  /\ (forall t, keeps_retry
                  (@client.WithConnectionTimeout Credentials Signer
                     Transport Recognizer Proxy t))
  /\ (forall n, keeps_retry
                  (@client.WithMaxConnections Credentials Signer Transport
                     Recognizer Proxy n))
  /\ (forall t, keeps_retry
                  (@client.WithIdleConnTimeout Credentials Signer Transport
                     Recognizer Proxy t))
  /\ (forall s, keeps_retry
                  (@client.WithUserAgentSuffix Credentials Signer Transport
                     Recognizer Proxy s))
  /\ (forall t, keeps_retry
                  (@client.WithTransport Credentials Signer Transport
                     Recognizer Proxy t))
  /\ (forall tc, keeps_retry
                   (@client.WithTransportConfig Credentials Signer Transport
                      Recognizer Proxy tc))
  /\ (forall a b, keeps_retry
                    (@client.WithSocketTimeout Credentials Signer Transport
                       Recognizer Proxy a b))
  /\ (forall r, keeps_retry
                  (@client.WithRegion Credentials Signer Transport
                     Recognizer Proxy SupportedRegion r))
  /\ (forall s, keeps_retry
                  (@client.WithSigner Credentials Signer Transport
                     Recognizer Proxy s))
  /\ (forall b, keeps_retry
                  (@client.WithPathAccessMode Credentials Signer Transport
                     Recognizer Proxy b))
  /\ (forall b, keeps_retry
                  (@client.WithAutoRecognizeContentType Credentials Signer
                     Transport Recognizer Proxy ExtensionBased Empty b))
  /\ (forall r, keeps_retry
                  (@client.WithContentTypeRecognizer Credentials Signer
                     Transport Recognizer Proxy r)).
Proof.
  unfold keeps_retry. repeat split; intros; try reflexivity.
  - unfold client.WithRegion. destruct (SupportedRegion r); reflexivity.
  - unfold client.WithAutoRecognizeContentType. destruct b; reflexivity.
Qed.

End RetryOfClient.

Lemma SetJitter_keeps_backoff r jit :
  retry.backoff (retry.SetJitter r jit) = retry.backoff r.
Proof.
  unfold retry.SetJitter.
  destruct (PrimFloat.ltb jit 0 || PrimFloat.ltb 1 jit)%bool; reflexivity.
Qed.

Lemma Run_without_backoff {W E : Type} (Now : W -> Z) (Sleep : Z -> W -> W)
    (r : retry.retryer) (ctx : option (@retry.Context_ W E))
    (work : W -> option E * W) (Classify : option E -> retry.retryAction)
    (w : W) :
  retry.backoff r = [] ->
  retry.Run Now Sleep r ctx work Classify w
  = Some (fst (work w), snd (work w), [retry.EvWork (fst (work w))]).
Proof.
  intros Hb. unfold retry.Run. destruct (work w) as [ferr w0].
  rewrite Hb. simpl. rewrite Hb. reflexivity.
Qed.

(** X21.  A client built by [NewClientV2] never retries: whatever options
    are given, as long as they leave the retryer alone, as every option
    defined in this file does, the client carries a retryer with an empty
    backoff sequence and jitter 0.25, and [Run] on it calls [work] exactly
    once and returns its result, whatever the context and the classifier.
    A client built by [NewClient] carries no retryer at all. *)
Theorem NewClientV2_retryer_never_retries :
  forall (Credentials Signer Transport Recognizer Proxy : Type)
         (ExtensionBased : Recognizer)
         (isIP : string -> bool)
         (NewDefaultTransport : client.TransportConfig -> Transport)
         (NewSignV4 : Credentials -> string -> Signer)
         (defaultConfig : client.Config) (defaultUserAgent : string)
         (endpoint : string)
         (options : list (@client.ClientOption Credentials Signer Transport
                            Recognizer Proxy)),
    Forall keeps_retry options ->
    (forall cl,
        client.NewClientV2 ExtensionBased isIP NewDefaultTransport NewSignV4
          defaultConfig defaultUserAgent endpoint options = inl cl ->
        exists r,
          client.retry cl = Some r
          /\ retry.backoff r = []
          /\ retry.jitter r = 0.25%float
          /\ forall (W E : Type) (Now : W -> Z) (Sleep : Z -> W -> W)
                    (ctx : option (@retry.Context_ W E))
                    (work : W -> option E * W)
                    (Classify : option E -> retry.retryAction) (w : W),
              retry.Run Now Sleep r ctx work Classify w
              = Some (fst (work w), snd (work w),
                      [retry.EvWork (fst (work w))]))
    /\ (forall cl,
           client.NewClient ExtensionBased isIP NewDefaultTransport
             NewSignV4 defaultConfig defaultUserAgent endpoint options
           = inl cl ->
           client.retry cl = None).
Proof.
  intros Credentials Signer Transport Recognizer Proxy ExtensionBased isIP
    NewDefaultTransport NewSignV4 defaultConfig defaultUserAgent endpoint
    options Hkeep.
  split.
  - intros cl Hnew. unfold client.NewClientV2 in Hnew. cbv zeta in Hnew.
    match type of Hnew with
    | context [client.initClient _ _ _ ?c0 _ _] =>
        destruct (initClient_result isIP NewDefaultTransport NewSignV4 c0
                    endpoint options)
          as (_ & _ & _ & _ & Hretry & _);
        rewrite (apply_options_keep_retry options Hkeep) in Hretry;
        destruct (client.initClient isIP NewDefaultTransport NewSignV4 c0
                    endpoint options) as [cl' [err |]]
    end; [discriminate |].
    inversion Hnew; subst cl'. simpl in Hretry.
    exists (retry.SetJitter (retry.newRetryer []) 0.25%float).
    split; [exact Hretry |]. split; [reflexivity |].
    split; [reflexivity |].
    intros W E Now Sleep ctx work Classify w.
    apply Run_without_backoff. reflexivity.
  - intros cl Hnew. unfold client.NewClient in Hnew. cbv zeta in Hnew.
    match type of Hnew with
    | context [client.initClient _ _ _ ?c0 _ _] =>
        destruct (initClient_result isIP NewDefaultTransport NewSignV4 c0
                    endpoint options)
          as (_ & _ & _ & _ & Hretry & _);
        rewrite (apply_options_keep_retry options Hkeep) in Hretry;
        destruct (client.initClient isIP NewDefaultTransport NewSignV4 c0
                    endpoint options) as [cl' [err |]]
    end; [discriminate |].
    inversion Hnew; subst cl'. exact Hretry.
Qed.

Lemma NewClientV2_retryer_never_retries_witness :
  exists (cl : @client.Client string string string string unit) r,
    client.NewClientV2 "by extension"%string sample_isIP
      sample_NewDefaultTransport sample_NewSignV4 sample_defaultConfig
      "tos-go-sdk/v2" "tos.example.com"
      [client.WithCredentials (Some "ak:sk"%string);
       client.WithRegion sample_SupportedRegion "cn-beijing"] = inl cl
    /\ client.retry cl = Some r
    /\ retry.Run clock_now clock_sleep r None failing_work always_retry
         clock_start
       = Some (Some "first"%string, clock_start + 1000000,
               [retry.EvWork (Some "first"%string)]).
Proof.
  eexists. 
  destruct (proj1 (NewClientV2_retryer_never_retries string string string
                     string unit "by extension"%string sample_isIP
                     sample_NewDefaultTransport sample_NewSignV4
                     sample_defaultConfig "tos-go-sdk/v2" "tos.example.com"
                     [client.WithCredentials (Some "ak:sk"%string);
                      client.WithRegion sample_SupportedRegion "cn-beijing"]
                     ltac:(repeat constructor;
                           apply (options_of_the_package_keep_retry
                                    "by extension"%string "none"%string
                                    sample_SupportedRegion)))
              _ eq_refl) as (r & Hr & _ & _ & Hrun).
  exists r. split; [reflexivity |]. split; [exact Hr |].
  rewrite Hrun. reflexivity.
Defined.

(** *** The range check of [SetJitter] and NaN *)

Lemma SFcompare_refl (s : SpecFloat.spec_float) :
  s <> SpecFloat.S754_nan -> SpecFloat.SFcompare s s = Some Eq.
Proof.
  destruct s as [b | b | | b m e]; intros Hs; try congruence.
  - reflexivity.
  - destruct b; reflexivity.
  - cbn [SpecFloat.SFcompare].
    rewrite Z.compare_refl, Pos.compare_cont_refl.
    destruct b; reflexivity.
Qed.

Lemma is_nan_Prim2SF (f : float) :
  PrimFloat.is_nan f = true -> Prim2SF f = SpecFloat.S754_nan.
Proof.
  unfold PrimFloat.is_nan. rewrite FloatAxioms.eqb_spec. intros H.
  destruct (Prim2SF f) eqn:E; try reflexivity;
    unfold SpecFloat.SFeqb in H; rewrite SFcompare_refl in H by discriminate;
    discriminate.
Qed.

(** Every comparison with a NaN is false, on either side. *)
Lemma nan_unordered (f g : float) :
  PrimFloat.is_nan f = true ->
  PrimFloat.ltb f g = false /\ PrimFloat.ltb g f = false /\
  PrimFloat.leb f g = false /\ PrimFloat.leb g f = false.
Proof.
  intros H. apply is_nan_Prim2SF in H.
  rewrite !FloatAxioms.ltb_spec, !FloatAxioms.leb_spec, H.
  unfold SpecFloat.SFltb, SpecFloat.SFleb.
  repeat split; try reflexivity;
    destruct (Prim2SF g) as [ | [] | | ]; reflexivity.
Qed.

(** X22.  [SetJitter] rejects a factor by the test [jit < 0 || jit > 1].
    A NaN is not a factor between 0.0 and 1.0 (neither [0 <= jit] nor
    [jit <= 1] holds), yet it fails both halves of that test, so it is not
    ignored: it becomes the jitter of the retryer, whose back-off is left
    as it was. *)
Theorem SetJitter_stores_NaN (r : retry.retryer) (jit : float)
    (Hnan : PrimFloat.is_nan jit = true) :
  PrimFloat.leb 0 jit = false /\ PrimFloat.leb jit 1 = false /\
  retry.SetJitter r jit = retry.mkRetryer (retry.backoff r) jit.
Proof.
  destruct (nan_unordered jit 0 Hnan) as (Hlt0 & _ & _ & Hle0).
  destruct (nan_unordered jit 1 Hnan) as (_ & Hlt1 & Hle1 & _).
  split; [exact Hle0 |]. split; [exact Hle1 |].
  unfold retry.SetJitter. rewrite Hlt0, Hlt1. reflexivity.
Qed.

Lemma SetJitter_stores_NaN_witness :
  PrimFloat.is_nan PrimFloat.nan = true /\
  PrimFloat.leb 0 PrimFloat.nan = false /\
  PrimFloat.leb PrimFloat.nan 1 = false /\
  retry.SetJitter (retry.SetJitter (retry.newRetryer [100; 200]) 0.25)
    PrimFloat.nan
  = retry.mkRetryer [100; 200] PrimFloat.nan.
Proof.
  split; [reflexivity |].
  apply (SetJitter_stores_NaN
           (retry.SetJitter (retry.newRetryer [100; 200]) 0.25)
           PrimFloat.nan).
  reflexivity.
Defined.
